(** * Notes backend: versioning, sharing, access control and presence

    A shallow embedding of the note lifecycle of [src/notes/notes.service.ts]
    (create, findAll, findOne, update, shareNote, restoreVersion), of the
    notification helpers of [src/notifications/notifications.service.ts] and
    of the presence map of [src/websocket/websocket.gateway.ts].

    The relational store behind Prisma is a record of tables, each table a
    list of rows in insertion order.  Service methods are computations in a
    state-and-exception monad over that record; [$transaction] rolls the
    tables back when its body throws.  Store-generated columns that no
    modelled method reads (row ids of versions, grants and notifications,
    timestamps) are left out; the generated id of a new note is an argument
    of [create]. *)

From Stdlib Require Import ZArith String Ascii.
From stdpp Require Import base option list sorting strings gmap.

Local Open Scope Z_scope.

(** ** Data model *)

Inductive Visibility := PRIVATE | SHARED | PUBLIC.
Inductive Permission := VIEW.
Inductive NotificationType := NOTE_SHARED | NOTE_UPDATED | SYSTEM.
Inductive Role := USER | ADMIN.

#[global] Instance Visibility_eq_dec : EqDecision Visibility.
Proof. solve_decision. Defined.
#[global] Instance Permission_eq_dec : EqDecision Permission.
Proof. solve_decision. Defined.
#[global] Instance NotificationType_eq_dec : EqDecision NotificationType.
Proof. solve_decision. Defined.
#[global] Instance Role_eq_dec : EqDecision Role.
Proof. solve_decision. Defined.

Record User := mkUser {
  user_id : string;
  user_email : string;
  user_name : string;
  user_role : Role;
  user_isActive : bool;
}.

Record Note := mkNote {
  note_id : string;
  note_title : string;
  note_description : string;
  note_tags : list string;
  note_visibility : Visibility;
  note_authorId : string;
}.

Record NoteVersion := mkNoteVersion {
  nv_noteId : string;
  nv_title : string;
  nv_description : string;
  nv_version : Z;
  nv_createdBy : string;
}.

Record NoteUser := mkNoteUser {
  nu_noteId : string;
  nu_userId : string;
  nu_permission : Permission;
}.

(** The [data] column of a notification: [{ noteId, sharedByUserId }] or
    [{ noteId, authorId }], kept as the pair of its two ids. *)
Record Notification := mkNotification {
  ntf_userId : string;
  ntf_type : NotificationType;
  ntf_title : string;
  ntf_message : string;
  ntf_data : string * string;
  ntf_read : bool;
}.

#[global] Instance User_eq_dec : EqDecision User.
Proof. solve_decision. Defined.
#[global] Instance Note_eq_dec : EqDecision Note.
Proof. solve_decision. Defined.
#[global] Instance NoteVersion_eq_dec : EqDecision NoteVersion.
Proof. solve_decision. Defined.
#[global] Instance NoteUser_eq_dec : EqDecision NoteUser.
Proof. solve_decision. Defined.
#[global] Instance Notification_eq_dec : EqDecision Notification.
Proof. solve_decision. Defined.

(** The tables reached through [this.prisma]. *)
Record Db := mkDb {
  tbl_user : list User;
  tbl_note : list Note;
  tbl_noteVersion : list NoteVersion;
  tbl_noteUser : list NoteUser;
  tbl_notification : list Notification;
}.

Definition set_tbl_note (f : list Note → list Note) (db : Db) : Db :=
  mkDb (tbl_user db) (f (tbl_note db)) (tbl_noteVersion db)
       (tbl_noteUser db) (tbl_notification db).
Definition set_tbl_noteVersion (f : list NoteVersion → list NoteVersion) (db : Db) : Db :=
  mkDb (tbl_user db) (tbl_note db) (f (tbl_noteVersion db))
       (tbl_noteUser db) (tbl_notification db).
Definition set_tbl_noteUser (f : list NoteUser → list NoteUser) (db : Db) : Db :=
  mkDb (tbl_user db) (tbl_note db) (tbl_noteVersion db)
       (f (tbl_noteUser db)) (tbl_notification db).
Definition set_tbl_notification (f : list Notification → list Notification) (db : Db) : Db :=
  mkDb (tbl_user db) (tbl_note db) (tbl_noteVersion db)
       (tbl_noteUser db) (f (tbl_notification db)).

(** ** Exceptions and the store monad *)

(** The three Nest exceptions the service throws, the error Prisma raises
    when [update] or [findUniqueOrThrow] finds no row, and the error it
    raises when it refuses a query for one of its arguments: a number that
    does not fit the column, a value that is none of the enum's, a sort
    field that is no column, a negative [skip]. *)
Inductive Exception :=
| NotFoundException (message : string)
| ForbiddenException (message : string)
| BadRequestException (message : string)
| PrismaRecordNotFound
| PrismaInvalidArgument.

Inductive Result (A : Type) :=
| Ok (a : A)
| Throw (e : Exception).
Arguments Ok {A} a.
Arguments Throw {A} e.

(** A computation returns a value or throws, and always hands back the
    tables as it left them. *)
Definition Store (A : Type) : Type := Db → Result A * Db.

Definition ret {A} (a : A) : Store A := λ db, (Ok a, db).
Definition throw {A} (e : Exception) : Store A := λ db, (Throw e, db).
Definition bind {A B} (c : Store A) (k : A → Store B) : Store B :=
  λ db, match c db with
        | (Ok a, db') => k a db'
        | (Throw e, db') => (Throw e, db')
        end.
Definition get_db : Store Db := λ db, (Ok db, db).
Definition modify_db (f : Db → Db) : Store unit := λ db, (Ok tt, f db).

Notation "'let*' x ':=' c 'in' k" := (bind c (λ x, k))
  (at level 10, x name, c at level 100, k at level 200).
Notation "c ';;' k" := (bind c (λ _, k))
  (at level 100, k at level 200, right associativity).

(** [prisma.$transaction]: all writes of the body, or none. *)
Definition transaction {A} (body : Store A) : Store A :=
  λ db, match body db with
        | (Ok a, db') => (Ok a, db')
        | (Throw e, _) => (Throw e, db)
        end.

(** ** Store primitives *)

(** A note together with what [include] loads: its versions when asked
    for, its grants, and [_count.versions] when asked for.  The author and
    user summaries that ride along are left out. *)
Record NoteWithRelations := mkNoteWithRelations {
  nr_note : Note;
  nr_versions : option (list NoteVersion);
  nr_noteUsers : list NoteUser;
  nr_count_versions : option nat;
}.

(** [orderBy: { version: 'desc' }]. *)
Definition version_desc (a b : NoteVersion) : Prop := nv_version b ≤ nv_version a.
#[global] Instance version_desc_dec : RelDecision version_desc.
Proof. intros a b. unfold version_desc. apply _. Defined.

Definition orderBy_version_desc (l : list NoteVersion) : list NoteVersion :=
  merge_sort version_desc l.

Definition versions_where_noteId (noteId : string) (db : Db) : list NoteVersion :=
  filter (λ v, nv_noteId v = noteId) (tbl_noteVersion db).

Definition noteUsers_where_noteId (noteId : string) (db : Db) : list NoteUser :=
  filter (λ s, nu_noteId s = noteId) (tbl_noteUser db).

(** [include: { author, versions: { orderBy: { version: 'desc' } }, noteUsers }]. *)
Definition include_relations (db : Db) (n : Note) : NoteWithRelations :=
  mkNoteWithRelations n
    (Some (orderBy_version_desc (versions_where_noteId (note_id n) db)))
    (noteUsers_where_noteId (note_id n) db)
    None.

(** [include: { author, noteUsers }]. *)
Definition include_noteUsers (db : Db) (n : Note) : NoteWithRelations :=
  mkNoteWithRelations n None (noteUsers_where_noteId (note_id n) db) None.

(** [include: { author, noteUsers, _count: { select: { versions: true } } }]. *)
Definition include_count (db : Db) (n : Note) : NoteWithRelations :=
  mkNoteWithRelations n None (noteUsers_where_noteId (note_id n) db)
    (Some (length (versions_where_noteId (note_id n) db))).

(** The row of [note] selected by [where: { id }]. *)
Definition note_where_id (id : string) (db : Db) : option Note :=
  head (filter (λ n, note_id n = id) (tbl_note db)).

(** [note.findUnique({ where: { id }, include })]. *)
Definition note_findUnique (include : Db → Note → NoteWithRelations) (id : string)
  : Store (option NoteWithRelations) :=
  let* db := get_db in
  ret (include db <$> note_where_id id db).

(** [note.findUniqueOrThrow]. *)
Definition note_findUniqueOrThrow (id : string) : Store NoteWithRelations :=
  let* found := note_findUnique include_relations id in
  match found with
  | Some n => ret n
  | None => throw PrismaRecordNotFound
  end.

(** [note.create({ data })]; [id] stands for the key the store generates. *)
Definition note_create (data : Note) : Store Note :=
  modify_db (set_tbl_note (λ t, t ++ [data])) ;; ret data.

(** [note.update({ where: { id }, data, include })]: [data] rewrites the
    columns it names on the row with that id. *)
Definition note_update (id : string) (data : Note → Note) : Store NoteWithRelations :=
  let* db := get_db in
  match note_where_id id db with
  | None => throw PrismaRecordNotFound
  | Some _ =>
      modify_db (set_tbl_note (fmap (λ n, if decide (note_id n = id) then data n else n))) ;;
      note_findUniqueOrThrow id
  end.

(** [noteVersion.create({ data })]. *)
Definition noteVersion_create (data : NoteVersion) : Store unit :=
  modify_db (set_tbl_noteVersion (λ t, t ++ [data])).

(** [noteVersion.findFirst({ where: { noteId }, orderBy: { version: 'desc' } })]. *)
Definition noteVersion_findFirst_latest (noteId : string) : Store (option NoteVersion) :=
  let* db := get_db in
  ret (head (orderBy_version_desc (versions_where_noteId noteId db))).

(** The row of [noteVersion] selected by [where: { noteId, version }]. *)
Definition version_where (noteId : string) (version : Z) (db : Db) : option NoteVersion :=
  head (filter (λ v, nv_noteId v = noteId ∧ nv_version v = version) (tbl_noteVersion db)).

(** Modelled from the spec: the type of the [version] column.  The schema
    is not among the sources; the specification calls the column a
    "monotonically increasing integer version", and an integer column of
    a Prisma schema holds a signed 32-bit number.  The check is made
    where a number comes from outside, in the lookup below; the numbers
    the service itself writes are one above a stored one and leave the
    range only for a note that already has 2147483647 versions. *)
Definition int32 (z : Z) : Prop := -2147483648 ≤ z ≤ 2147483647.
#[global] Instance int32_dec z : Decision (int32 z).
Proof. unfold int32. apply _. Defined.

(** [noteVersion.findFirst({ where: { noteId, version } })].  The
    controller hands over [parseInt] of a path segment unchecked, so any
    integer can arrive here; one that does not fit the column is refused
    before a row is read.  (The [NaN] that [parseInt] gives for text
    that is no number is refused likewise and is not a value of [Z].) *)
Definition noteVersion_findFirst (noteId : string) (version : Z) : Store (option NoteVersion) :=
  if decide (int32 version) then
    let* db := get_db in
    ret (version_where noteId version db)
  else throw PrismaInvalidArgument.

(** [user.findMany({ where: { id: { in: userIds } } })]. *)
Definition user_findMany_id_in (userIds : list string) : Store (list User) :=
  let* db := get_db in
  ret (filter (λ u, user_id u ∈ userIds) (tbl_user db)).

(** [noteUser.deleteMany({ where: { noteId } })]. *)
Definition noteUser_deleteMany (noteId : string) : Store unit :=
  modify_db (set_tbl_noteUser (filter (λ s, nu_noteId s ≠ noteId))).

(** [noteUser.createMany({ data })]. *)
Definition noteUser_createMany (data : list NoteUser) : Store unit :=
  modify_db (set_tbl_noteUser (λ t, t ++ data)).

(** [notification.create({ data })]; the [read] column defaults to false. *)
Definition notification_create (data : Notification) : Store Notification :=
  modify_db (set_tbl_notification (λ t, t ++ [data])) ;; ret data.

(** JavaScript's [a || b] on numbers, [??] and [||] on optional values. *)
Definition js_or_Z (a b : Z) : Z := if decide (a = 0) then b else a.
Definition next_version (latestVersion : option NoteVersion) : Z :=
  js_or_Z (match latestVersion with Some v => nv_version v | None => 0 end) 0 + 1.
Definition nullish {A} (a : option A) (b : A) : A := default b a.
Definition truthy_string (s : option string) : bool :=
  match s with Some s => bool_decide (s ≠ EmptyString) | None => false end.

(** ** DTOs *)

Record CreateNoteDto := mkCreateNoteDto {
  c_title : string;
  c_description : string;
  c_tags : option (list string);
  c_visibility : option Visibility;
}.

Record UpdateNoteDto := mkUpdateNoteDto {
  u_title : option string;
  u_description : option string;
  u_tags : option (list string);
  u_visibility : option Visibility;
}.

(** ** Query filters

    The part of Prisma's [NoteWhereInput] that the service builds, and how
    the store decides it for one row.  [W_any] is the empty filter [{}];
    [contains] is with [mode: 'insensitive']. *)

#[warnings="-register-all"]
Inductive NoteWhereInput :=
| W_any
| W_AND (conds : list NoteWhereInput)
| W_OR (conds : list NoteWhereInput)
| W_authorId (authorId : string)
| W_visibility (visibility : Visibility)
| W_noteUsers_some_userId (userId : string)
| W_title_contains (search : string)
| W_description_contains (search : string)
| W_tags_hasSome (tags : list string).

Definition ascii_toLower (c : ascii) : ascii :=
  let n := nat_of_ascii c in
  if ((65 <=? n) && (n <=? 90))%nat then ascii_of_nat (n + 32) else c.

Fixpoint toLowerCase (s : string) : string :=
  match s with
  | EmptyString => EmptyString
  | String c s' => String (ascii_toLower c) (toLowerCase s')
  end.

Fixpoint includes (s sub : string) : bool :=
  String.prefix sub s
  || match s with
     | EmptyString => false
     | String _ s' => includes s' sub
     end.

(** [contains] with [mode: 'insensitive'] reaches the database as
    [column ILIKE '%' || search || '%'], and the search text goes into
    the pattern as it is: a [%] in it stands for any run of characters,
    a [_] for any one character, and a backslash takes the character
    after it literally.  Letters are compared without regard to case. *)
Inductive LikeToken :=
| Like_any
| Like_one
| Like_char (c : ascii).

Fixpoint like_tokens (pattern : string) : list LikeToken :=
  match pattern with
  | EmptyString => []
  | String c rest =>
      if decide (c = "%"%char) then Like_any :: like_tokens rest
      else if decide (c = "_"%char) then Like_one :: like_tokens rest
      else if decide (c = "\"%char) then
        match rest with
        | String d rest' => Like_char d :: like_tokens rest'
        | EmptyString => []
        end
      else Like_char c :: like_tokens rest
  end.

Fixpoint like_match (tokens : list LikeToken) (s : string) : bool :=
  match tokens with
  | [] => bool_decide (s = EmptyString)
  | Like_any :: tokens' =>
      (fix any (s : string) : bool :=
         like_match tokens' s
         || match s with
            | EmptyString => false
            | String _ s' => any s'
            end) s
  | Like_one :: tokens' =>
      match s with
      | EmptyString => false
      | String _ s' => like_match tokens' s'
      end
  | Like_char c :: tokens' =>
      match s with
      | EmptyString => false
      | String d s' => bool_decide (ascii_toLower c = ascii_toLower d) && like_match tokens' s'
      end
  end.

(** The pattern of a [contains] always ends in the [%] put after the
    search text, so the case of [like_tokens] for a pattern that ends in
    a lone backslash does not arise here. *)
Definition contains_insensitive (column search : string) : bool :=
  like_match (like_tokens ("%" +:+ search +:+ "%")) column.

Fixpoint matches (db : Db) (w : NoteWhereInput) (n : Note) : bool :=
  match w with
  | W_any => true
  | W_AND conds => forallb (λ c, matches db c n) conds
  | W_OR conds => existsb (λ c, matches db c n) conds
  | W_authorId a => bool_decide (note_authorId n = a)
  | W_visibility v => bool_decide (note_visibility n = v)
  | W_noteUsers_some_userId u =>
      existsb (λ s, bool_decide (nu_userId s = u)) (noteUsers_where_noteId (note_id n) db)
  | W_title_contains q => contains_insensitive (note_title n) q
  | W_description_contains q => contains_insensitive (note_description n) q
  | W_tags_hasSome tags => existsb (λ t, bool_decide (t ∈ note_tags n)) tags
  end.

Inductive SortOrder := asc | desc.

Record QueryNotesDto := mkQueryNotesDto {
  q_page : option Z;
  q_limit : option Z;
  q_search : option string;
  q_tags : option (list string);
  q_visibility : option Visibility;
  q_authorId : option string;
  q_sortBy : option string;
  q_sortOrder : option SortOrder;
}.

(** ** Further store primitives *)

(** Modelled from the spec: the cascade of the schema, which is not among
    the sources ("deleted by owner or admin (cascades to versions and
    shares)").  [note.delete({ where: { id } })] removes the row and, with
    it, the version and grant rows that refer to it; it fails when no row
    has that id. *)
Definition note_delete (id : string) : Store unit :=
  let* db := get_db in
  match note_where_id id db with
  | None => throw PrismaRecordNotFound
  | Some _ =>
      modify_db (λ db,
        {| tbl_user := tbl_user db;
           tbl_note := filter (λ n, note_id n ≠ id) (tbl_note db);
           tbl_noteVersion := filter (λ v, nv_noteId v ≠ id) (tbl_noteVersion db);
           tbl_noteUser := filter (λ s, nu_noteId s ≠ id) (tbl_noteUser db);
           tbl_notification := tbl_notification db |})
  end.

(** [notification.createMany({ data })]. *)
Definition notification_createMany (data : list Notification) : Store unit :=
  modify_db (set_tbl_notification (λ t, t ++ data)).

(** [notification.updateMany({ where: { userId, read: false }, data: { read: true } })]:
    the number of rows it changed. *)
Definition notification_markRead (n : Notification) : Notification :=
  {| ntf_userId := ntf_userId n;
     ntf_type := ntf_type n;
     ntf_title := ntf_title n;
     ntf_message := ntf_message n;
     ntf_data := ntf_data n;
     ntf_read := true |}.

Definition unread_of (userId : string) (n : Notification) : Prop :=
  ntf_userId n = userId ∧ ntf_read n = false.
#[global] Instance unread_of_dec userId n : Decision (unread_of userId n).
Proof. unfold unread_of. apply _. Defined.

Definition notification_updateMany_read (userId : string) : Store nat :=
  let* db := get_db in
  modify_db (set_tbl_notification
    (fmap (λ n, if decide (unread_of userId n) then notification_markRead n else n))) ;;
  ret (length (filter (unread_of userId) (tbl_notification db))).

(** [notification.count({ where: { userId, read: false } })]. *)
Definition notification_count_unread (userId : string) : Store nat :=
  let* db := get_db in
  ret (length (filter (unread_of userId) (tbl_notification db))).

(** ** Strings, as the suggestion code uses them

    Strings are taken to be ASCII: [toLowerCase] and the class [\s] are
    modelled on that range. *)

(** The ASCII members of [\s]: tab, line feed, vertical tab, form feed,
    carriage return, space. *)
Definition is_whitespace (c : ascii) : bool :=
  let n := nat_of_ascii c in
  ((9 <=? n) && (n <=? 13) || (n =? 32))%nat.

(** [s.split(/\s+/)]: [word] is the piece being read, [in_gap] says that
    the previous character was whitespace. *)
Fixpoint split_whitespace_from (word : string) (in_gap : bool) (s : string) : list string :=
  match s with
  | EmptyString => [word]
  | String c s' =>
      if is_whitespace c then
        if in_gap then split_whitespace_from word true s'
        else word :: split_whitespace_from EmptyString true s'
      else split_whitespace_from (word +:+ String c EmptyString) false s'
  end.

Definition split_whitespace (s : string) : list string :=
  split_whitespace_from EmptyString false s.

(** [set.add(x)] on a [Set] kept in insertion order. *)
Definition set_add (x : string) (set : list string) : list string :=
  if decide (x ∈ set) then set else set ++ [x].

(** ** NotesService *)

Module NotesService.

(** The access check of [findOne]. *)
Definition hasAccess (note : NoteWithRelations) (userId : string) : bool :=
  bool_decide (note_authorId (nr_note note) = userId)
  || bool_decide (note_visibility (nr_note note) = PUBLIC)
  || (bool_decide (note_visibility (nr_note note) = SHARED)
      && existsb (λ share, bool_decide (nu_userId share = userId)) (nr_noteUsers note)).

Definition findOne (id userId : string) : Store NoteWithRelations :=
  let* note := note_findUnique include_relations id in
  match note with
  | None => throw (NotFoundException "Note not found")
  | Some note =>
      if negb (hasAccess note userId)
      then throw (ForbiddenException "You do not have access to this note")
      else ret note
  end.

(** [newId] is the primary key the store gives the new row. *)
Definition create (newId : string) (createNoteDto : CreateNoteDto) (userId : string)
  : Store NoteWithRelations :=
  transaction (
    let* note := note_create
      {| note_id := newId;
         note_title := c_title createNoteDto;
         note_description := c_description createNoteDto;
         note_tags := default [] (c_tags createNoteDto);
         note_visibility := default PRIVATE (c_visibility createNoteDto);
         note_authorId := userId |} in
    noteVersion_create
      {| nv_noteId := note_id note;
         nv_title := note_title note;
         nv_description := note_description note;
         nv_version := 1;
         nv_createdBy := userId |} ;;
    let* fullNote := note_findUniqueOrThrow (note_id note) in
    ret fullNote).

(** The condition guarding the new version in [update]. *)
Definition contentChanged (updateNoteDto : UpdateNoteDto) (existingNote : Note) : bool :=
  match u_title updateNoteDto with
  | Some t => bool_decide (t ≠ note_title existingNote)
  | None => false
  end
  || match u_description updateNoteDto with
     | Some d => bool_decide (d ≠ note_description existingNote)
     | None => false
     end.

(** The [data] of the [note.update] in [update]: the four columns it sets. *)
Definition update_data (updateNoteDto : UpdateNoteDto) (existingNote n : Note) : Note :=
  {| note_id := note_id n;
     note_title := nullish (u_title updateNoteDto) (note_title existingNote);
     note_description := nullish (u_description updateNoteDto) (note_description existingNote);
     note_tags := nullish (u_tags updateNoteDto) (note_tags existingNote);
     note_visibility := nullish (u_visibility updateNoteDto) (note_visibility existingNote);
     note_authorId := note_authorId n |}.

Definition update (id : string) (updateNoteDto : UpdateNoteDto) (userId : string)
  : Store NoteWithRelations :=
  let* existing := findOne id userId in
  let existingNote := nr_note existing in
  if bool_decide (note_authorId existingNote ≠ userId)
  then throw (ForbiddenException "Only the author can update this note")
  else transaction (
    let* updatedNote := note_update id (update_data updateNoteDto existingNote) in
    (if contentChanged updateNoteDto existingNote then
       let* latestVersion := noteVersion_findFirst_latest id in
       noteVersion_create
         {| nv_noteId := id;
            nv_title := note_title (nr_note updatedNote);
            nv_description := note_description (nr_note updatedNote);
            nv_version := next_version latestVersion;
            nv_createdBy := userId |}
     else ret tt) ;;
    ret updatedNote).

(** The [data] of the two other [note.update] calls. *)
Definition share_data (n : Note) : Note :=
  {| note_id := note_id n;
     note_title := note_title n;
     note_description := note_description n;
     note_tags := note_tags n;
     note_visibility := SHARED;
     note_authorId := note_authorId n |}.

Definition restore_data (targetVersion : NoteVersion) (n : Note) : Note :=
  {| note_id := note_id n;
     note_title := nv_title targetVersion;
     note_description := nv_description targetVersion;
     note_tags := note_tags n;
     note_visibility := note_visibility n;
     note_authorId := note_authorId n |}.

(** One grant row per requested user id. *)
Definition share_rows (noteId : string) (userIds : list string) : list NoteUser :=
  (λ uid, {| nu_noteId := noteId; nu_userId := uid; nu_permission := VIEW |}) <$> userIds.

Definition shareNote (noteId : string) (userIds : list string) (userId : string)
  : Store (option NoteWithRelations) :=
  let* note := findOne noteId userId in
  if bool_decide (note_authorId (nr_note note) ≠ userId)
  then throw (ForbiddenException "Only the author can share this note")
  else
    let* users := user_findMany_id_in userIds in
    if bool_decide (length users ≠ length userIds)
    then throw (BadRequestException "One or more users not found")
    else transaction (
      noteUser_deleteMany noteId ;;
      (if bool_decide (0 < length userIds)%nat then
         noteUser_createMany (share_rows noteId userIds)
       else ret tt) ;;
      (if bool_decide (note_visibility (nr_note note) = PRIVATE) then
         note_update noteId share_data ;; ret tt
       else ret tt) ;;
      note_findUnique include_noteUsers noteId).

Definition restoreVersion (noteId : string) (version : Z) (userId : string)
  : Store NoteWithRelations :=
  let* note := findOne noteId userId in
  if bool_decide (note_authorId (nr_note note) ≠ userId)
  then throw (ForbiddenException "Only the author can restore note versions")
  else
    let* targetVersion := noteVersion_findFirst noteId version in
    match targetVersion with
    | None => throw (NotFoundException "Version not found")
    | Some targetVersion =>
        transaction (
          let* updatedNote := note_update noteId (restore_data targetVersion) in
          let* latestVersion := noteVersion_findFirst_latest noteId in
          noteVersion_create
            {| nv_noteId := noteId;
               nv_title := nv_title targetVersion;
               nv_description := nv_description targetVersion;
               nv_version := next_version latestVersion;
               nv_createdBy := userId |} ;;
          ret updatedNote)
    end.

(** The candidates offered for sharing: active plain users other than the
    requester, optionally narrowed by name.  The result of [findMany] is
    an array, so the [if (!data)] that follows it never throws. *)
Definition getUsersToShareNote (userId : string) (name : option string) : Store (list User) :=
  let* db := get_db in
  ret (filter (λ u, user_isActive u
                    && bool_decide (user_role u = USER)
                    && bool_decide (user_id u ≠ userId)
                    && (if truthy_string name
                        then contains_insensitive (user_name u) (default EmptyString name)
                        else true) = true)
              (tbl_user db)).

(** The access filter shared by [findAll], [advancedSearch] and
    [getSearchSuggestions]. *)
Definition accessControl (userId : string) : NoteWhereInput :=
  W_OR [ W_authorId userId;
         W_visibility PUBLIC;
         W_AND [ W_visibility SHARED; W_noteUsers_some_userId userId ] ].

(** The optional conditions of [findAll], after the access filter. *)
Definition findAll_filters (queryDto : QueryNotesDto) : list NoteWhereInput :=
  [ (if truthy_string (q_search queryDto) then
       W_OR [ W_title_contains (default EmptyString (q_search queryDto));
              W_description_contains (default EmptyString (q_search queryDto)) ]
     else W_any);
    (match q_tags queryDto with
     | Some (t :: ts) => W_tags_hasSome (t :: ts)
     | _ => W_any
     end);
    (match q_visibility queryDto with
     | Some v => W_visibility v
     | None => W_any
     end);
    (if truthy_string (q_authorId queryDto) then
       W_authorId (default EmptyString (q_authorId queryDto))
     else W_any) ].

Definition findAll_where (queryDto : QueryNotesDto) (userId : string) : NoteWhereInput :=
  W_AND (accessControl userId :: findAll_filters queryDto).

(** The result of [findAll]: the page and its [meta], without the
    floating-point [totalPages]. *)
Record Page := mkPage {
  pg_data : list NoteWithRelations;
  pg_total : nat;
  pg_page : Z;
  pg_limit : Z;
}.

(** [note.count({ where })]. *)
Definition note_count (where_ : NoteWhereInput) : Store nat :=
  let* db := get_db in
  ret (length (filter (λ n, matches db where_ n = true) (tbl_note db))).

(** [skip] and [take] of [findMany], applied to the sorted rows.  A
    negative [skip] is refused.  A negative [take] counts from the far
    end: the order is turned round, [skip] and [take] are applied, and
    the rows come back in the order asked for. *)
Definition skip_take {A} (skip take_ : Z) (rows : list A) : option (list A) :=
  if decide (skip < 0) then None
  else Some (if decide (0 ≤ take_)
             then take (Z.to_nat take_) (drop (Z.to_nat skip) rows)
             else reverse (take (Z.to_nat (- take_)) (drop (Z.to_nat skip) (reverse rows)))).

(** The names of the enum values, as they travel in a query string. *)
Definition sortOrder_name (sortOrder : SortOrder) : string :=
  match sortOrder with asc => "asc" | desc => "desc" end.

Definition visibility_name (visibility : Visibility) : string :=
  match visibility with PRIVATE => "PRIVATE" | SHARED => "SHARED" | PUBLIC => "PUBLIC" end.

(** How the store reads a string where it expects a [Visibility]. *)
Definition visibility_of_string (s : string) : option Visibility :=
  if decide (s = "PRIVATE") then Some PRIVATE
  else if decide (s = "SHARED") then Some SHARED
  else if decide (s = "PUBLIC") then Some PUBLIC
  else None.

(** A number as [parseInt] hands it over: an integer, or [NaN] for text
    that does not start with one.  Subtraction and multiplication are
    those of the integers, which the floating-point ones agree with
    below 2^53. *)
Inductive JsNumber := NaN | Num (z : Z).

Definition js_sub (a b : JsNumber) : JsNumber :=
  match a, b with Num x, Num y => Num (x - y) | _, _ => NaN end.
Definition js_mul (a b : JsNumber) : JsNumber :=
  match a, b with Num x, Num y => Num (x * y) | _, _ => NaN end.

(** The options of [advancedSearch], as the controller fills them: [page]
    and [limit] are [parseInt] of the query string, [visibility] and
    [sortOrder] are the query string's own text; nothing is validated
    on the way. *)
Record SearchOptions := mkSearchOptions {
  o_page : option JsNumber;
  o_limit : option JsNumber;
  o_tags : option (list string);
  o_visibility : option string;
  o_authorId : option string;
  o_sortBy : option string;
  o_sortOrder : option string;
}.

(** The conditions [advancedSearch] pushes, in order.  [None] stands for
    a list the store refuses: its [{ visibility }] holds a string that
    is no value of the enum. *)
Definition searchConditions (query : string) (options : SearchOptions)
  : option (list NoteWhereInput) :=
  visibilityCondition ←
    (if truthy_string (o_visibility options)
     then (λ v, [ W_visibility v ])
            <$> visibility_of_string (default EmptyString (o_visibility options))
     else Some []);
  Some ((if bool_decide (query ≠ EmptyString) then
           [ W_OR [ W_title_contains query; W_description_contains query;
                    W_tags_hasSome [query] ] ]
         else [])
        ++ (match o_tags options with
            | Some (t :: ts) => [ W_tags_hasSome (t :: ts) ]
            | _ => []
            end)
        ++ visibilityCondition
        ++ (if truthy_string (o_authorId options) then
              [ W_authorId (default EmptyString (o_authorId options)) ]
            else [])).

Definition advancedSearch_where (query userId : string) (options : SearchOptions)
  : option NoteWhereInput :=
  (λ conds, W_AND (accessControl userId :: conds)) <$> searchConditions query options.

(** [include] of [advancedSearch]: the latest version only, the grants,
    and the count of versions. *)
Definition include_latest (db : Db) (n : Note) : NoteWithRelations :=
  mkNoteWithRelations n
    (Some (take 1 (orderBy_version_desc (versions_where_noteId (note_id n) db))))
    (noteUsers_where_noteId (note_id n) db)
    (Some (length (versions_where_noteId (note_id n) db))).

Section Listing.
(** The store's [ORDER BY] for [orderBy: { [sortBy]: sortOrder }].  The
    sortable columns include timestamps that are not modelled, so the
    order is left open; [sortable] says whether the store accepts the
    field and the direction at all (a field that is no column of [note],
    or a direction other than asc and desc, is refused).  [fits] says
    whether the store accepts a number as [skip] or [take]: it refuses
    one too large for its integer argument, and where that limit lies
    is left open too. *)
Variable sortable : string → string → bool.
Variable fits : Z → bool.
Variable orderBy : string → string → list Note → list Note.

(** [note.findMany({ where, skip, take, orderBy, include })]. *)
Definition note_findMany (where_ : NoteWhereInput) (skip take_ : Z)
    (sortBy sortOrder : string) (include : Db → Note → NoteWithRelations)
  : Store (list NoteWithRelations) :=
  let* db := get_db in
  if negb (sortable sortBy sortOrder && fits skip && fits take_)
  then throw PrismaInvalidArgument
  else
    match skip_take skip take_
            (orderBy sortBy sortOrder
               (filter (λ n, matches db where_ n = true) (tbl_note db))) with
    | None => throw PrismaInvalidArgument
    | Some rows => ret (include db <$> rows)
    end.

Definition findAll (queryDto : QueryNotesDto) (userId : string) : Store Page :=
  let page := default 1 (q_page queryDto) in
  let limit := default 10 (q_limit queryDto) in
  let sortBy := default "updatedAt" (q_sortBy queryDto) in
  let sortOrder := default desc (q_sortOrder queryDto) in
  let skip := (page - 1) * limit in
  let where_ := findAll_where queryDto userId in
  let* notes := note_findMany where_ skip limit sortBy (sortOrder_name sortOrder)
                  include_count in
  let* total := note_count where_ in
  ret {| pg_data := notes;
         pg_total := total;
         pg_page := page;
         pg_limit := limit |}.

Definition advancedSearch (query userId : string) (options : SearchOptions) : Store Page :=
  let page := default (Num 1) (o_page options) in
  let limit := default (Num 10) (o_limit options) in
  let sortBy := default "updatedAt" (o_sortBy options) in
  let sortOrder := default "desc" (o_sortOrder options) in
  let skip := js_mul (js_sub page (Num 1)) limit in
  match advancedSearch_where query userId options, page, limit, skip with
  | Some where_, Num page, Num limit, Num skip =>
      let* notes := note_findMany where_ skip limit sortBy sortOrder include_latest in
      let* total := note_count where_ in
      ret {| pg_data := notes;
             pg_total := total;
             pg_page := page;
             pg_limit := limit |}
  | _, _, _, _ => throw PrismaInvalidArgument
  end.
End Listing.

Definition remove (id userId : string) : Store unit :=
  let* note := findOne id userId in
  if bool_decide (note_authorId (nr_note note) ≠ userId)
  then throw (ForbiddenException "Only the author can delete this note")
  else note_delete id.

Definition getVersions (noteId userId : string) : Store (list NoteVersion) :=
  findOne noteId userId ;;
  let* db := get_db in
  ret (orderBy_version_desc (versions_where_noteId noteId db)).

(** The filter of [getSearchSuggestions]. *)
Definition suggestions_where (userId query : string) : NoteWhereInput :=
  W_AND [ accessControl userId;
          W_OR [ W_title_contains query; W_description_contains query ] ].

(** One round of the outer [forEach]: the matching words of the title,
    then the matching tags. *)
Definition add_suggestions (query : string) (suggestions : list string) (note : Note)
  : list string :=
  let titleWords := split_whitespace (toLowerCase (note_title note)) in
  let after_words :=
    foldl (λ acc word,
             if includes word (toLowerCase query) && bool_decide (2 < String.length word)%nat
             then set_add word acc else acc)
          suggestions titleWords in
  foldl (λ acc tag,
           if includes (toLowerCase tag) (toLowerCase query)
           then set_add tag acc else acc)
        after_words (note_tags note).

(** The query has no [orderBy]; the rows are taken in table order. *)
Definition getSearchSuggestions (userId query : string) : Store (list string) :=
  if bool_decide (query = EmptyString) || bool_decide (String.length query < 2)%nat
  then ret []
  else
    let* db := get_db in
    let notes := take 10 (filter (λ n, matches db (suggestions_where userId query) n = true)
                                 (tbl_note db)) in
    let suggestions := foldl (add_suggestions query) [] notes in
    ret (take 8 suggestions).

End NotesService.

(** ** NotificationsService *)

Module NotificationsService.

Definition create (createNotificationDto : Notification) : Store Notification :=
  notification_create createNotificationDto.

Definition dquote : string := String (ascii_of_nat 34) EmptyString.

(** [user.findUnique({ where: { id }, select: { name: true } })]. *)
Definition user_findUnique_name (id : string) : Store (option string) :=
  let* db := get_db in
  ret (user_name <$> head (filter (λ u, user_id u = id) (tbl_user db))).

Definition createNoteSharedNotification
    (noteId noteTitle sharedWithUserId sharedByUserId : string) : Store Notification :=
  let* sharedByUser := user_findUnique_name sharedByUserId in
  let displayName :=
    if truthy_string sharedByUser then default EmptyString sharedByUser else "Someone" in
  create
    {| ntf_userId := sharedWithUserId;
       ntf_type := NOTE_SHARED;
       ntf_title := "Note Shared";
       ntf_message :=
         displayName +:+ " shared a note " +:+ dquote +:+ noteTitle +:+ dquote +:+ " with you";
       ntf_data := (noteId, sharedByUserId);
       ntf_read := false |}.

Definition markAllAsRead (userId : string) : Store nat :=
  notification_updateMany_read userId.

Definition getUnreadCount (userId : string) : Store nat :=
  notification_count_unread userId.

Definition createNoteUpdatedNotification
    (noteId noteTitle authorId : string) (sharedUserIds : list string) : Store unit :=
  let* author := user_findUnique_name authorId in
  let displayName :=
    if truthy_string author then default EmptyString author else "Someone" in
  let notifications :=
    (λ userId,
       {| ntf_userId := userId;
          ntf_type := NOTE_UPDATED;
          ntf_title := "Note Updated";
          ntf_message := displayName +:+ " updated the note " +:+ dquote +:+ noteTitle +:+ dquote;
          ntf_data := (noteId, authorId);
          ntf_read := false |}) <$> sharedUserIds in
  if bool_decide (0 < length notifications)%nat
  then notification_createMany notifications
  else ret tt.

End NotificationsService.

(** ** WebSocketGateway: the presence map *)

Module WebSocketGateway.

Record Handshake := mkHandshake {
  auth_token : option string;
  headers_authorization : option string;
}.

(** [s.replace(pat, rep)] with a string pattern: the first occurrence only. *)
Fixpoint replace (pat rep s : string) : string :=
  if String.prefix pat s
  then rep +:+ String.substring (String.length pat) (String.length s - String.length pat) s
  else match s with
       | EmptyString => EmptyString
       | String c s' => String c (replace pat rep s')
       end.

Definition handshake_token (h : Handshake) : option string :=
  if truthy_string (auth_token h) then auth_token h
  else replace "Bearer " EmptyString <$> headers_authorization h.

(** [connectedUsers] is the gateway's [Map] from user id to socket id;
    [socket_userId] holds the [userId] property set on each socket object;
    [live] is the set of sockets the transport currently has open.  Rooms
    and emitted events are not modelled. *)
Record Gateway := mkGateway {
  connectedUsers : gmap string string;
  socket_userId : gmap string string;
  live : gset string;
}.

Definition empty_gateway : Gateway := mkGateway ∅ ∅ ∅.

Definition handleDisconnect (g : Gateway) (client : string) : Gateway :=
  if truthy_string (socket_userId g !! client) then
    match socket_userId g !! client with
    | Some userId =>
        mkGateway (delete userId (connectedUsers g)) (socket_userId g) (live g)
    | None => g
    end
  else g.

(** [client.disconnect()]: the transport closes the socket and the
    framework then runs [handleDisconnect] for it. *)
Definition client_disconnect (g : Gateway) (client : string) : Gateway :=
  handleDisconnect (mkGateway (connectedUsers g) (socket_userId g) (live g ∖ {[client]})) client.

Section Connection.
(** [jwtService.verify]: the [sub] of a valid token, [None] when it throws. *)
Variable verify : string → option string.

Definition handleConnection (db : Db) (g : Gateway) (client : string) (h : Handshake)
  : Gateway :=
  let token := handshake_token h in
  if negb (truthy_string token) then client_disconnect g client
  else
    match verify (default EmptyString token) with
    | None => client_disconnect g client
    | Some sub =>
        match head (filter (λ u, user_id u = sub) (tbl_user db)) with
        | None => client_disconnect g client
        | Some user =>
            mkGateway (<[user_id user := client]> (connectedUsers g))
                      (<[client := user_id user]> (socket_userId g))
                      (live g)
        end
    end.

(** What the transport delivers to the gateway. *)
Inductive Event :=
| Connect (client : string) (h : Handshake)
| Disconnect (client : string).

(** [Connect] is [handleConnection] run from its first line to its last
    with no other event handled in between; the handler split at its
    [await] follows further down. *)
Definition step (db : Db) (g : Gateway) (ev : Event) : Gateway :=
  match ev with
  | Connect client h =>
      handleConnection db
        (mkGateway (connectedUsers g) (socket_userId g) ({[client]} ∪ live g)) client h
  | Disconnect client => client_disconnect g client
  end.

Definition run (db : Db) (g : Gateway) (evs : list Event) : Gateway :=
  foldl (step db) g evs.

(** *** The handler across its await

    [handleConnection] is asynchronous: it reads the token and verifies
    it, then awaits the user lookup, and only when the lookup has
    answered does it set [client.userId] and the registry entry.  While
    it waits the gateway handles whatever else the transport delivers,
    the close of the connecting socket included.  [step] above is the
    run in which nothing comes in between; here the two halves are
    separate.  [awaiting] maps a socket whose handler is suspended at
    the lookup to the [sub] of its token. *)
Record Pending := mkPending {
  gateway : Gateway;
  awaiting : gmap string string;
}.

Definition empty_pending : Pending := mkPending empty_gateway ∅.

(** Up to the [await]. *)
Definition handleConnection_begin (p : Pending) (client : string) (h : Handshake) : Pending :=
  let token := handshake_token h in
  if negb (truthy_string token) then mkPending (client_disconnect (gateway p) client) (awaiting p)
  else
    match verify (default EmptyString token) with
    | None => mkPending (client_disconnect (gateway p) client) (awaiting p)
    | Some sub => mkPending (gateway p) (<[client := sub]> (awaiting p))
    end.

(** From the [await] on.  [client.disconnect()] does nothing on a socket
    that is closed already; the assignments do not ask whether it is. *)
Definition handleConnection_resume (db : Db) (p : Pending) (client : string) : Pending :=
  match awaiting p !! client with
  | None => p
  | Some sub =>
      let g := gateway p in
      mkPending
        match head (filter (λ u, user_id u = sub) (tbl_user db)) with
        | None => if decide (client ∈ live g) then client_disconnect g client else g
        | Some user =>
            mkGateway (<[user_id user := client]> (connectedUsers g))
                      (<[client := user_id user]> (socket_userId g))
                      (live g)
        end
        (delete client (awaiting p))
  end.

(** What the gateway gets to handle, one turn of the event loop each:
    a socket opens, the lookup of a waiting handler answers, a socket
    closes. *)
Inductive Turn :=
| Opened (client : string) (h : Handshake)
| Answered (client : string)
| Closed (client : string).

Definition turn (db : Db) (p : Pending) (t : Turn) : Pending :=
  match t with
  | Opened client h =>
      handleConnection_begin
        (mkPending (mkGateway (connectedUsers (gateway p)) (socket_userId (gateway p))
                              ({[client]} ∪ live (gateway p)))
                   (awaiting p))
        client h
  | Answered client => handleConnection_resume db p client
  | Closed client => mkPending (client_disconnect (gateway p) client) (awaiting p)
  end.

Definition turns (db : Db) (p : Pending) (ts : list Turn) : Pending :=
  foldl (turn db) p ts.
End Connection.

(** *** Rooms and delivery

    What the gateway asks of the transport: a socket joins and leaves
    named rooms, [server.to(room).emit] reaches every socket in the room
    once, [server.emit] reaches every open socket, and a socket that
    closes leaves all its rooms.  Payloads are kept as text; the room
    each socket has under its own id is left out. *)

Record Emitted := mkEmitted {
  em_socket : string;
  em_event : string;
  em_payload : string;
}.

#[global] Instance Emitted_eq_dec : EqDecision Emitted.
Proof. solve_decision. Defined.

(** [hub_rooms] maps a socket id to the rooms it is in; [hub_emitted] is
    everything sent so far, oldest first. *)
Record Hub := mkHub {
  hub_gateway : Gateway;
  hub_rooms : gmap string (gset string);
  hub_emitted : list Emitted;
}.

Definition empty_hub : Hub := mkHub empty_gateway ∅ [].

Definition rooms_of (hub : Hub) (client : string) : gset string :=
  default ∅ (hub_rooms hub !! client).

(** The sockets in [room]. *)
Definition members (room : string) (hub : Hub) : list string :=
  elements (dom (filter (λ entry, room ∈ entry.2) (hub_rooms hub))).

Definition client_join (client room : string) (hub : Hub) : Hub :=
  mkHub (hub_gateway hub)
        (<[client := {[room]} ∪ rooms_of hub client]> (hub_rooms hub))
        (hub_emitted hub).

Definition client_leave (client room : string) (hub : Hub) : Hub :=
  mkHub (hub_gateway hub)
        (alter (λ rooms, rooms ∖ {[room]}) client (hub_rooms hub))
        (hub_emitted hub).

Definition client_emit (client event payload : string) (hub : Hub) : Hub :=
  mkHub (hub_gateway hub) (hub_rooms hub)
        (hub_emitted hub ++ [mkEmitted client event payload]).

(** [server.to(room).emit(event, payload)]. *)
Definition emit_to (room event payload : string) (hub : Hub) : Hub :=
  mkHub (hub_gateway hub) (hub_rooms hub)
        (hub_emitted hub ++ ((λ client, mkEmitted client event payload) <$> members room hub)).

(** The personal room of a user. *)
Definition user_room (userId : string) : string := "user:" +:+ userId.

Definition handleJoinRoom (hub : Hub) (client room : string) : Hub :=
  if negb (truthy_string (socket_userId (hub_gateway hub) !! client)) then hub
  else client_emit client "joined-room" room (client_join client room hub).

Definition handleLeaveRoom (hub : Hub) (client room : string) : Hub :=
  if negb (truthy_string (socket_userId (hub_gateway hub) !! client)) then hub
  else client_emit client "left-room" room (client_leave client room hub).

Definition sendNotificationToUser (hub : Hub) (userId notification : string) : Hub :=
  emit_to (user_room userId) "notification" notification hub.

Definition sendNoteUpdate (hub : Hub) (userIds : list string) (noteUpdate : string) : Hub :=
  foldl (λ h userId, emit_to (user_room userId) "note-updated" noteUpdate h) hub userIds.

Definition broadcastSystemMessage (hub : Hub) (message : string) : Hub :=
  mkHub (hub_gateway hub) (hub_rooms hub)
        (hub_emitted hub
         ++ ((λ client, mkEmitted client "system-message" message)
               <$> elements (live (hub_gateway hub)))).

Section HubConnection.
Variable verify : string → option string.

(** The user a handshake authenticates as, if any: the three tests of
    [handleConnection] in order. *)
Definition authenticate (db : Db) (h : Handshake) : option User :=
  let token := handshake_token h in
  if negb (truthy_string token) then None
  else
    match verify (default EmptyString token) with
    | None => None
    | Some sub => head (filter (λ u, user_id u = sub) (tbl_user db))
    end.

(** A socket connects: the registry part is [handleConnection]; a socket
    that authenticates also joins its user's room and is told so, one
    that does not is closed. *)
Definition hub_connect (db : Db) (hub : Hub) (client : string) (h : Handshake) : Hub :=
  let g := step verify db (hub_gateway hub) (Connect client h) in
  match authenticate db h with
  | Some user =>
      client_emit client "connected" "Successfully connected to notifications"
        (client_join client (user_room (user_id user))
           (mkHub g (hub_rooms hub) (hub_emitted hub)))
  | None => mkHub g (delete client (hub_rooms hub)) (hub_emitted hub)
  end.

(** A socket closes. *)
Definition hub_disconnect (db : Db) (hub : Hub) (client : string) : Hub :=
  mkHub (step verify db (hub_gateway hub) (Disconnect client))
        (delete client (hub_rooms hub))
        (hub_emitted hub).
End HubConnection.

Definition isUserOnline (g : Gateway) (userId : string) : bool :=
  bool_decide (is_Some (connectedUsers g !! userId)).

Definition getConnectedUsersCount (g : Gateway) : nat := size (connectedUsers g).

End WebSocketGateway.

(** * Specification vocabulary *)

(** ** The access rule in the words of the specification *)

Definition grant_exists (db : Db) (n : Note) (u : string) : Prop :=
  Exists (λ g, nu_noteId g = note_id n ∧ nu_userId g = u) (tbl_noteUser db).

Definition canRead (db : Db) (n : Note) (u : string) : Prop :=
  u = note_authorId n
  ∨ note_visibility n = PUBLIC
  ∨ (note_visibility n = SHARED ∧ grant_exists db n u).

#[global] Instance grant_exists_dec db n u : Decision (grant_exists db n u).
Proof. unfold grant_exists. apply _. Defined.
#[global] Instance canRead_dec db n u : Decision (canRead db n u).
Proof. unfold canRead. apply _. Defined.


(** ** Version numbers *)

(** The version numbers of a note, in the order its rows were inserted. *)
Definition version_numbers (noteId : string) (db : Db) : list Z :=
  nv_version <$> versions_where_noteId noteId db.

(** The largest of a list of numbers; 0 for the empty list. *)
Definition max_version (vs : list Z) : Z :=
  match vs with
  | [] => 0
  | v :: vs' => foldr Z.max v vs'
  end.

(** ** The store after each write *)

(** The [note] table after [note.update({ where: { id }, data })]. *)
Definition with_note_update (id : string) (data : Note → Note) (db : Db) : Db :=
  set_tbl_note (fmap (λ m, if decide (note_id m = id) then data m else m)) db.

(** The tables after one more row in [noteVersion]. *)
Definition with_version (row : NoteVersion) (db : Db) : Db :=
  set_tbl_noteVersion (λ t, t ++ [row]) db.

(** A [data] that leaves the key alone, as every [note.update] here does. *)
Definition keeps_id (data : Note → Note) : Prop := ∀ m, note_id (data m) = note_id m.

(** "The supplied title or description differs from the persisted value." *)
Definition content_differs (dto : UpdateNoteDto) (n : Note) : Prop :=
  (∃ t, u_title dto = Some t ∧ t ≠ note_title n)
  ∨ (∃ d, u_description dto = Some d ∧ d ≠ note_description n).

(** ** Sample rows *)

Definition alice : User := mkUser "alice" "alice@example.com" "Alice" USER true.
Definition bob : User := mkUser "bob" "bob@example.com" "Bob" USER true.
Definition carol : User := mkUser "carol" "carol@example.com" "Carol" USER true.

Definition note1 : Note := mkNote "n1" "T" "B" [] PRIVATE "alice".
Definition note1_v1 : NoteVersion := mkNoteVersion "n1" "T" "B" 1 "alice".

(** Three users, and one private note of alice with its first version. *)
Definition db1 : Db := mkDb [alice; bob; carol] [note1] [note1_v1] [] [].

(** The same three users and nothing else. *)
Definition db0 : Db := mkDb [alice; bob; carol] [] [] [] [].


(** ** Sharing *)

(** The [noteUser] table after [deleteMany] for the note and [createMany]
    for the requested users. *)
Definition with_grants (noteId : string) (userIds : list string) (db : Db) : Db :=
  set_tbl_noteUser (λ t, filter (λ s, nu_noteId s ≠ noteId) t ++ NotesService.share_rows noteId userIds) db.

(** The primary key of [user]: no two rows share an id. *)
Definition user_ids_unique (db : Db) : Prop := NoDup (user_id <$> tbl_user db).

(** Every requested id is the id of a user row. *)
Definition all_users_exist (userIds : list string) (db : Db) : Prop :=
  ∀ uid, uid ∈ userIds → uid ∈ user_id <$> tbl_user db.

(** The store [shareNote] leaves behind when it goes through. *)
Definition shared_db (id : string) (S : list string) (n : Note) (db : Db) : Db :=
  if decide (note_visibility n = PRIVATE)
  then with_note_update id NotesService.share_data (with_grants id S db)
  else with_grants id S db.

(** ** Presence *)

(** A token verifier for sample runs: the token is the user id it stands
    for, and every token verifies. *)
Definition sample_verify (token : string) : option string := Some token.

(** A handshake that carries [token] in [auth.token]. *)
Definition with_token (token : string) : WebSocketGateway.Handshake :=
  WebSocketGateway.mkHandshake (Some token) None.

(** The socket is open and carries the identity of [userId]. *)
Definition live_socket_of (g : WebSocketGateway.Gateway) (client userId : string) : Prop :=
  client ∈ WebSocketGateway.live g ∧ WebSocketGateway.socket_userId g !! client = Some userId.

(** ** Histories *)

(** The writes a client can ask for on existing notes: any note, any
    requester, whether or not the call goes through. *)
Inductive Op :=
| OpUpdate (id : string) (dto : UpdateNoteDto) (userId : string)
| OpRestore (id : string) (version : Z) (userId : string)
| OpShare (id : string) (userIds : list string) (userId : string).

Definition run_op (db : Db) (op : Op) : Db :=
  match op with
  | OpUpdate id dto u => (NotesService.update id dto u db).2
  | OpRestore id v u => (NotesService.restoreVersion id v u db).2
  | OpShare id userIds u => (NotesService.shareNote id userIds u db).2
  end.

Definition run_ops (db : Db) (ops : list Op) : Db := foldl run_op db ops.

(** The numbers 1, 2, ..., k. *)
Definition one_to (k : nat) : list Z := Z.of_nat <$> seq 1 k.

(** The store has not used the key yet: no note and no version row
    carries it. *)
Definition fresh_note_id (newId : string) (db : Db) : Prop :=
  (∀ n, n ∈ tbl_note db → note_id n ≠ newId)
  ∧ (∀ v, v ∈ tbl_noteVersion db → nv_noteId v ≠ newId).

(** The note row and the first version row that [create] inserts. *)
Definition created_note (newId : string) (dto : CreateNoteDto) (userId : string) : Note :=
  {| note_id := newId;
     note_title := c_title dto;
     note_description := c_description dto;
     note_tags := default [] (c_tags dto);
     note_visibility := default PRIVATE (c_visibility dto);
     note_authorId := userId |}.

Definition first_version (newId : string) (dto : CreateNoteDto) (userId : string) : NoteVersion :=
  {| nv_noteId := newId;
     nv_title := c_title dto;
     nv_description := c_description dto;
     nv_version := 1;
     nv_createdBy := userId |}.

(** ** Further vocabulary *)

(** The primary key of [note]: no two rows share an id. *)
Definition note_ids_unique (db : Db) : Prop := NoDup (note_id <$> tbl_note db).

(** The options of [advancedSearch] that carry the filters of a
    [findAll] query. *)
Definition options_of_query (q : QueryNotesDto) : NotesService.SearchOptions :=
  NotesService.mkSearchOptions
    (NotesService.Num <$> q_page q) (NotesService.Num <$> q_limit q) (q_tags q)
    (NotesService.visibility_name <$> q_visibility q)
    (q_authorId q) (q_sortBy q) (NotesService.sortOrder_name <$> q_sortOrder q).

(** For sample runs: a store that sorts by any field and returns the
    rows as they are stored. *)
Definition any_field (sortBy sortOrder : string) : bool := true.
Definition any_number (z : Z) : bool := true.
Definition table_order (sortBy sortOrder : string) (l : list Note) : list Note := l.

(** A query without optional filters. *)
Definition no_filters (q : QueryNotesDto) : Prop :=
  truthy_string (q_search q) = false
  ∧ (q_tags q = None ∨ q_tags q = Some [])
  ∧ q_visibility q = None
  ∧ truthy_string (q_authorId q) = false.

(** Two queries with the same filters (they may differ in page, limit
    and sorting). *)
Definition same_filters (q q' : QueryNotesDto) : Prop :=
  q_search q = q_search q' ∧ q_tags q = q_tags q'
  ∧ q_visibility q = q_visibility q' ∧ q_authorId q = q_authorId q'.

(** The latest version of a note is attached: the one row of the note
    with the largest number, or nothing for a note without versions. *)
Definition latest_version_attached (db : Db) (note : NoteWithRelations) : Prop :=
  match nr_versions note with
  | Some [] => versions_where_noteId (note_id (nr_note note)) db = []
  | Some [v] =>
      v ∈ tbl_noteVersion db
      ∧ nv_noteId v = note_id (nr_note note)
      ∧ ∀ w, w ∈ tbl_noteVersion db → nv_noteId w = note_id (nr_note note) →
             nv_version w ≤ nv_version v
  | _ => False
  end.

(** The tag and author filters of a query, and its visibility filter,
    said of one note. *)
Definition passes_tags (q : QueryNotesDto) (n : Note) : Prop :=
  match q_tags q with
  | Some (t :: ts) => ∃ tag, tag ∈ t :: ts ∧ tag ∈ note_tags n
  | _ => True
  end.
Definition passes_visibility (q : QueryNotesDto) (n : Note) : Prop :=
  ∀ v, q_visibility q = Some v → note_visibility n = v.
Definition passes_author (q : QueryNotesDto) (n : Note) : Prop :=
  truthy_string (q_authorId q) = true → Some (note_authorId n) = q_authorId q.

(** The number of unread notifications of a user. *)
Definition unread_count (userId : string) (db : Db) : nat :=
  length (filter (unread_of userId) (tbl_notification db)).

(** A public note of alice, next to her private one. *)
Definition note2 : Note := mkNote "n2" "Plan" "Agenda" ["work"] PUBLIC "alice".
Definition note2_v1 : NoteVersion := mkNoteVersion "n2" "Plan" "Agenda" 1 "alice".
Definition db2 : Db := mkDb [alice; bob; carol] [note1; note2] [note1_v1; note2_v1] [] [].

(** The store after [note.delete] for [id]. *)
Definition without_note (id : string) (db : Db) : Db :=
  {| tbl_user := tbl_user db;
     tbl_note := filter (λ n, note_id n ≠ id) (tbl_note db);
     tbl_noteVersion := filter (λ v, nv_noteId v ≠ id) (tbl_noteVersion db);
     tbl_noteUser := filter (λ s, nu_noteId s ≠ id) (tbl_noteUser db);
     tbl_notification := tbl_notification db |}.

(** The key and the author of a note row. *)
Definition note_key (n : Note) : string * string := (note_id n, note_authorId n).

(** An update that supplies only a visibility. *)
Definition only_visibility (v : Visibility) : UpdateNoteDto :=
  mkUpdateNoteDto None None None (Some v).

(** A note of alice shared with bob. *)
Definition note3 : Note := mkNote "n3" "Minutes" "Body" ["work"] SHARED "alice".
Definition note3_v1 : NoteVersion := mkNoteVersion "n3" "Minutes" "Body" 1 "alice".
Definition db3 : Db :=
  mkDb [alice; bob; carol] [note3] [note3_v1] [mkNoteUser "n3" "bob" VIEW] [].

(** Everything of a notification row but its read flag. *)
Definition ntf_content (n : Notification)
  : string * NotificationType * string * string * (string * string) :=
  (ntf_userId n, ntf_type n, ntf_title n, ntf_message n, ntf_data n).

(** The name a notification shows for a user id: the user's name, or
    "Someone" when there is no such user or the name is empty. *)
Definition display_name (userId : string) (db : Db) : string :=
  match head (filter (λ u, user_id u = userId) (tbl_user db)) with
  | Some user => if decide (user_name user = EmptyString) then "Someone" else user_name user
  | None => "Someone"
  end.

(** ** Presence, continued *)

(** A run in which every socket that opens has an id not seen before, as
    the transport's socket ids are, and no socket closes while its own
    handler is still waiting for the user lookup. *)
Fixpoint timely (verify : string → option string) (db : Db)
    (p : WebSocketGateway.Pending) (ts : list WebSocketGateway.Turn) : Prop :=
  match ts with
  | [] => True
  | t :: rest =>
      match t with
      | WebSocketGateway.Opened client _ =>
          WebSocketGateway.socket_userId (WebSocketGateway.gateway p) !! client = None
          ∧ WebSocketGateway.awaiting p !! client = None
      | WebSocketGateway.Answered _ => True
      | WebSocketGateway.Closed client => WebSocketGateway.awaiting p !! client = None
      end
      ∧ timely verify db (WebSocketGateway.turn verify db p t) rest
  end.

(** No user row has the empty id. *)
Definition user_ids_nonempty (db : Db) : Prop :=
  ∀ x, x ∈ tbl_user db → user_id x ≠ EmptyString.

(** Every entry of the registry names an open socket that carries the
    entry's user id. *)
Definition registry_sound (g : WebSocketGateway.Gateway) : Prop :=
  ∀ u s, WebSocketGateway.connectedUsers g !! u = Some s →
         s ∈ WebSocketGateway.live g ∧ WebSocketGateway.socket_userId g !! s = Some u.

(** What was sent to [client] under [event] since [before]. *)
Definition sent_since (before after : WebSocketGateway.Hub) : list WebSocketGateway.Emitted :=
  drop (length (WebSocketGateway.hub_emitted before)) (WebSocketGateway.hub_emitted after).

(** Sockets only ever carry non-empty user ids. *)
Definition carries_nonempty (g : WebSocketGateway.Gateway) : Prop :=
  ∀ s u, WebSocketGateway.socket_userId g !! s = Some u → u ≠ EmptyString.
(** * Properties *)

Section AccessControl.
Import NotesService.

Lemma some_share_iff db n u :
  existsb (λ s, bool_decide (nu_userId s = u)) (noteUsers_where_noteId (note_id n) db) = true
  ↔ grant_exists db n u.
Proof.
  unfold grant_exists, noteUsers_where_noteId.
  rewrite existsb_exists, Exists_exists. split.
  - intros (g & Hin & Hu). apply list_elem_of_In, list_elem_of_filter in Hin.
    destruct Hin as [Hid Hin]. apply bool_decide_eq_true in Hu. eauto.
  - intros (g & Hin & Hid & Hu). exists g. split.
    + apply list_elem_of_In, list_elem_of_filter. auto.
    + by apply bool_decide_eq_true.
Qed.

Lemma hasAccess_canRead db n u :
  hasAccess (include_relations db n) u = true ↔ canRead db n u.
Proof.
  unfold hasAccess, canRead. cbn [include_relations nr_note nr_noteUsers].
  rewrite !orb_true_iff, andb_true_iff, !bool_decide_eq_true, some_share_iff.
  intuition congruence.
Qed.

Lemma accessControl_canRead db n u :
  matches db (accessControl u) n = true ↔ canRead db n u.
Proof.
  unfold accessControl, canRead. cbn [matches existsb forallb].
  rewrite !orb_true_iff, !andb_true_iff, !bool_decide_eq_true, some_share_iff.
  intuition congruence.
Qed.

(** [findOne] spelled out: its three outcomes, none of which writes. *)
Lemma findOne_unfold id u db :
  findOne id u db =
  match note_where_id id db with
  | None => (Throw (NotFoundException "Note not found"), db)
  | Some n =>
      if decide (canRead db n u)
      then (Ok (include_relations db n), db)
      else (Throw (ForbiddenException "You do not have access to this note"), db)
  end.
Proof.
  unfold findOne, note_findUnique, bind, get_db, ret, throw.
  destruct (note_where_id id db) as [n|]; cbn; [|done].
  destruct (decide (canRead db n u)) as [Hc|Hc].
  - apply hasAccess_canRead in Hc. by rewrite Hc.
  - destruct (hasAccess (include_relations db n) u) eqn:Ha; [|done].
    apply hasAccess_canRead in Ha. done.
Qed.
End AccessControl.

(** C1. A requester may read a note exactly when they are its author, or
    the note is PUBLIC, or the note is SHARED and a grant row exists for
    them.  This is the check [findOne] applies to the note it loaded, and
    the access filter that [findAll] puts in front of its optional
    conditions; in every other case the check is false. *)
Theorem read_eligibility (db : Db) (n : Note) (u : string) (q : QueryNotesDto) :
  (NotesService.hasAccess (include_relations db n) u = true ↔ canRead db n u)
  ∧ (NotesService.hasAccess (include_relations db n) u = false ↔ ¬ canRead db n u)
  ∧ (matches db (NotesService.accessControl u) n = true ↔ canRead db n u)
  ∧ (matches db (NotesService.findAll_where q u) n = true
     ↔ canRead db n u ∧ matches db (W_AND (NotesService.findAll_filters q)) n = true).
Proof.
  split; [apply hasAccess_canRead|].
  split.
  { rewrite <- hasAccess_canRead. by destruct (NotesService.hasAccess _ _). }
  split; [apply accessControl_canRead|].
  unfold NotesService.findAll_where.
  change (matches db (W_AND (?a :: ?l)) n) with (matches db a n && matches db (W_AND l) n).
  by rewrite andb_true_iff, accessControl_canRead.
Qed.

(** C7. A single-note read fails with NotFound exactly when the id selects
    no note, and with Forbidden exactly when the note exists and the
    requester may not read it; neither failure touches the store. *)
Theorem findOne_NotFound_vs_Forbidden (id u : string) (db : Db) :
  ((NotesService.findOne id u db).1 = Throw (NotFoundException "Note not found")
   ↔ note_where_id id db = None)
  ∧ ((NotesService.findOne id u db).1
       = Throw (ForbiddenException "You do not have access to this note")
     ↔ ∃ n, note_where_id id db = Some n ∧ ¬ canRead db n u)
  ∧ (NotesService.findOne id u db).2 = db.
Proof.
  rewrite findOne_unfold.
  destruct (note_where_id id db) as [n|] eqn:Hn; [destruct (decide (canRead db n u))|]; cbn.
  - repeat split; try done. intros (m & Hm & Hc). congruence.
  - repeat split; try done. intros _. eauto.
  - repeat split; try done. intros (m & Hm & _). done.
Qed.

(** ** The latest version *)

#[local] Instance version_desc_trans : Transitive version_desc.
Proof. intros a b c. unfold version_desc. lia. Qed.
#[local] Instance version_desc_total : Total version_desc.
Proof. intros a b. unfold version_desc. lia. Qed.

Lemma foldr_max_bounds (v : Z) (vs : list Z) :
  (foldr Z.max v vs = v ∨ foldr Z.max v vs ∈ vs)
  ∧ v ≤ foldr Z.max v vs
  ∧ Forall (λ y, y ≤ foldr Z.max v vs) vs.
Proof.
  induction vs as [|w vs (Hin & Hv & Hall)]; cbn.
  - split; [by left|]. split; [lia|constructor].
  - split; [|split].
    + destruct (Z.max_spec w (foldr Z.max v vs)) as [[_ ->]|[_ ->]].
      * destruct Hin as [->|Hin]; [by left|]. right. by apply elem_of_cons; right.
      * right. apply elem_of_cons; by left.
    + lia.
    + constructor; [lia|]. eapply Forall_impl; [exact Hall|]. cbn. lia.
Qed.

Lemma max_version_unique (vs : list Z) (m : Z) :
  m ∈ vs → Forall (λ y, y ≤ m) vs → max_version vs = m.
Proof.
  destruct vs as [|v vs]; [by intros ?%elem_of_nil|].
  intros Hin Hall. cbn.
  destruct (foldr_max_bounds v vs) as (Hmax & Hv & Hle).
  assert (foldr Z.max v vs ≤ m).
  { rewrite Forall_forall in Hall. apply Hall.
    destruct Hmax as [->|?]; [apply elem_of_cons; by left|by apply elem_of_cons; right]. }
  assert (m ≤ foldr Z.max v vs).
  { apply elem_of_cons in Hin as [->|Hin]; [done|].
    rewrite Forall_forall in Hle. by apply Hle. }
  lia.
Qed.

Lemma js_or_Z_zero (a : Z) : js_or_Z a 0 = a.
Proof. unfold js_or_Z. by case_decide. Qed.

(** The row [findFirst] returns under [orderBy: { version: 'desc' }] carries
    the largest version of the note, so the next number is that plus one
    (and 1 for a note without versions). *)
Lemma next_version_max (noteId : string) (db : Db) :
  next_version (head (orderBy_version_desc (versions_where_noteId noteId db)))
  = max_version (version_numbers noteId db) + 1.
Proof.
  unfold next_version, version_numbers, orderBy_version_desc.
  rewrite js_or_Z_zero. f_equal.
  set (l := versions_where_noteId noteId db).
  pose proof (merge_sort_Permutation version_desc l) as Hperm.
  pose proof (StronglySorted_merge_sort version_desc l) as Hsort.
  destruct (merge_sort version_desc l) as [|x r]; cbn.
  - apply Permutation_nil_l in Hperm. by rewrite <- Hperm.
  - symmetry. apply max_version_unique.
    + apply list_elem_of_fmap. exists x. split; [done|].
      rewrite <- Hperm. apply elem_of_cons; by left.
    + apply Forall_fmap, Forall_forall. intros y Hy. cbn.
      rewrite <- Hperm in Hy. apply StronglySorted_inv in Hsort as [_ Hall].
      apply elem_of_cons in Hy as [->|Hy]; [lia|].
      rewrite Forall_forall in Hall. by apply Hall.
Qed.

(** ** Running the store primitives *)

Lemma note_where_id_after_update (id id' : string) (data : Note → Note) (db : Db) :
  keeps_id data →
  note_where_id id' (with_note_update id data db)
  = (λ m, if decide (note_id m = id) then data m else m) <$> note_where_id id' db.
Proof.
  intros Hk. unfold note_where_id, with_note_update, set_tbl_note. cbn.
  induction (tbl_note db) as [|m t IH]; [done|].
  rewrite fmap_cons, !filter_cons.
  assert (note_id (if decide (note_id m = id) then data m else m) = note_id m) as ->.
  { case_decide; [apply Hk|done]. }
  case_decide; [done|apply IH].
Qed.

Lemma note_update_run (id : string) (data : Note → Note) (db : Db) (n : Note) :
  keeps_id data →
  note_where_id id db = Some n →
  note_update id data db
  = (Ok (include_relations (with_note_update id data db) (data n)),
     with_note_update id data db).
Proof.
  intros Hk Hn. unfold note_update, bind, get_db. rewrite Hn. cbn.
  unfold note_findUniqueOrThrow, note_findUnique, bind, get_db, ret.
  fold (with_note_update id data db).
  rewrite note_where_id_after_update, Hn by done. cbn.
  assert (note_id n = id) as Hid.
  { unfold note_where_id in Hn. apply head_Some_elem_of, list_elem_of_filter in Hn. tauto. }
  by rewrite decide_True.
Qed.

Lemma note_where_id_key (id : string) (db : Db) (n : Note) :
  note_where_id id db = Some n → note_id n = id.
Proof.
  unfold note_where_id. intros Hn.
  apply head_Some_elem_of, list_elem_of_filter in Hn. tauto.
Qed.

Lemma update_data_keeps_id dto e : keeps_id (NotesService.update_data dto e).
Proof. by intros m. Qed.
Lemma share_data_keeps_id : keeps_id NotesService.share_data.
Proof. by intros m. Qed.
Lemma restore_data_keeps_id tv : keeps_id (NotesService.restore_data tv).
Proof. by intros m. Qed.

Lemma versions_after_note_update id id' data db :
  versions_where_noteId id' (with_note_update id data db) = versions_where_noteId id' db.
Proof. done. Qed.

(** ** Update *)

(** What [update] does when the requester is the author of the note. *)
Lemma update_run (id : string) (dto : UpdateNoteDto) (u : string) (db : Db) (n : Note) :
  note_where_id id db = Some n →
  note_authorId n = u →
  NotesService.update id dto u db =
  let db1 := with_note_update id (NotesService.update_data dto n) db in
  let n' := NotesService.update_data dto n n in
  (Ok (include_relations db1 n'),
   if NotesService.contentChanged dto n
   then with_version
          {| nv_noteId := id;
             nv_title := note_title n';
             nv_description := note_description n';
             nv_version := max_version (version_numbers id db) + 1;
             nv_createdBy := u |} db1
   else db1).
Proof.
  intros Hn Hu. unfold NotesService.update.
  unfold bind at 1. rewrite findOne_unfold, Hn.
  rewrite decide_True by (left; done).
  cbn [nr_note include_relations].
  rewrite bool_decide_eq_false_2 by (intros H; by apply H).
  unfold transaction, bind.
  rewrite (note_update_run id _ db n) by (apply update_data_keeps_id || done).
  destruct (NotesService.contentChanged dto n); cbn.
  - unfold noteVersion_findFirst_latest, noteVersion_create, bind, get_db, ret, modify_db. cbn.
    by rewrite <- (next_version_max id db).
  - done.
Qed.

Lemma contentChanged_differs (dto : UpdateNoteDto) (n : Note) :
  NotesService.contentChanged dto n = true ↔ content_differs dto n.
Proof.
  unfold NotesService.contentChanged, content_differs. rewrite orb_true_iff.
  split.
  - intros [Ht|Hd].
    + destruct (u_title dto) as [t|]; [|done].
      left. exists t. split; [done|]. by apply bool_decide_eq_true in Ht.
    + destruct (u_description dto) as [d|]; [|done].
      right. exists d. split; [done|]. by apply bool_decide_eq_true in Hd.
  - intros [(t & -> & Ht)|(d & -> & Hd)]; [left|right]; by apply bool_decide_eq_true.
Qed.

(** C2. An update by the author succeeds, sets the supplied fields on the
    live note, and appends one version row, numbered one above the note's
    largest existing version and carrying the post-update title and
    description, exactly when a supplied title or description differs from
    the stored one.  Otherwise (same title and body, or only tags and
    visibility supplied) the version table is left as it was. *)
Theorem update_versions (id : string) (dto : UpdateNoteDto) (u : string) (db : Db) (n : Note) :
  note_where_id id db = Some n →
  note_authorId n = u →
  let r := NotesService.update id dto u db in
  let title' := nullish (u_title dto) (note_title n) in
  let description' := nullish (u_description dto) (note_description n) in
  (∃ updated, r.1 = Ok updated
     ∧ note_where_id id r.2 = Some (nr_note updated)
     ∧ note_title (nr_note updated) = title'
     ∧ note_description (nr_note updated) = description')
  ∧ (content_differs dto n →
       tbl_noteVersion r.2
       = tbl_noteVersion db
         ++ [ {| nv_noteId := id; nv_title := title'; nv_description := description';
                 nv_version := max_version (version_numbers id db) + 1;
                 nv_createdBy := u |} ])
  ∧ (¬ content_differs dto n → tbl_noteVersion r.2 = tbl_noteVersion db)
  ∧ (u_title dto = Some (note_title n) → u_description dto = Some (note_description n) →
       tbl_noteVersion r.2 = tbl_noteVersion db)
  ∧ (u_title dto = None → u_description dto = None → tbl_noteVersion r.2 = tbl_noteVersion db).
Proof.
  intros Hn Hu r title' description'. subst r.
  rewrite (update_run id dto u db n Hn Hu). cbn zeta.
  assert (∀ row,
    note_where_id id
      (if NotesService.contentChanged dto n
       then with_version row (with_note_update id (NotesService.update_data dto n) db)
       else with_note_update id (NotesService.update_data dto n) db)
    = Some (NotesService.update_data dto n n)) as Hlive.
  { intros row.
    pose proof (note_where_id_after_update id id (NotesService.update_data dto n) db
                  (update_data_keeps_id dto n)) as Hw.
    rewrite Hn in Hw. cbn in Hw.
    rewrite decide_True in Hw by (by apply note_where_id_key in Hn).
    by destruct (NotesService.contentChanged dto n). }
  split; [|split; [|split; [|split]]].
  - eexists. cbn [fst snd]. split; [done|]. split; [apply Hlive|done].
  - intros Hd%contentChanged_differs. cbn [snd]. by rewrite Hd.
  - intros Hd. cbn [snd].
    destruct (NotesService.contentChanged dto n) eqn:Hc; [|done].
    by apply contentChanged_differs in Hc.
  - intros Ht Hdesc. cbn [snd].
    unfold NotesService.contentChanged. rewrite Ht, Hdesc.
    by rewrite !bool_decide_eq_false_2 by (intros H; by apply H).
  - intros Ht Hdesc. cbn [snd].
    unfold NotesService.contentChanged. by rewrite Ht, Hdesc.
Qed.

Lemma update_versions_witness :
  let dto := mkUpdateNoteDto None (Some "B2") None None in
  let r := NotesService.update "n1" dto "alice" db1 in
  tbl_noteVersion r.2 = [note1_v1; mkNoteVersion "n1" "T" "B2" 2 "alice"].
Proof.
  intros dto r.
  pose proof (update_versions "n1" dto "alice" db1 note1 eq_refl eq_refl) as (_ & H & _).
  apply H. right. exists "B2". by split.
Defined.

(** ** Restore *)

(** What [restoreVersion] does when the requester is the author. *)
Lemma restoreVersion_run (id : string) (v : Z) (u : string) (db : Db) (n : Note) :
  note_where_id id db = Some n →
  note_authorId n = u →
  NotesService.restoreVersion id v u db =
  if decide (int32 v) then
    match version_where id v db with
    | None => (Throw (NotFoundException "Version not found"), db)
    | Some tv =>
        let db1 := with_note_update id (NotesService.restore_data tv) db in
        (Ok (include_relations db1 (NotesService.restore_data tv n)),
         with_version
           {| nv_noteId := id;
              nv_title := nv_title tv;
              nv_description := nv_description tv;
              nv_version := max_version (version_numbers id db) + 1;
              nv_createdBy := u |} db1)
    end
  else (Throw PrismaInvalidArgument, db).
Proof.
  intros Hn Hu. unfold NotesService.restoreVersion.
  unfold bind at 1. rewrite findOne_unfold, Hn.
  rewrite decide_True by (left; done).
  cbn [nr_note include_relations].
  rewrite bool_decide_eq_false_2 by (intros H; by apply H).
  unfold noteVersion_findFirst. case_decide; [|done].
  unfold bind at 1, get_db, ret. cbn.
  destruct (version_where id v db) as [tv|]; [|done].
  unfold transaction, bind.
  rewrite (note_update_run id _ db n) by (apply restore_data_keeps_id || done).
  unfold noteVersion_findFirst_latest, noteVersion_create, bind, get_db, ret, modify_db. cbn.
  by rewrite <- (next_version_max id db).
Qed.







(** ** Share *)

(** [shareNote] spelled out: four ways to throw, none of which writes, and
    the one way through. *)
Lemma shareNote_unfold (id : string) (S : list string) (u : string) (db : Db) :
  NotesService.shareNote id S u db =
  match note_where_id id db with
  | None => (Throw (NotFoundException "Note not found"), db)
  | Some n =>
      if decide (canRead db n u) then
        if decide (note_authorId n = u) then
          if decide (length (filter (λ x, user_id x ∈ S) (tbl_user db)) = length S) then
            (Ok (include_noteUsers (shared_db id S n db) <$> note_where_id id (shared_db id S n db)),
             shared_db id S n db)
          else (Throw (BadRequestException "One or more users not found"), db)
        else (Throw (ForbiddenException "Only the author can share this note"), db)
      else (Throw (ForbiddenException "You do not have access to this note"), db)
  end.
Proof.
  unfold NotesService.shareNote. unfold bind at 1. rewrite findOne_unfold.
  destruct (note_where_id id db) as [n|] eqn:Hn; [|done].
  destruct (decide (canRead db n u)); [|done].
  cbn [nr_note include_relations].
  destruct (decide (note_authorId n = u)) as [Hu|Hu].
  2: { by rewrite bool_decide_eq_true_2. }
  rewrite bool_decide_eq_false_2 by (intros H; by apply H).
  unfold user_findMany_id_in, bind at 1, get_db, ret. cbn.
  destruct (decide (length (filter (λ x, user_id x ∈ S) (tbl_user db)) = length S)) as [Hl|Hl].
  2: { by rewrite bool_decide_eq_true_2. }
  rewrite bool_decide_eq_false_2 by (intros H; by apply H).
  assert (∀ d : Db,
    (if bool_decide (0 < length S)%nat
     then noteUser_createMany (NotesService.share_rows id S) else ret tt) d
    = (Ok tt, set_tbl_noteUser (λ t, t ++ NotesService.share_rows id S) d)) as Hcreate.
  { intros d. destruct S as [|s S']; cbn.
    - unfold ret, set_tbl_noteUser. rewrite app_nil_r. by destruct d.
    - done. }
  unfold transaction, bind, noteUser_deleteMany, modify_db. rewrite Hcreate.
  unfold shared_db.
  change (set_tbl_noteUser _ (set_tbl_noteUser _ db)) with (with_grants id S db).
  destruct (decide (note_visibility n = PRIVATE)) as [Hp|Hp].
  - rewrite bool_decide_eq_true_2 by done.
    rewrite (note_update_run id _ (with_grants id S db) n) by (apply share_data_keeps_id || done).
    done.
  - rewrite bool_decide_eq_false_2 by done. done.
Qed.

Lemma fmap_filter_user_id (S : list string) (users : list User) :
  user_id <$> filter (λ x, user_id x ∈ S) users = filter (λ i, i ∈ S) (user_id <$> users).
Proof.
  induction users as [|x users IH]; [done|].
  rewrite fmap_cons, !filter_cons. case_decide; [|done].
  by rewrite fmap_cons, IH.
Qed.

(** Under the primary key of [user], the length test of [shareNote] passes
    exactly for duplicate-free lists of existing user ids. *)
Lemma users_found_iff (S : list string) (db : Db) :
  user_ids_unique db →
  length (filter (λ x, user_id x ∈ S) (tbl_user db)) = length S
  ↔ NoDup S ∧ all_users_exist S db.
Proof.
  unfold user_ids_unique, all_users_exist. intros Hkey.
  rewrite <- (length_fmap user_id), fmap_filter_user_id.
  set (ids := user_id <$> tbl_user db) in *.
  assert (NoDup (filter (λ i, i ∈ S) ids)) as Hnd by by apply NoDup_filter.
  assert (∀ x, x ∈ filter (λ i, i ∈ S) ids → x ∈ S) as Hsub.
  { intros x Hx%list_elem_of_filter. tauto. }
  split.
  - intros Hlen.
    assert (filter (λ i, i ∈ S) ids ≡ₚ S) as Hperm.
    { apply submseteq_length_Permutation; [by apply NoDup_submseteq|lia]. }
    split; [by rewrite <- Hperm|].
    intros uid Huid. rewrite <- Hperm in Huid.
    apply list_elem_of_filter in Huid. tauto.
  - intros [HS Hall]. apply Permutation_length, NoDup_Permutation; [done..|].
    intros x. rewrite list_elem_of_filter. split; [tauto|]. intros Hx. split; [done|]. by apply Hall.
Qed.

Lemma share_rows_noteId (id : string) (S : list string) :
  filter (λ s, nu_noteId s = id) (NotesService.share_rows id S) = NotesService.share_rows id S
  ∧ filter (λ s, nu_noteId s ≠ id) (NotesService.share_rows id S) = [].
Proof.
  unfold NotesService.share_rows. induction S as [|s S [IH1 IH2]]; [done|].
  rewrite fmap_cons, !filter_cons. cbn.
  rewrite decide_True by done.
  rewrite decide_False by (intros H; by apply H).
  by rewrite IH1, IH2.
Qed.

Lemma share_rows_other (id id' : string) (S : list string) :
  id' ≠ id → filter (λ s, nu_noteId s = id') (NotesService.share_rows id S) = [].
Proof.
  intros Hne. unfold NotesService.share_rows. induction S as [|s S IH]; [done|].
  rewrite fmap_cons, filter_cons. cbn. by rewrite decide_False.
Qed.

Lemma filter_ne_eq_nil (id : string) (t : list NoteUser) :
  filter (λ s, nu_noteId s = id) (filter (λ s, nu_noteId s ≠ id) t) = [].
Proof.
  induction t as [|g t IH]; [done|].
  rewrite filter_cons. case_decide; [|done].
  rewrite filter_cons. by rewrite decide_False.
Qed.

Lemma filter_ne_other (id id' : string) (t : list NoteUser) :
  id' ≠ id →
  filter (λ s, nu_noteId s = id') (filter (λ s, nu_noteId s ≠ id) t)
  = filter (λ s, nu_noteId s = id') t.
Proof.
  intros Hne. induction t as [|g t IH]; [done|].
  rewrite !filter_cons. destruct (decide (nu_noteId g = id')) as [He|He].
  - rewrite decide_True by congruence. rewrite filter_cons, decide_True by done. by rewrite IH.
  - case_decide; [|done]. by rewrite filter_cons, decide_False.
Qed.

Lemma filter_ne_idemp (id : string) (t : list NoteUser) :
  filter (λ s, nu_noteId s ≠ id) (filter (λ s, nu_noteId s ≠ id) t)
  = filter (λ s, nu_noteId s ≠ id) t.
Proof.
  induction t as [|g t IH]; [done|].
  rewrite filter_cons. case_decide; [|done].
  rewrite filter_cons, decide_True by done. by rewrite IH.
Qed.

(** The grants of the note after the two writes are the requested rows;
    the grants of every other note are as before. *)
Lemma grants_after_share (id : string) (S : list string) (db : Db) :
  noteUsers_where_noteId id (with_grants id S db) = NotesService.share_rows id S.
Proof.
  unfold noteUsers_where_noteId, with_grants, set_tbl_noteUser. cbn.
  rewrite filter_app, filter_ne_eq_nil. by destruct (share_rows_noteId id S) as [-> _].
Qed.

Lemma other_grants_after_share (id id' : string) (S : list string) (db : Db) :
  id' ≠ id →
  noteUsers_where_noteId id' (with_grants id S db) = noteUsers_where_noteId id' db.
Proof.
  intros Hne. unfold noteUsers_where_noteId, with_grants, set_tbl_noteUser. cbn.
  by rewrite filter_app, filter_ne_other, share_rows_other, app_nil_r.
Qed.

Lemma with_grants_twice (id : string) (S1 S2 : list string) (db : Db) :
  with_grants id S2 (with_grants id S1 db) = with_grants id S2 db.
Proof.
  unfold with_grants, set_tbl_noteUser. cbn. f_equal.
  rewrite filter_app, filter_ne_idemp.
  destruct (share_rows_noteId id S1) as [_ ->]. by rewrite app_nil_r.
Qed.

Lemma shared_db_noteUser (id : string) (S : list string) (n : Note) (db : Db) :
  tbl_noteUser (shared_db id S n db) = tbl_noteUser (with_grants id S db).
Proof. unfold shared_db. by case_decide. Qed.

Lemma with_grants_note_update (id : string) (S : list string) (data : Note → Note) (db : Db) :
  with_grants id S (with_note_update id data db) = with_note_update id data (with_grants id S db).
Proof. done. Qed.

Lemma note_where_id_with_grants (id id' : string) (S : list string) (db : Db) :
  note_where_id id' (with_grants id S db) = note_where_id id' db.
Proof. done. Qed.

Lemma note_where_id_shared_db (id : string) (S : list string) (n : Note) (db : Db) :
  note_where_id id db = Some n →
  note_where_id id (shared_db id S n db)
  = Some (if decide (note_visibility n = PRIVATE) then NotesService.share_data n else n).
Proof.
  intros Hn. unfold shared_db. case_decide; [|done].
  rewrite note_where_id_after_update by apply share_data_keeps_id.
  rewrite note_where_id_with_grants, Hn. cbn.
  by rewrite decide_True by (by apply note_where_id_key in Hn).
Qed.

(** Sharing with one list and then with a list that passes validation
    leaves the store, and returns the result, of sharing with the second
    list alone. *)
Lemma shareNote_twice (id : string) (S1 S2 : list string) (u : string) (db : Db) :
  length (filter (λ x, user_id x ∈ S2) (tbl_user db)) = length S2 →
  NotesService.shareNote id S2 u (NotesService.shareNote id S1 u db).2
  = NotesService.shareNote id S2 u db.
Proof.
  intros H2. rewrite (shareNote_unfold id S1 u db).
  destruct (note_where_id id db) as [n|] eqn:Hn; [|done].
  destruct (decide (canRead db n u)) as [Hc|]; [|done].
  destruct (decide (note_authorId n = u)) as [Hu|]; [|done].
  destruct (decide (length (filter (λ x, user_id x ∈ S1) (tbl_user db)) = length S1)); [|done].
  cbn [snd]. rewrite !shareNote_unfold.
  rewrite (note_where_id_shared_db id S1 n db Hn), Hn.
  assert (tbl_user (shared_db id S1 n db) = tbl_user db) as ->.
  { unfold shared_db. by case_decide. }
  destruct (decide (canRead db n u)); [|done].
  destruct (decide (length (filter (λ x, user_id x ∈ S2) (tbl_user db)) = length S2)); [|done].
  destruct (decide (note_visibility n = PRIVATE)) as [Hp|Hp].
  - rewrite decide_True by (left; by rewrite <- Hu).
    cbn [NotesService.share_data note_authorId].
    destruct (decide (note_authorId n = u)); [|done].
    assert (shared_db id S2 (NotesService.share_data n) (shared_db id S1 n db)
            = shared_db id S2 n db) as ->; [|done].
    unfold shared_db. cbn [NotesService.share_data note_visibility].
    rewrite decide_False by done. rewrite !decide_True by done.
    by rewrite with_grants_note_update, with_grants_twice.
  - rewrite decide_True by (left; by rewrite <- Hu).
    destruct (decide (note_authorId n = u)); [|done].
    assert (shared_db id S2 n (shared_db id S1 n db) = shared_db id S2 n db) as ->; [|done].
    unfold shared_db. rewrite !decide_False by done. apply with_grants_twice.
Qed.

Lemma share_rows_count (id uid : string) (S : list string) :
  NoDup S →
  length (filter (λ g, nu_userId g = uid) (NotesService.share_rows id S))
  = if decide (uid ∈ S) then 1%nat else 0%nat.
Proof.
  unfold NotesService.share_rows.
  induction 1 as [|s S Hs HS IH]; [done|].
  rewrite fmap_cons, filter_cons. cbn [nu_userId].
  destruct (decide (s = uid)) as [->|Hne].
  - cbn [length]. rewrite IH, decide_False by done.
    rewrite decide_True; [done|]. apply elem_of_cons. by left.
  - rewrite IH. destruct (decide (uid ∈ S)) as [Hin|Hin].
    + rewrite decide_True; [done|]. apply elem_of_cons. by right.
    + rewrite decide_False; [done|]. rewrite elem_of_cons. intros [?|?]; congruence.
Qed.

(** A share that goes through was asked by the author of an existing note
    and passed the length test. *)
Lemma shareNote_Ok_inv (id : string) (S : list string) (u : string) (db : Db)
    (result : option NoteWithRelations) :
  (NotesService.shareNote id S u db).1 = Ok result →
  ∃ n, note_where_id id db = Some n
       ∧ note_authorId n = u
       ∧ length (filter (λ x, user_id x ∈ S) (tbl_user db)) = length S
       ∧ (NotesService.shareNote id S u db).2 = shared_db id S n db.
Proof.
  rewrite shareNote_unfold.
  destruct (note_where_id id db) as [n|] eqn:Hn; [|done].
  destruct (decide (canRead db n u)); [|done].
  destruct (decide (note_authorId n = u)); [|done].
  destruct (decide (length (filter (λ x, user_id x ∈ S) (tbl_user db)) = length S)); [|done].
  intros _. by exists n.
Qed.

(** C5. When a share goes through (user ids being the primary key of the
    user table), the requested list is duplicate-free and names existing
    users, and afterwards the grant rows of the note are exactly one VIEW
    row per requested user, in the requested order: every user in the list
    has one row, every other user none.  Grants of other notes are not
    touched.  Sharing first with any other list and then with this one
    gives the same store and result as sharing with this one alone. *)
Theorem share_replaces_grants (id : string) (S : list string) (u : string) (db : Db)
    (result : option NoteWithRelations) :
  user_ids_unique db →
  (NotesService.shareNote id S u db).1 = Ok result →
  let db' := (NotesService.shareNote id S u db).2 in
  NoDup S ∧ all_users_exist S db
  ∧ noteUsers_where_noteId id db'
    = (λ uid, {| nu_noteId := id; nu_userId := uid; nu_permission := VIEW |}) <$> S
  ∧ (∀ uid, length (filter (λ g, nu_userId g = uid) (noteUsers_where_noteId id db'))
            = if decide (uid ∈ S) then 1%nat else 0%nat)
  ∧ (∀ id', id' ≠ id → noteUsers_where_noteId id' db' = noteUsers_where_noteId id' db)
  ∧ (∀ S0, NotesService.shareNote id S u (NotesService.shareNote id S0 u db).2
           = NotesService.shareNote id S u db).
Proof.
  intros Hkey Hok db'. subst db'.
  destruct (shareNote_Ok_inv _ _ _ _ _ Hok) as (n & Hn & Hu & Hfound & ->).
  destruct (proj1 (users_found_iff S db Hkey) Hfound) as [HS Hall].
  assert (∀ id', noteUsers_where_noteId id' (shared_db id S n db)
                 = noteUsers_where_noteId id' (with_grants id S db)) as Hnu.
  { intros id'. unfold noteUsers_where_noteId. by rewrite shared_db_noteUser. }
  repeat split; try done.
  - by rewrite Hnu, grants_after_share.
  - intros uid. rewrite Hnu, grants_after_share. by apply share_rows_count.
  - intros id' Hne. rewrite Hnu. by apply other_grants_after_share.
  - intros S0. by apply shareNote_twice.
Qed.

Lemma share_replaces_grants_witness :
  noteUsers_where_noteId "n1" (NotesService.shareNote "n1" ["bob"; "carol"] "alice" db1).2
  = [mkNoteUser "n1" "bob" VIEW; mkNoteUser "n1" "carol" VIEW].
Proof.
  assert (user_ids_unique db1) as Hkey.
  { unfold user_ids_unique. apply (bool_decide_unpack _). vm_compute. exact I. }
  destruct (share_replaces_grants "n1" ["bob"; "carol"] "alice" db1 _ Hkey eq_refl)
    as (_ & _ & H & _).
  exact H.
Defined.

(** A list that names an existing user twice does not pass the length
    test: the query returns that user once. *)
Lemma shareNote_duplicate_ids_rejected :
  NotesService.shareNote "n1" ["bob"; "bob"] "alice" db1
  = (Throw (BadRequestException "One or more users not found"), db1).
Proof. reflexivity. Qed.

(** C10. A share by the author with the empty list goes through: it
    removes every grant row of the note and adds none, and a PRIVATE note
    becomes SHARED.  Sharing with the empty list again changes nothing, so
    the note stays SHARED with no grant. *)
Theorem share_empty_list (id u : string) (db : Db) (n : Note) :
  note_where_id id db = Some n →
  note_authorId n = u →
  let r := NotesService.shareNote id [] u db in
  (∃ result, r.1 = Ok result)
  ∧ tbl_noteUser r.2 = filter (λ s, nu_noteId s ≠ id) (tbl_noteUser db)
  ∧ noteUsers_where_noteId id r.2 = []
  ∧ note_visibility <$> note_where_id id r.2
    = Some (if decide (note_visibility n = PRIVATE) then SHARED else note_visibility n)
  ∧ NotesService.shareNote id [] u r.2 = r.
Proof.
  intros Hn Hu r.
  assert (length (filter (λ x, user_id x ∈ []) (tbl_user db)) = length (@nil string)) as Hlen.
  { cbn. apply length_zero_iff_nil.
    induction (tbl_user db) as [|x t IH]; [done|].
    rewrite filter_cons, decide_False; [done|]. apply not_elem_of_nil. }
  assert (r = (Ok (include_noteUsers (shared_db id [] n db)
                     <$> note_where_id id (shared_db id [] n db)),
               shared_db id [] n db)) as Hr.
  { subst r. rewrite shareNote_unfold, Hn.
    rewrite (decide_True (P := canRead db n u)) by (by left).
    by rewrite !decide_True. }
  split; [rewrite Hr; by eexists|].
  split.
  { rewrite Hr. cbn [snd]. rewrite shared_db_noteUser. cbn. apply app_nil_r. }
  split.
  { rewrite Hr. cbn [snd]. unfold noteUsers_where_noteId.
    rewrite shared_db_noteUser. apply (grants_after_share id [] db). }
  split.
  { rewrite Hr. cbn [snd]. rewrite (note_where_id_shared_db id [] n db Hn).
    cbn. by case_decide. }
  subst r. by apply shareNote_twice.
Qed.

Lemma share_empty_list_witness :
  let r := NotesService.shareNote "n1" [] "alice" db1 in
  note_visibility <$> note_where_id "n1" r.2 = Some SHARED
  ∧ noteUsers_where_noteId "n1" r.2 = [].
Proof.
  destruct (share_empty_list "n1" "alice" db1 note1 eq_refl eq_refl) as (_ & _ & H0 & Hv & _).
  split; [exact Hv|exact H0].
Defined.

(** ** Share and notifications *)

(** [shareNote] never writes to the notification table. *)
Lemma shareNote_notifications_untouched (id : string) (S : list string) (u : string) (db : Db) :
  tbl_notification (NotesService.shareNote id S u db).2 = tbl_notification db.
Proof.
  rewrite shareNote_unfold.
  destruct (note_where_id id db) as [n|]; [|done].
  repeat (case_decide; [|done]).
  cbn [snd]. unfold shared_db. by case_decide.
Qed.

(** The helper of the notification service, for comparison: it adds one
    NOTE_SHARED row for the user it is given. *)
Lemma createNoteSharedNotification_adds_row (noteId noteTitle target sharer : string) (db : Db) :
  ∃ row, tbl_notification
           (NotificationsService.createNoteSharedNotification noteId noteTitle target sharer db).2
         = tbl_notification db ++ [row]
         ∧ ntf_userId row = target ∧ ntf_type row = NOTE_SHARED ∧ ntf_read row = false.
Proof. eexists. split; [reflexivity|done]. Qed.

(** C6, at a concrete share: alice shares her note with bob.  The share
    goes through and bob gets his grant row, yet the notification table is
    still empty; the helper that would have written bob's NOTE_SHARED row
    is not called by [shareNote]. *)
Theorem shareNote_creates_no_notification :
  let r := NotesService.shareNote "n1" ["bob"] "alice" db1 in
  (∃ result, r.1 = Ok result)
  ∧ noteUsers_where_noteId "n1" r.2 = [mkNoteUser "n1" "bob" VIEW]
  ∧ tbl_notification r.2 = []
  ∧ (λ row, (ntf_userId row, ntf_type row))
      <$> tbl_notification
            (NotificationsService.createNoteSharedNotification "n1" "T" "bob" "alice" r.2).2
    = [("bob", NOTE_SHARED)].
Proof.
  cbn zeta. split; [by eexists|]. by vm_compute.
Qed.

(** ** Share and the author *)

(** The list of candidates for sharing never contains the requester. *)
Lemma getUsersToShareNote_excludes_requester (userId : string) (name : option string)
    (db : Db) (users : list User) :
  (NotesService.getUsersToShareNote userId name db).1 = Ok users →
  ∀ x, x ∈ users → user_id x ≠ userId.
Proof.
  unfold NotesService.getUsersToShareNote, bind, get_db, ret. cbn.
  intros [= <-] x Hx%list_elem_of_filter. destruct Hx as [Hx _].
  apply andb_true_iff in Hx as [Hx _]. apply andb_true_iff in Hx as [_ Hx].
  by apply bool_decide_eq_true in Hx.
Qed.

(** [shareNote] has no such exclusion: whenever a share goes through with
    the author's own id in the list, the author holds a grant row. *)
Lemma shareNote_grants_author (id : string) (S : list string) (u : string) (db : Db)
    (result : option NoteWithRelations) :
  (NotesService.shareNote id S u db).1 = Ok result →
  u ∈ S →
  mkNoteUser id u VIEW ∈ noteUsers_where_noteId id (NotesService.shareNote id S u db).2.
Proof.
  intros Hok Hin.
  destruct (shareNote_Ok_inv _ _ _ _ _ Hok) as (n & Hn & Hu & Hfound & ->).
  unfold noteUsers_where_noteId. rewrite shared_db_noteUser.
  fold (noteUsers_where_noteId id (with_grants id S db)).
  rewrite grants_after_share. unfold NotesService.share_rows.
  apply list_elem_of_fmap. by exists u.
Qed.

(** C8, at a concrete share: alice shares her own note with the list
    [alice; bob].  The share goes through and the grant table then holds a
    row whose user is the note's author. *)
Theorem shareNote_author_in_list :
  let r := NotesService.shareNote "n1" ["alice"; "bob"] "alice" db1 in
  (∃ result, r.1 = Ok result)
  ∧ note_authorId <$> note_where_id "n1" r.2 = Some "alice"
  ∧ noteUsers_where_noteId "n1" r.2
    = [mkNoteUser "n1" "alice" VIEW; mkNoteUser "n1" "bob" VIEW].
Proof.
  cbn zeta. split; [by eexists|]. by vm_compute.
Qed.

(** ** Presence registry *)

Section Presence.
Import WebSocketGateway.
Variable verify : string → option string.

(** A connection that authenticates puts the user under the new socket,
    whatever was registered before. *)
Lemma handleConnection_registers (db : Db) (g : Gateway) (client token sub : string)
    (h : Handshake) (user : User) :
  handshake_token h = Some token →
  token ≠ EmptyString →
  verify token = Some sub →
  head (filter (λ x, user_id x = sub) (tbl_user db)) = Some user →
  connectedUsers (handleConnection verify db g client h) !! user_id user = Some client
  ∧ socket_userId (handleConnection verify db g client h) !! client = Some (user_id user).
Proof.
  intros Ht Hne Hv Hu. unfold handleConnection. rewrite Ht. cbn [truthy_string].
  rewrite bool_decide_eq_true_2 by done. cbn [negb].
  change (default EmptyString (Some token)) with token.
  rewrite Hv, Hu. cbn. by rewrite !lookup_insert_eq.
Qed.

(** A connection that does not authenticate registers nobody. *)
Lemma handleConnection_rejects (db : Db) (g : Gateway) (client : string) (h : Handshake) :
  socket_userId g !! client = None →
  (truthy_string (handshake_token h) = false
   ∨ verify (default EmptyString (handshake_token h)) = None) →
  connectedUsers (handleConnection verify db g client h) = connectedUsers g.
Proof.
  intros Hfresh Hbad. unfold handleConnection, client_disconnect, handleDisconnect.
  cbn [socket_userId]. rewrite Hfresh. cbn [truthy_string].
  destruct Hbad as [->| ->]; cbn [negb]; [done|]. by destruct (truthy_string _).
Qed.

(** A disconnect of a socket that carries a user id removes that user's
    entry, whichever socket the entry names. *)
Lemma handleDisconnect_removes (g : Gateway) (client userId : string) :
  socket_userId g !! client = Some userId →
  userId ≠ EmptyString →
  connectedUsers (handleDisconnect g client) !! userId = None.
Proof.
  intros Hs Hne. unfold handleDisconnect. rewrite Hs. cbn [truthy_string].
  rewrite bool_decide_eq_true_2 by done. cbn. apply lookup_delete_eq.
Qed.

(** Entries of other users survive a disconnect. *)
Lemma handleDisconnect_others (g : Gateway) (client userId other : string) :
  socket_userId g !! client = Some userId →
  other ≠ userId →
  connectedUsers (handleDisconnect g client) !! other = connectedUsers g !! other.
Proof.
  intros Hs Hne. unfold handleDisconnect. rewrite Hs. cbn [truthy_string].
  case_bool_decide; [|done]. cbn. by apply lookup_delete_ne.
Qed.
End Presence.

(** C9, at a concrete run: alice opens socket s1, then socket s2, then s1
    closes.  After the second connect she is registered under s2.  After
    s1 closes, s2 is still open and still carries her identity, but the
    registry has no entry for her and reports her offline. *)
Theorem stale_disconnect_unregisters_live_user :
  let connects := [WebSocketGateway.Connect "s1" (with_token "alice");
                   WebSocketGateway.Connect "s2" (with_token "alice")] in
  let g2 := WebSocketGateway.run sample_verify db1 WebSocketGateway.empty_gateway connects in
  let g3 := WebSocketGateway.step sample_verify db1 g2 (WebSocketGateway.Disconnect "s1") in
  WebSocketGateway.connectedUsers g2 !! "alice" = Some "s2"
  ∧ live_socket_of g3 "s2" "alice"
  ∧ WebSocketGateway.connectedUsers g3 !! "alice" = None
  ∧ WebSocketGateway.isUserOnline g3 "alice" = false
  ∧ WebSocketGateway.getConnectedUsersCount g3 = 0%nat.
Proof.
  cbn zeta. unfold live_socket_of.
  split; [by vm_compute|].
  split; [split; [|by vm_compute]|].
  - apply (bool_decide_unpack _). by vm_compute.
  - split; [by vm_compute|]. split; by vm_compute.
Qed.

(** ** Version histories *)

Lemma create_run (newId : string) (dto : CreateNoteDto) (u : string) (db : Db) :
  (NotesService.create newId dto u db).2
  = with_version (first_version newId dto u)
      (set_tbl_note (λ t, t ++ [created_note newId dto u]) db)
  ∧ ∃ full, (NotesService.create newId dto u db).1 = Ok full.
Proof.
  unfold NotesService.create, transaction, bind, note_create, noteVersion_create,
    modify_db, ret, note_findUniqueOrThrow, note_findUnique, bind, get_db, ret,
    note_where_id.
  cbn.
  match goal with |- context [head ?l] => destruct (head l) as [m|] eqn:Hm end.
  - cbn. split; [done|by eexists].
  - exfalso. apply head_None in Hm. revert Hm.
    rewrite filter_app, filter_cons, decide_True by done.
    by destruct (filter _ (tbl_note db)).
Qed.

Lemma update_not_author (id : string) (dto : UpdateNoteDto) (u : string) (db : Db) :
  (∀ n, note_where_id id db = Some n → note_authorId n ≠ u) →
  (NotesService.update id dto u db).2 = db.
Proof.
  intros Hno. unfold NotesService.update. unfold bind at 1. rewrite findOne_unfold.
  destruct (note_where_id id db) as [n|] eqn:Hn; [|done].
  destruct (decide (canRead db n u)); [|done].
  cbn [nr_note include_relations].
  by rewrite bool_decide_eq_true_2 by (by apply Hno).
Qed.

Lemma restoreVersion_not_author (id : string) (v : Z) (u : string) (db : Db) :
  (∀ n, note_where_id id db = Some n → note_authorId n ≠ u) →
  (NotesService.restoreVersion id v u db).2 = db.
Proof.
  intros Hno. unfold NotesService.restoreVersion. unfold bind at 1. rewrite findOne_unfold.
  destruct (note_where_id id db) as [n|] eqn:Hn; [|done].
  destruct (decide (canRead db n u)); [|done].
  cbn [nr_note include_relations].
  by rewrite bool_decide_eq_true_2 by (by apply Hno).
Qed.

Lemma shareNote_versions_untouched (id : string) (S : list string) (u : string) (db : Db) :
  tbl_noteVersion (NotesService.shareNote id S u db).2 = tbl_noteVersion db.
Proof.
  rewrite shareNote_unfold.
  destruct (note_where_id id db) as [n|]; [|done].
  repeat (case_decide; [|done]).
  cbn [snd]. unfold shared_db. by case_decide.
Qed.

(** Every write either leaves the version table alone or puts one row at
    its end, numbered one above the largest version of that row's note. *)
Lemma run_op_versions (db : Db) (op : Op) :
  tbl_noteVersion (run_op db op) = tbl_noteVersion db
  ∨ ∃ row, tbl_noteVersion (run_op db op) = tbl_noteVersion db ++ [row]
           ∧ nv_version row = max_version (version_numbers (nv_noteId row) db) + 1.
Proof.
  destruct op as [id dto u|id v u|id userIds u]; cbn [run_op].
  - destruct (note_where_id id db) as [n|] eqn:Hn.
    2: { left. by rewrite update_not_author by (intros ?; by rewrite Hn). }
    destruct (decide (note_authorId n = u)) as [Hu|Hu].
    2: { left. rewrite update_not_author; [done|]. intros ?. rewrite Hn. by intros [= <-]. }
    rewrite (update_run id dto u db n Hn Hu). cbn zeta. cbn [snd].
    destruct (NotesService.contentChanged dto n); [right|by left].
    by eexists.
  - destruct (note_where_id id db) as [n|] eqn:Hn.
    2: { left. by rewrite restoreVersion_not_author by (intros ?; by rewrite Hn). }
    destruct (decide (note_authorId n = u)) as [Hu|Hu].
    2: { left. rewrite restoreVersion_not_author; [done|]. intros ?. rewrite Hn. by intros [= <-]. }
    rewrite (restoreVersion_run id v u db n Hn Hu).
    case_decide; [|by left].
    destruct (version_where id v db) as [tv|]; [right|by left].
    by eexists.
  - left. apply shareNote_versions_untouched.
Qed.

Lemma one_to_S (k : nat) : one_to (S k) = one_to k ++ [Z.of_nat (S k)].
Proof. unfold one_to. by rewrite seq_S, fmap_app. Qed.

Lemma max_version_one_to (k : nat) : max_version (one_to k) = Z.of_nat k.
Proof.
  destruct k as [|k]; [done|].
  apply max_version_unique.
  - rewrite one_to_S, elem_of_app. right. apply elem_of_cons. by left.
  - apply Forall_fmap, Forall_forall. intros x Hx%list_elem_of_In%in_seq. cbn. lia.
Qed.

Lemma versions_with_version (id : string) (row : NoteVersion) (db : Db) :
  versions_where_noteId id (with_version row db)
  = versions_where_noteId id db ++ (if decide (nv_noteId row = id) then [row] else []).
Proof.
  unfold versions_where_noteId, with_version, set_tbl_noteVersion. cbn.
  rewrite filter_app, filter_cons. by case_decide.
Qed.

(** One write keeps a note's numbers of the form 1..k and keeps its
    earlier rows where they were. *)
Lemma run_op_numbered (id : string) (db : Db) (op : Op) (k : nat) :
  version_numbers id db = one_to k →
  ∃ k' later, version_numbers id (run_op db op) = one_to k'
              ∧ (k ≤ k')%nat
              ∧ versions_where_noteId id (run_op db op) = versions_where_noteId id db ++ later.
Proof.
  intros Hk. unfold version_numbers, versions_where_noteId in *.
  destruct (run_op_versions db op) as [->|(row & -> & Hrow)].
  - exists k, []. by rewrite app_nil_r.
  - rewrite filter_app, filter_cons, filter_nil.
    destruct (decide (nv_noteId row = id)) as [Hid|Hid].
    + exists (S k), [row]. split; [|split; [lia|done]].
      rewrite fmap_app, Hk, one_to_S. cbn. do 2 f_equal.
      rewrite Hrow, Hid. unfold version_numbers, versions_where_noteId.
      rewrite Hk, max_version_one_to. lia.
    + exists k, []. by rewrite app_nil_r.
Qed.

Lemma run_ops_numbered (id : string) (ops : list Op) (db : Db) (k : nat) :
  version_numbers id db = one_to k →
  ∃ k' later, version_numbers id (run_ops db ops) = one_to k'
              ∧ (k ≤ k')%nat
              ∧ versions_where_noteId id (run_ops db ops) = versions_where_noteId id db ++ later.
Proof.
  revert db k. induction ops as [|op ops IH]; intros db k Hk.
  - exists k, []. by rewrite app_nil_r.
  - destruct (run_op_numbered id db op k Hk) as (k1 & later1 & Hk1 & Hle1 & Hrows1).
    destruct (IH (run_op db op) k1 Hk1) as (k2 & later2 & Hk2 & Hle2 & Hrows2).
    exists k2, (later1 ++ later2). split; [done|]. split; [lia|].
    cbn [run_ops foldl] in *. unfold run_ops in Hrows2. by rewrite Hrows2, Hrows1, app_assoc.
Qed.

Lemma fresh_no_note (newId : string) (db : Db) :
  fresh_note_id newId db → filter (λ n, note_id n = newId) (tbl_note db) = [].
Proof.
  intros [Hn _]. induction (tbl_note db) as [|m t IH]; [done|].
  rewrite filter_cons, decide_False.
  - apply IH. intros n Hin. apply Hn. apply elem_of_cons. by right.
  - apply Hn. apply elem_of_cons. by left.
Qed.

Lemma fresh_no_version (newId : string) (db : Db) (P : NoteVersion → Prop)
    `{∀ v, Decision (P v)} :
  fresh_note_id newId db →
  (∀ v, P v → nv_noteId v = newId) →
  filter P (tbl_noteVersion db) = [].
Proof.
  intros [_ Hv] HP. induction (tbl_noteVersion db) as [|m t IH]; [done|].
  rewrite filter_cons, decide_False.
  - apply IH. intros v Hin. apply Hv. apply elem_of_cons. by right.
  - intros Hm%HP. revert Hm. apply Hv. apply elem_of_cons. by left.
Qed.

Lemma created_state (newId : string) (dto : CreateNoteDto) (u : string) (db : Db) :
  fresh_note_id newId db →
  let created := (NotesService.create newId dto u db).2 in
  note_where_id newId created = Some (created_note newId dto u)
  ∧ tbl_noteVersion created = tbl_noteVersion db ++ [first_version newId dto u]
  ∧ versions_where_noteId newId created = [first_version newId dto u].
Proof.
  intros Hfresh created. subst created.
  destruct (create_run newId dto u db) as [-> _].
  split; [|split; [done|]].
  - unfold note_where_id. cbn.
    by rewrite filter_app, fresh_no_note, filter_cons, decide_True.
  - rewrite versions_with_version, decide_True by done.
    unfold versions_where_noteId. cbn.
    by rewrite (fresh_no_version newId db) by done.
Qed.

(** C4. A note made by [create] under a key the store has not used starts
    with the single version 1.  After any sequence of updates, restores
    and shares, by anyone on any notes, its version numbers in insertion
    order are exactly 1, 2, ..., n with n at least 1, and the rows it had
    are still there, unchanged and in place.  In particular a content
    update followed by a restore of version 1 leaves exactly the versions
    1, 2, 3: the first as created, the second with the updated content,
    the third with the content of the first; and the live note has the
    created title and description again. *)
Theorem version_numbers_contiguous (newId : string) (cdto : CreateNoteDto) (author : string)
    (db : Db) (ops : list Op) (udto : UpdateNoteDto) :
  fresh_note_id newId db →
  let created := (NotesService.create newId cdto author db).2 in
  let final := run_ops created ops in
  let v1 := first_version newId cdto author in
  let v2 := {| nv_noteId := newId;
               nv_title := nullish (u_title udto) (c_title cdto);
               nv_description := nullish (u_description udto) (c_description cdto);
               nv_version := 2;
               nv_createdBy := author |} in
  let v3 := {| nv_noteId := newId;
               nv_title := c_title cdto;
               nv_description := c_description cdto;
               nv_version := 3;
               nv_createdBy := author |} in
  let updated := (NotesService.update newId udto author created).2 in
  let restored := (NotesService.restoreVersion newId 1 author updated).2 in
  versions_where_noteId newId created = [v1]
  ∧ (∃ k later, version_numbers newId final = one_to (S k)
                ∧ versions_where_noteId newId final = v1 :: later)
  ∧ (content_differs udto (created_note newId cdto author) →
       versions_where_noteId newId updated = [v1; v2]
       ∧ versions_where_noteId newId restored = [v1; v2; v3]
       ∧ note_title <$> note_where_id newId restored = Some (c_title cdto)
       ∧ note_description <$> note_where_id newId restored = Some (c_description cdto)).
Proof.
  intros Hfresh created final v1 v2 v3 updated restored.
  destruct (created_state newId cdto author db Hfresh) as (Hnote & Htable & Hrows).
  fold created in Hnote, Htable, Hrows.
  split; [done|]. split.
  - destruct (run_ops_numbered newId ops created 1) as (k' & later & Hk' & Hle & Hlater).
    { unfold version_numbers. by rewrite Hrows. }
    destruct k' as [|k]; [lia|].
    exists k, later. subst final. split; [done|]. by rewrite Hlater, Hrows.
  - intros Hd%contentChanged_differs.
    assert (version_numbers newId created = one_to 1) as Hone.
    { unfold version_numbers. by rewrite Hrows. }
    (* the update *)
    pose proof (update_run newId udto author created _ Hnote eq_refl) as Hup.
    cbn zeta in Hup. rewrite Hd, Hone, max_version_one_to in Hup.
    assert (updated
            = with_version v2
                (with_note_update newId
                   (NotesService.update_data udto (created_note newId cdto author)) created))
      as Hupdated.
    { subst updated. by rewrite Hup. }
    assert (versions_where_noteId newId updated = [v1; v2]) as Hrows2.
    { rewrite Hupdated, versions_with_version, decide_True by done.
      rewrite versions_after_note_update. by rewrite Hrows. }
    split; [done|].
    (* the restore *)
    assert (note_where_id newId updated
            = Some (NotesService.update_data udto (created_note newId cdto author)
                      (created_note newId cdto author))) as Hnote2.
    { rewrite Hupdated.
      change (note_where_id newId (with_version v2 ?d)) with (note_where_id newId d).
      rewrite note_where_id_after_update by apply update_data_keeps_id.
      rewrite Hnote. cbn. by rewrite decide_True. }
    assert (version_where newId 1 updated = Some v1) as Htarget.
    { unfold version_where. rewrite Hupdated. cbn. rewrite Htable.
      rewrite !filter_app, (fresh_no_version newId db) by (done || tauto).
      by rewrite filter_cons, decide_True. }
    pose proof (restoreVersion_run newId 1 author updated _ Hnote2 eq_refl) as Hre.
    rewrite decide_True in Hre by (unfold int32; lia).
    rewrite Htarget in Hre. cbn zeta in Hre.
    assert (version_numbers newId updated = one_to 2) as Htwo.
    { unfold version_numbers. by rewrite Hrows2. }
    rewrite Htwo, max_version_one_to in Hre.
    subst restored. rewrite Hre. cbn [snd].
    split; [|split].
    + rewrite versions_with_version, decide_True by done.
      rewrite versions_after_note_update. by rewrite Hrows2.
    + change (note_where_id newId (with_version ?r ?d)) with (note_where_id newId d).
      rewrite note_where_id_after_update by apply restore_data_keeps_id.
      rewrite Hnote2. cbn. by rewrite decide_True.
    + change (note_where_id newId (with_version ?r ?d)) with (note_where_id newId d).
      rewrite note_where_id_after_update by apply restore_data_keeps_id.
      rewrite Hnote2. cbn. by rewrite decide_True.
Qed.

Lemma version_numbers_contiguous_witness :
  let created := (NotesService.create "n1" (mkCreateNoteDto "T" "B" None None) "alice" db0).2 in
  let updated :=
    (NotesService.update "n1" (mkUpdateNoteDto None (Some "B2") None None) "alice" created).2 in
  let restored := (NotesService.restoreVersion "n1" 1 "alice" updated).2 in
  versions_where_noteId "n1" restored
  = [mkNoteVersion "n1" "T" "B" 1 "alice";
     mkNoteVersion "n1" "T" "B2" 2 "alice";
     mkNoteVersion "n1" "T" "B" 3 "alice"].
Proof.
  assert (fresh_note_id "n1" db0) as Hfresh.
  { split; intros x Hx; cbn in Hx; by apply elem_of_nil in Hx. }
  destruct (version_numbers_contiguous "n1" (mkCreateNoteDto "T" "B" None None) "alice" db0 []
              (mkUpdateNoteDto None (Some "B2") None None) Hfresh) as (_ & _ & H).
  destruct H as (_ & H3 & _); [|exact H3].
  right. exists "B2". by split.
Defined.



(** * Further properties of the services *)

(** ** Writes are the author's *)

(** X1. A requester who is not the author of an existing note gets
    Forbidden from every write, whether or not they may read the note, and
    nothing is written. *)
Theorem writes_require_author (id u : string) (db : Db) (n : Note) :
  note_where_id id db = Some n →
  note_authorId n ≠ u →
  (∀ dto, ∃ msg, NotesService.update id dto u db = (Throw (ForbiddenException msg), db))
  ∧ (∀ v, ∃ msg, NotesService.restoreVersion id v u db = (Throw (ForbiddenException msg), db))
  ∧ (∀ userIds, ∃ msg,
       NotesService.shareNote id userIds u db = (Throw (ForbiddenException msg), db))
  ∧ (∃ msg, NotesService.remove id u db = (Throw (ForbiddenException msg), db)).
Proof.
  intros Hn Hu.
  assert (∀ A (k : NoteWithRelations → Store A),
    bind (NotesService.findOne id u) k db
    = if decide (canRead db n u) then k (include_relations db n) db
      else (Throw (ForbiddenException "You do not have access to this note"), db))
    as Hguard.
  { intros A k. unfold bind. rewrite findOne_unfold, Hn. by case_decide. }
  repeat split; intros.
  - unfold NotesService.update. rewrite Hguard. case_decide; [|by eexists].
    cbn [nr_note include_relations]. rewrite bool_decide_eq_true_2 by done. by eexists.
  - unfold NotesService.restoreVersion. rewrite Hguard. case_decide; [|by eexists].
    cbn [nr_note include_relations]. rewrite bool_decide_eq_true_2 by done. by eexists.
  - unfold NotesService.shareNote. rewrite Hguard. case_decide; [|by eexists].
    cbn [nr_note include_relations]. rewrite bool_decide_eq_true_2 by done. by eexists.
  - unfold NotesService.remove. rewrite Hguard. case_decide; [|by eexists].
    cbn [nr_note include_relations]. rewrite bool_decide_eq_true_2 by done. by eexists.
Qed.

Lemma writes_require_author_witness :
  ∃ msg, NotesService.remove "n2" "bob" db2 = (Throw (ForbiddenException msg), db2).
Proof.
  assert (note_authorId note2 ≠ "bob") as Hne by (by intros [=]).
  destruct (writes_require_author "n2" "bob" db2 note2 eq_refl Hne) as (_ & _ & _ & H).
  exact H.
Defined.

(** ** Delete *)

Lemma note_where_id_without (id id' : string) (db : Db) :
  note_where_id id' (without_note id db)
  = if decide (id' = id) then None else note_where_id id' db.
Proof.
  unfold note_where_id, without_note. cbn.
  destruct (decide (id' = id)) as [->|Hne].
  - assert (filter (λ n, note_id n = id) (filter (λ n, note_id n ≠ id) (tbl_note db)) = [])
      as ->; [|done].
    induction (tbl_note db) as [|m t IH]; [done|].
    rewrite filter_cons. case_decide; [|done].
    by rewrite filter_cons, decide_False.
  - f_equal. induction (tbl_note db) as [|m t IH]; [done|].
    rewrite !filter_cons. destruct (decide (note_id m = id')) as [He|He].
    + rewrite decide_True by congruence. by rewrite filter_cons, decide_True, IH.
    + case_decide; [|done]. by rewrite filter_cons, decide_False.
Qed.

Lemma remove_run (id u : string) (db : Db) (n : Note) :
  note_where_id id db = Some n →
  note_authorId n = u →
  NotesService.remove id u db = (Ok tt, without_note id db).
Proof.
  intros Hn Hu. unfold NotesService.remove, bind. rewrite findOne_unfold, Hn.
  rewrite decide_True by (by left). cbn [nr_note include_relations].
  rewrite bool_decide_eq_false_2 by (intros H; by apply H).
  unfold note_delete, bind, get_db. by rewrite Hn.
Qed.

Lemma findOne_missing (id u : string) (db : Db) :
  note_where_id id db = None →
  NotesService.findOne id u db = (Throw (NotFoundException "Note not found"), db).
Proof. intros Hn. by rewrite findOne_unfold, Hn. Qed.

(** X2. A delete by the author goes through and removes the note row,
    leaving users, notifications and every other note as they were.
    From then on every operation on that id, by anyone, answers NotFound
    and writes nothing. *)
Theorem remove_then_not_found (id u : string) (db : Db) (n : Note) :
  note_where_id id db = Some n →
  note_authorId n = u →
  let r := NotesService.remove id u db in
  r.1 = Ok tt
  ∧ tbl_note r.2 = filter (λ m, note_id m ≠ id) (tbl_note db)
  ∧ tbl_user r.2 = tbl_user db
  ∧ tbl_notification r.2 = tbl_notification db
  ∧ (∀ id', id' ≠ id → note_where_id id' r.2 = note_where_id id' db)
  ∧ (∀ u',
       NotesService.findOne id u' r.2 = (Throw (NotFoundException "Note not found"), r.2)
       ∧ NotesService.getVersions id u' r.2 = (Throw (NotFoundException "Note not found"), r.2)
       ∧ NotesService.remove id u' r.2 = (Throw (NotFoundException "Note not found"), r.2)
       ∧ (∀ dto, NotesService.update id dto u' r.2
                 = (Throw (NotFoundException "Note not found"), r.2))
       ∧ (∀ v, NotesService.restoreVersion id v u' r.2
               = (Throw (NotFoundException "Note not found"), r.2))
       ∧ (∀ userIds, NotesService.shareNote id userIds u' r.2
                     = (Throw (NotFoundException "Note not found"), r.2))).
Proof.
  intros Hn Hu r. subst r. rewrite (remove_run id u db n Hn Hu). cbn [fst snd].
  repeat (split; [done|]).
  split.
  { intros id' Hne. by rewrite note_where_id_without, decide_False. }
  assert (note_where_id id (without_note id db) = None) as Hgone.
  { by rewrite note_where_id_without, decide_True. }
  intros u'.
  assert (∀ A (k : NoteWithRelations → Store A),
    bind (NotesService.findOne id u') k (without_note id db)
    = (Throw (NotFoundException "Note not found"), without_note id db)) as Hguard.
  { intros A k. unfold bind. by rewrite findOne_missing. }
  split; [by apply findOne_missing|].
  split; [apply Hguard|]. split; [apply Hguard|].
  split; [intros dto; apply Hguard|]. split; [intros v; apply Hguard|].
  intros userIds. apply Hguard.
Qed.

Lemma remove_then_not_found_witness :
  NotesService.findOne "n1" "alice" (NotesService.remove "n1" "alice" db2).2
  = (Throw (NotFoundException "Note not found"), (NotesService.remove "n1" "alice" db2).2)
  ∧ note_where_id "n2" (NotesService.remove "n1" "alice" db2).2 = Some note2.
Proof.
  destruct (remove_then_not_found "n1" "alice" db2 note1 eq_refl eq_refl)
    as (_ & _ & _ & _ & Hother & Hgone).
  split; [apply (Hgone "alice")|].
  by rewrite Hother.
Defined.

(** ** What updates, restores and shares leave alone *)

Lemma note_keys_after_update (id : string) (data : Note → Note) (db : Db) :
  (∀ m, note_key (data m) = note_key m) →
  note_key <$> tbl_note (with_note_update id data db) = note_key <$> tbl_note db.
Proof.
  intros Hk. unfold with_note_update, set_tbl_note. cbn.
  induction (tbl_note db) as [|m t IH]; [done|].
  rewrite !fmap_cons, IH. f_equal. case_decide; [apply Hk|done].
Qed.

Lemma run_op_note_keys (db : Db) (op : Op) :
  note_key <$> tbl_note (run_op db op) = note_key <$> tbl_note db
  ∧ tbl_user (run_op db op) = tbl_user db.
Proof.
  destruct op as [id dto u|id v u|id userIds u]; cbn [run_op].
  - destruct (note_where_id id db) as [n|] eqn:Hn.
    2: { by rewrite update_not_author by (intros ?; by rewrite Hn). }
    destruct (decide (note_authorId n = u)) as [Hu|Hu].
    2: { rewrite update_not_author; [done|]. intros ?. rewrite Hn. by intros [= <-]. }
    rewrite (update_run id dto u db n Hn Hu). cbn zeta. cbn [snd].
    assert (note_key <$> tbl_note (with_note_update id (NotesService.update_data dto n) db)
            = note_key <$> tbl_note db) as Hkeys by by apply note_keys_after_update.
    by destruct (NotesService.contentChanged dto n).
  - destruct (note_where_id id db) as [n|] eqn:Hn.
    2: { by rewrite restoreVersion_not_author by (intros ?; by rewrite Hn). }
    destruct (decide (note_authorId n = u)) as [Hu|Hu].
    2: { rewrite restoreVersion_not_author; [done|]. intros ?. rewrite Hn. by intros [= <-]. }
    rewrite (restoreVersion_run id v u db n Hn Hu).
    case_decide; [|done].
    destruct (version_where id v db) as [tv|]; [|done]. cbn zeta. cbn [snd].
    split; [|done].
    by apply (note_keys_after_update id (NotesService.restore_data tv) db).
  - rewrite shareNote_unfold.
    destruct (note_where_id id db) as [n|]; [|done].
    repeat (case_decide; [|done]). cbn [snd]. unfold shared_db.
    case_decide; [|done]. split; [|done].
    by apply (note_keys_after_update id NotesService.share_data (with_grants id userIds db)).
Qed.

Lemma note_where_id_keys (id : string) (l1 l2 : list Note) :
  note_key <$> l1 = note_key <$> l2 →
  note_authorId <$> head (filter (λ n, note_id n = id) l1)
  = note_authorId <$> head (filter (λ n, note_id n = id) l2).
Proof.
  revert l2. induction l1 as [|m1 l1 IH]; intros [|m2 l2] Hk; try done.
  rewrite !fmap_cons in Hk. unfold note_key at 1 3 in Hk.
  inversion Hk as [[Hid Hau Hk']]. rewrite !filter_cons, Hid.
  case_decide; [cbn; congruence|by apply IH].
Qed.

Lemma run_ops_note_keys (ops : list Op) (db : Db) :
  note_key <$> tbl_note (run_ops db ops) = note_key <$> tbl_note db
  ∧ tbl_user (run_ops db ops) = tbl_user db.
Proof.
  revert db. induction ops as [|op ops IH]; intros db; [done|].
  change (run_ops db (op :: ops)) with (run_ops (run_op db op) ops).
  destruct (IH (run_op db op)) as [-> ->].
  apply run_op_note_keys.
Qed.

(** X3. No sequence of updates, restores and shares, by anyone on any
    notes, adds or removes a note row or changes the author of one: the
    list of (note id, author id) pairs stays as it was, and so does the
    user table. *)
Theorem authors_never_change (ops : list Op) (db : Db) :
  note_key <$> tbl_note (run_ops db ops) = note_key <$> tbl_note db
  ∧ tbl_user (run_ops db ops) = tbl_user db
  ∧ ∀ id, note_authorId <$> note_where_id id (run_ops db ops)
          = note_authorId <$> note_where_id id db.
Proof.
  destruct (run_ops_note_keys ops db) as [Hk Hu].
  split; [done|]. split; [done|].
  intros id. by apply note_where_id_keys.
Qed.

(** ** Version history *)

Lemma getVersions_run (id u : string) (db : Db) :
  NotesService.getVersions id u db =
  match (NotesService.findOne id u db).1 with
  | Ok _ => (Ok (orderBy_version_desc (versions_where_noteId id db)), db)
  | Throw e => (Throw e, db)
  end.
Proof.
  unfold NotesService.getVersions, bind. rewrite findOne_unfold.
  destruct (note_where_id id db) as [n|]; [|done]. by case_decide.
Qed.

(** X4. Whoever may read a note may read its whole history: when the
    single-note read succeeds, [getVersions] returns all version rows of
    the note, highest version first, the same list the read itself
    includes; when the read fails, [getVersions] fails the same way.  The
    store is not touched. *)
Theorem getVersions_for_readers (id u : string) (db : Db) :
  match (NotesService.findOne id u db).1 with
  | Ok note =>
      ∃ rows, NotesService.getVersions id u db = (Ok rows, db)
              ∧ rows ≡ₚ versions_where_noteId id db
              ∧ StronglySorted version_desc rows
              ∧ nr_versions note = Some rows
  | Throw e => NotesService.getVersions id u db = (Throw e, db)
  end.
Proof.
  rewrite getVersions_run. rewrite findOne_unfold.
  destruct (note_where_id id db) as [n|] eqn:Hn; [|done].
  case_decide; [|done]. cbn [fst].
  eexists. split; [done|]. split; [apply merge_sort_Permutation|].
  split; [apply StronglySorted_merge_sort; apply _|].
  cbn. by rewrite (note_where_id_key id db n Hn).
Qed.

Lemma Sorted_of_nat_seq (a n : nat) : Sorted Z.le (Z.of_nat <$> seq a n).
Proof.
  revert a. induction n as [|n IH]; intros a; [constructor|].
  cbn [seq]. rewrite fmap_cons. constructor; [apply IH|].
  destruct n; cbn; constructor. lia.
Qed.

Lemma versions_newest_first (l : list NoteVersion) (k : nat) :
  nv_version <$> l = one_to k →
  nv_version <$> orderBy_version_desc l = reverse (one_to k).
Proof.
  intros Hl. unfold orderBy_version_desc.
  assert (Transitive (flip Z.le)) by (intros a b c; unfold flip; lia).
  assert (AntiSymm (=) (flip Z.le)) by (intros a b; unfold flip; lia).
  apply (Sorted_unique (flip Z.le)).
  - apply (Sorted_fmap _ version_desc); [by unfold version_desc, flip|].
    apply Sorted_merge_sort. apply _.
  - apply Sorted_reverse, Sorted_of_nat_seq.
  - by rewrite merge_sort_Permutation, Hl, reverse_Permutation.
Qed.

(** X5. After a note is created under an unused key, and after any
    sequence of updates, restores and shares, its author reads the history
    back as versions n, n-1, ..., 1 for some n of at least 1. *)
Theorem history_newest_first (newId : string) (cdto : CreateNoteDto) (author : string)
    (db : Db) (ops : list Op) :
  fresh_note_id newId db →
  let final := run_ops (NotesService.create newId cdto author db).2 ops in
  ∃ k rows, NotesService.getVersions newId author final = (Ok rows, final)
            ∧ nv_version <$> rows = reverse (one_to (S k)).
Proof.
  intros Hfresh final.
  destruct (created_state newId cdto author db Hfresh) as (Hnote & _ & Hrows).
  destruct (run_ops_numbered newId ops (NotesService.create newId cdto author db).2 1)
    as (k' & later & Hk' & Hle & _).
  { unfold version_numbers. by rewrite Hrows. }
  fold final in Hk'. destruct k' as [|k]; [lia|].
  destruct (run_ops_note_keys ops (NotesService.create newId cdto author db).2) as [Hkeys _].
  pose proof (note_where_id_keys newId _ _ Hkeys) as Hauthor.
  fold (note_where_id newId (run_ops (NotesService.create newId cdto author db).2 ops))
    in Hauthor.
  fold (note_where_id newId (NotesService.create newId cdto author db).2) in Hauthor.
  fold final in Hauthor. rewrite Hnote in Hauthor. cbn in Hauthor.
  destruct (note_where_id newId final) as [n|] eqn:Hn; [|done].
  injection Hauthor as Hau.
  exists k, (orderBy_version_desc (versions_where_noteId newId final)).
  split; [|by apply versions_newest_first].
  rewrite getVersions_run, findOne_unfold, Hn.
  by rewrite decide_True by (by left).
Qed.

Lemma history_newest_first_witness :
  ∃ k rows,
    NotesService.getVersions "n9" "alice"
      (run_ops (NotesService.create "n9" (mkCreateNoteDto "T" "B" None None) "alice" db1).2
         [OpUpdate "n9" (mkUpdateNoteDto None (Some "B2") None None) "alice";
          OpRestore "n9" 1 "alice"])
    = (Ok rows,
       run_ops (NotesService.create "n9" (mkCreateNoteDto "T" "B" None None) "alice" db1).2
         [OpUpdate "n9" (mkUpdateNoteDto None (Some "B2") None None) "alice";
          OpRestore "n9" 1 "alice"])
    ∧ nv_version <$> rows = reverse (one_to (S k)).
Proof.
  apply (history_newest_first "n9" (mkCreateNoteDto "T" "B" None None) "alice" db1).
  split; intros x Hx; apply list_elem_of_singleton in Hx; by subst x.
Defined.

(** ** Update, field by field *)

Lemma note_where_id_other_after_update (id id' : string) (data : Note → Note) (db : Db) :
  keeps_id data → id' ≠ id →
  note_where_id id' (with_note_update id data db) = note_where_id id' db.
Proof.
  intros Hk Hne. rewrite note_where_id_after_update by done.
  destruct (note_where_id id' db) as [m|] eqn:Hm; [|done]. cbn.
  apply note_where_id_key in Hm. by rewrite decide_False by congruence.
Qed.

Lemma update_state (id : string) (dto : UpdateNoteDto) (u : string) (db : Db) (n : Note) :
  note_where_id id db = Some n →
  note_authorId n = u →
  let db' := (NotesService.update id dto u db).2 in
  tbl_note db' = tbl_note (with_note_update id (NotesService.update_data dto n) db)
  ∧ tbl_noteUser db' = tbl_noteUser db
  ∧ tbl_user db' = tbl_user db
  ∧ tbl_notification db' = tbl_notification db.
Proof.
  intros Hn Hu db'. subst db'. rewrite (update_run id dto u db n Hn Hu). cbn zeta. cbn [snd].
  by destruct (NotesService.contentChanged dto n).
Qed.

Lemma note_where_id_tbl (id : string) (db db' : Db) :
  tbl_note db' = tbl_note db → note_where_id id db' = note_where_id id db.
Proof. unfold note_where_id. by intros ->. Qed.

(** X6. An update by the author sets exactly the fields it supplies:
    title, description, tags and visibility each take the supplied value
    or keep the stored one, and the id and the author stay.  Other notes,
    the grants of every note, the users and the notifications are left as
    they were; in particular an update writes no notification. *)
Theorem update_sets_supplied_fields (id : string) (dto : UpdateNoteDto) (u : string)
    (db : Db) (n : Note) :
  note_where_id id db = Some n →
  note_authorId n = u →
  let db' := (NotesService.update id dto u db).2 in
  note_where_id id db'
  = Some {| note_id := note_id n;
            note_title := default (note_title n) (u_title dto);
            note_description := default (note_description n) (u_description dto);
            note_tags := default (note_tags n) (u_tags dto);
            note_visibility := default (note_visibility n) (u_visibility dto);
            note_authorId := note_authorId n |}
  ∧ (∀ id', id' ≠ id → note_where_id id' db' = note_where_id id' db)
  ∧ tbl_noteUser db' = tbl_noteUser db
  ∧ tbl_user db' = tbl_user db
  ∧ tbl_notification db' = tbl_notification db.
Proof.
  intros Hn Hu db'.
  destruct (update_state id dto u db n Hn Hu) as (Hnotes & Hgrants & Husers & Hntf).
  fold db' in Hnotes, Hgrants, Husers, Hntf.
  split; [|split; [|done]].
  - rewrite (note_where_id_tbl id _ _ Hnotes).
    rewrite note_where_id_after_update by apply update_data_keeps_id.
    rewrite Hn. cbn. by rewrite decide_True by (by apply note_where_id_key in Hn).
  - intros id' Hne. rewrite (note_where_id_tbl id' _ _ Hnotes).
    by apply note_where_id_other_after_update.
Qed.

Lemma update_sets_supplied_fields_witness :
  note_where_id "n1"
    (NotesService.update "n1" (mkUpdateNoteDto None None (Some ["x"]) (Some PUBLIC))
       "alice" db1).2
  = Some (mkNote "n1" "T" "B" ["x"] PUBLIC "alice").
Proof.
  by destruct (update_sets_supplied_fields "n1"
                 (mkUpdateNoteDto None None (Some ["x"]) (Some PUBLIC)) "alice" db1 note1
                 eq_refl eq_refl) as [H _].
Defined.

(** ** Visibility and grants *)

Lemma canRead_same_grants (db db' : Db) (n n' : Note) (g : string) :
  tbl_noteUser db' = tbl_noteUser db →
  note_id n' = note_id n →
  grant_exists db' n' g ↔ grant_exists db n g.
Proof. unfold grant_exists. by intros -> ->. Qed.

Lemma update_live_note (id : string) (dto : UpdateNoteDto) (u : string) (db : Db) (n : Note) :
  note_where_id id db = Some n →
  note_authorId n = u →
  note_where_id id (NotesService.update id dto u db).2
  = Some (NotesService.update_data dto n n)
  ∧ tbl_noteUser (NotesService.update id dto u db).2 = tbl_noteUser db.
Proof.
  intros Hn Hu.
  destruct (update_state id dto u db n Hn Hu) as (Hnotes & Hgrants & _).
  split; [|done].
  rewrite (note_where_id_tbl id _ _ Hnotes).
  rewrite note_where_id_after_update by apply update_data_keeps_id.
  rewrite Hn. cbn. by rewrite decide_True by (by apply note_where_id_key in Hn).
Qed.

Lemma update_versions_unchanged (id : string) (dto : UpdateNoteDto) (u : string)
    (db : Db) (n : Note) :
  note_where_id id db = Some n →
  note_authorId n = u →
  tbl_noteVersion (NotesService.update id dto u db).2 = tbl_noteVersion db
  ∨ content_differs dto n.
Proof.
  intros Hn Hu. rewrite (update_run id dto u db n Hn Hu). cbn zeta. cbn [snd].
  destruct (NotesService.contentChanged dto n) eqn:Hc; [|by left].
  right. by apply contentChanged_differs.
Qed.

(** X7. Grants outlive a change of visibility.  When the author makes a
    note PRIVATE by an update, its grant rows stay in the table but a
    grantee other than the author is refused with Forbidden; when the
    author later makes it SHARED by another update the same grantee reads
    it again, with no new share.  Neither update adds a version. *)
Theorem grants_outlive_private (id u g : string) (db : Db) (n : Note) :
  note_where_id id db = Some n →
  note_authorId n = u →
  g ≠ u →
  grant_exists db n g →
  let hidden := (NotesService.update id (only_visibility PRIVATE) u db).2 in
  let shown := (NotesService.update id (only_visibility SHARED) u hidden).2 in
  tbl_noteUser hidden = tbl_noteUser db
  ∧ NotesService.findOne id g hidden
    = (Throw (ForbiddenException "You do not have access to this note"), hidden)
  ∧ tbl_noteUser shown = tbl_noteUser db
  ∧ (∃ note, NotesService.findOne id g shown = (Ok note, shown))
  ∧ tbl_noteVersion shown = tbl_noteVersion db.
Proof.
  intros Hn Hu Hg Hgrant hidden shown.
  destruct (update_live_note id (only_visibility PRIVATE) u db n Hn Hu) as (Hn1 & Hgrants1).
  fold hidden in Hn1, Hgrants1. cbn in Hn1.
  set (n1 := {| note_id := note_id n; note_title := note_title n;
                note_description := note_description n; note_tags := note_tags n;
                note_visibility := PRIVATE; note_authorId := note_authorId n |}) in *.
  destruct (update_live_note id (only_visibility SHARED) u hidden n1 Hn1 Hu) as (Hn2 & Hgrants2).
  fold shown in Hn2, Hgrants2. cbn in Hn2.
  set (n2 := {| note_id := note_id n; note_title := note_title n;
                note_description := note_description n; note_tags := note_tags n;
                note_visibility := SHARED; note_authorId := note_authorId n |}) in *.
  split; [done|]. split; [|split; [congruence|split]].
  - rewrite findOne_unfold, Hn1. rewrite decide_False; [done|].
    intros [Ha|[Hp|[Hs _]]]; cbn in *; congruence.
  - rewrite findOne_unfold, Hn2. rewrite decide_True; [by eexists|].
    right. right. split; [done|].
    apply (canRead_same_grants db shown n n2 g); [congruence|done|done].
  - destruct (update_versions_unchanged id (only_visibility PRIVATE) u db n Hn Hu) as [E1|Hd];
      [|by destruct Hd as [(t & [=] & _)|(d & [=] & _)]].
    destruct (update_versions_unchanged id (only_visibility SHARED) u hidden n1 Hn1 Hu)
      as [E2|Hd]; [|by destruct Hd as [(t & [=] & _)|(d & [=] & _)]].
    fold hidden in E1. fold shown in E2. congruence.
Qed.

Lemma grants_outlive_private_witness :
  let hidden := (NotesService.update "n3" (only_visibility PRIVATE) "alice" db3).2 in
  let shown := (NotesService.update "n3" (only_visibility SHARED) "alice" hidden).2 in
  NotesService.findOne "n3" "bob" hidden
  = (Throw (ForbiddenException "You do not have access to this note"), hidden)
  ∧ ∃ note, NotesService.findOne "n3" "bob" shown = (Ok note, shown).
Proof.
  assert ("bob" ≠ "alice") as Hne by (by intros [=]).
  assert (grant_exists db3 note3 "bob") as Hgrant.
  { apply (bool_decide_unpack _). vm_compute. exact I. }
  destruct (grants_outlive_private "n3" "alice" "bob" db3 note3 eq_refl eq_refl Hne Hgrant)
    as (_ & H1 & _ & H2 & _).
  split; [exact H1|exact H2].
Defined.

(** ** Share: visibility, access, validation *)

Lemma grant_exists_after_share (id : string) (S : list string) (n n' : Note) (db : Db) (g : string) :
  note_id n' = id →
  grant_exists (shared_db id S n db) n' g ↔ g ∈ S.
Proof.
  intros Hid. unfold grant_exists. rewrite Exists_exists, Hid. split.
  - intros (row & Hin & Hrow & Hg).
    assert (row ∈ noteUsers_where_noteId id (shared_db id S n db)) as Hin'.
    { unfold noteUsers_where_noteId. apply list_elem_of_filter. by split. }
    unfold noteUsers_where_noteId in Hin'. rewrite shared_db_noteUser in Hin'.
    fold (noteUsers_where_noteId id (with_grants id S db)) in Hin'.
    rewrite grants_after_share in Hin'. unfold NotesService.share_rows in Hin'.
    apply list_elem_of_fmap in Hin' as (uid & -> & Huid). by subst g.
  - intros Hg. exists (mkNoteUser id g VIEW). split; [|done].
    assert (mkNoteUser id g VIEW ∈ noteUsers_where_noteId id (shared_db id S n db)) as Hin.
    { unfold noteUsers_where_noteId. rewrite shared_db_noteUser.
      fold (noteUsers_where_noteId id (with_grants id S db)).
      rewrite grants_after_share. unfold NotesService.share_rows.
      apply list_elem_of_fmap. by exists g. }
    unfold noteUsers_where_noteId in Hin. apply list_elem_of_filter in Hin. tauto.
Qed.

(** X8. When a share goes through, the note keeps every field except
    that a PRIVATE note becomes SHARED (a SHARED or PUBLIC note keeps its
    visibility).  Afterwards every listed user reads the note, and a user
    who is neither listed nor the author is refused with Forbidden unless
    the note is PUBLIC; so users of an earlier list who are not in this
    one have lost access. *)
Theorem share_sets_access (id : string) (S : list string) (u : string) (db : Db)
    (result : option NoteWithRelations) :
  (NotesService.shareNote id S u db).1 = Ok result →
  let db' := (NotesService.shareNote id S u db).2 in
  ∃ n, note_where_id id db = Some n
       ∧ note_where_id id db'
         = Some {| note_id := note_id n;
                   note_title := note_title n;
                   note_description := note_description n;
                   note_tags := note_tags n;
                   note_visibility :=
                     if decide (note_visibility n = PRIVATE) then SHARED else note_visibility n;
                   note_authorId := note_authorId n |}
       ∧ (∀ g, g ∈ S → ∃ note, NotesService.findOne id g db' = (Ok note, db'))
       ∧ (∀ g, g ∉ S → g ≠ u → note_visibility n ≠ PUBLIC →
               NotesService.findOne id g db'
               = (Throw (ForbiddenException "You do not have access to this note"), db')).
Proof.
  intros Hok db'. subst db'.
  destruct (shareNote_Ok_inv _ _ _ _ _ Hok) as (n & Hn & Hu & _ & ->).
  exists n. split; [done|].
  pose proof (note_where_id_shared_db id S n db Hn) as Hn'.
  set (n' := if decide (note_visibility n = PRIVATE) then NotesService.share_data n else n) in *.
  assert (note_id n' = id) as Hid.
  { pose proof (note_where_id_key id db n Hn). subst n'. by case_decide. }
  assert (note_authorId n' = u ∧ (note_visibility n ≠ PUBLIC → note_visibility n' ≠ PUBLIC)
          ∧ (note_visibility n' = PUBLIC ∨ note_visibility n' = SHARED)) as (Hau & Hpub & Hvis).
  { subst n'. case_decide; cbn.
    - split; [done|]. split; [done|by right].
    - split; [done|]. split; [done|].
      destruct (note_visibility n); [done|by right|by left]. }
  split; [|split].
  - rewrite Hn'. subst n'. destruct n as [? ? ? ? vis ?]. cbn.
    by destruct (decide (vis = PRIVATE)).
  - intros g Hg. rewrite findOne_unfold, Hn'. rewrite decide_True; [by eexists|].
    destruct Hvis as [Hv|Hv].
    + by right; left.
    + right. right. split; [done|]. by apply grant_exists_after_share.
  - intros g Hg Hne Hnp. rewrite findOne_unfold, Hn'. rewrite decide_False; [done|].
    intros [Ha|[Hp|[_ Hgr]]].
    + congruence.
    + by apply Hpub.
    + apply grant_exists_after_share in Hgr; done.
Qed.

Lemma share_sets_access_witness :
  let db' := (NotesService.shareNote "n3" ["carol"] "alice" db3).2 in
  (∃ note, NotesService.findOne "n3" "carol" db' = (Ok note, db'))
  ∧ NotesService.findOne "n3" "bob" db'
    = (Throw (ForbiddenException "You do not have access to this note"), db').
Proof.
  destruct (share_sets_access "n3" ["carol"] "alice" db3 _ eq_refl)
    as (n & Hn & _ & Hin & Hout).
  injection Hn as <-.
  split.
  - apply Hin. apply list_elem_of_singleton. reflexivity.
  - apply Hout.
    + intros H. apply list_elem_of_singleton in H. discriminate H.
    + intros H. discriminate H.
    + intros H. discriminate H.
Defined.

(** X9. With user ids as the primary key of the user table, a share asked
    by the author is refused with BadRequest, and writes nothing, exactly
    when the list names some id that is not a user or names an id twice;
    otherwise it goes through. *)
Theorem share_validation (id : string) (S : list string) (u : string) (db : Db) (n : Note) :
  user_ids_unique db →
  note_where_id id db = Some n →
  note_authorId n = u →
  (NotesService.shareNote id S u db
     = (Throw (BadRequestException "One or more users not found"), db)
   ↔ ¬ (NoDup S ∧ all_users_exist S db))
  ∧ ((∃ result, (NotesService.shareNote id S u db).1 = Ok result)
     ↔ NoDup S ∧ all_users_exist S db).
Proof.
  intros Hkey Hn Hu. rewrite shareNote_unfold, Hn.
  rewrite (decide_True (P := canRead db n u)) by (by left).
  rewrite (decide_True (P := note_authorId n = u)) by done.
  rewrite <- (users_found_iff S db Hkey).
  case_decide; cbn [fst]; split; split; try done.
  - intros _. by eexists.
  - by intros [? ?].
Qed.

Lemma share_validation_witness :
  NotesService.shareNote "n1" ["bob"; "dave"] "alice" db1
  = (Throw (BadRequestException "One or more users not found"), db1).
Proof.
  assert (user_ids_unique db1) as Hkey.
  { unfold user_ids_unique. apply (bool_decide_unpack _). vm_compute. exact I. }
  destruct (share_validation "n1" ["bob"; "dave"] "alice" db1 note1 Hkey eq_refl eq_refl)
    as [[_ H] _].
  apply H. intros [_ Hall].
  assert ("dave" ∈ user_id <$> tbl_user db1) as Hd.
  { apply Hall. apply elem_of_cons. right. apply elem_of_cons. by left. }
  revert Hd. apply (bool_decide_unpack _). vm_compute. exact I.
Defined.

(** ** Listing and search *)

Lemma matches_W_AND_cons (db : Db) (w : NoteWhereInput) (ws : list NoteWhereInput) (n : Note) :
  matches db (W_AND (w :: ws)) n = matches db w n && matches db (W_AND ws) n.
Proof. done. Qed.

Lemma matches_W_AND_app (db : Db) (ws1 ws2 : list NoteWhereInput) (n : Note) :
  matches db (W_AND (ws1 ++ ws2)) n = matches db (W_AND ws1) n && matches db (W_AND ws2) n.
Proof. cbn. apply forallb_app. Qed.

Lemma filter_length_mono {A} (P Q : A → Prop) `{!∀ x, Decision (P x)} `{!∀ x, Decision (Q x)}
    (l : list A) :
  (∀ x, x ∈ l → P x → Q x) → (length (filter P l) ≤ length (filter Q l))%nat.
Proof.
  induction l as [|x l IH]; intros Himp; [done|].
  assert (length (filter P l) ≤ length (filter Q l))%nat as IH'.
  { apply IH. intros y Hy. apply Himp. apply elem_of_cons. by right. }
  rewrite !filter_cons.
  destruct (decide (P x)) as [HP|HP].
  - rewrite decide_True by (apply Himp; [apply elem_of_cons; by left|done]). cbn. lia.
  - destruct (decide (Q x)); cbn; lia.
Qed.

(** What [skip] and [take] hand back. *)
Lemma skip_take_None {A} (skip take_ : Z) (rows : list A) :
  NotesService.skip_take skip take_ rows = None ↔ skip < 0.
Proof. unfold NotesService.skip_take. case_decide; split; (done || lia). Qed.

Lemma skip_take_Some {A} (skip take_ : Z) (rows l : list A) :
  NotesService.skip_take skip take_ rows = Some l →
  0 ≤ skip
  ∧ (∀ x, x ∈ l → x ∈ rows)
  ∧ (length l ≤ Z.to_nat (Z.abs take_))%nat
  ∧ (length l ≤ length rows)%nat.
Proof.
  unfold NotesService.skip_take. case_decide as Hs; [done|]. intros [= <-].
  split; [lia|]. case_decide as Ht.
  - split; [|split].
    + intros x Hx. by apply subseteq_take, subseteq_drop in Hx.
    + rewrite length_take. lia.
    + rewrite length_take, length_drop. lia.
  - split; [|split].
    + intros x Hx. rewrite elem_of_reverse in Hx. apply subseteq_take, subseteq_drop in Hx.
      by rewrite elem_of_reverse in Hx.
    + rewrite length_reverse, length_take. lia.
    + rewrite length_reverse, length_take, length_drop, length_reverse. lia.
Qed.

(** The row [take: 1] keeps under [orderBy: { version: 'desc' }]. *)
Lemma include_latest_attached (db : Db) (n : Note) :
  latest_version_attached db (NotesService.include_latest db n).
Proof.
  unfold latest_version_attached, NotesService.include_latest. cbn [nr_versions nr_note].
  unfold orderBy_version_desc.
  set (l := versions_where_noteId (note_id n) db).
  pose proof (merge_sort_Permutation version_desc l) as Hperm.
  pose proof (StronglySorted_merge_sort version_desc l) as Hsort.
  destruct (merge_sort version_desc l) as [|x r]; cbn [take].
  - apply Permutation_nil_l in Hperm. by rewrite <- Hperm.
  - rewrite take_0.
    assert (x ∈ l) as Hx by (rewrite <- Hperm; apply elem_of_cons; by left).
    apply list_elem_of_filter in Hx as [Hid Hx].
    split; [done|]. split; [done|].
    intros w Hw Hwid.
    assert (w ∈ x :: r) as Hin.
    { rewrite Hperm. apply list_elem_of_filter. by split. }
    apply StronglySorted_inv in Hsort as [_ Hall].
    apply elem_of_cons in Hin as [->|Hin]; [lia|].
    rewrite Forall_forall in Hall. by apply Hall.
Qed.

Section PageProperties.
Variable sortable : string → string → bool.
Variable fits : Z → bool.
Variable orderBy : string → string → list Note → list Note.
(** Sorting rearranges its rows, and a number of 32 bits is accepted as
    [skip] and as [take]. *)
Hypothesis orderBy_Permutation : ∀ sortBy sortOrder l, orderBy sortBy sortOrder l ≡ₚ l.
Hypothesis fits_int32 : ∀ z, int32 z → fits z = true.

(** [findMany] and [count] under one [where]: the store refuses what it
    does not sort by, a number it does not take, and a negative [skip];
    otherwise the rows are among those [count] counts. *)
Lemma findMany_count_run (where_ : NoteWhereInput) (skip take_ : Z) (sortBy sortOrder : string)
    (include : Db → Note → NoteWithRelations) (db : Db) :
  let found := filter (λ n, matches db where_ n = true) (tbl_note db) in
  let accepted := sortable sortBy sortOrder && fits skip && fits take_ in
  let r := (let* notes := NotesService.note_findMany sortable fits orderBy where_ skip take_
                            sortBy sortOrder include in
            let* total := NotesService.note_count where_ in
            ret (notes, total)) db in
  r.2 = db
  ∧ ((accepted = false ∨ skip < 0) → r.1 = Throw PrismaInvalidArgument)
  ∧ (accepted = true → 0 ≤ skip →
       ∃ rows, r.1 = Ok (include db <$> rows, length found)
               ∧ (∀ n, n ∈ rows → n ∈ found)
               ∧ (length rows ≤ Z.to_nat (Z.abs take_))%nat
               ∧ (length rows ≤ length found)%nat).
Proof.
  cbn zeta. unfold NotesService.note_findMany, NotesService.note_count, bind, get_db, ret, throw.
  destruct (sortable sortBy sortOrder && fits skip && fits take_); cbn [negb].
  - destruct (NotesService.skip_take skip take_ _) as [rows|] eqn:Hst.
    + apply skip_take_Some in Hst as (Hskip & Hsub & Hlen & Hlen').
      split; [done|]. split; [intros [?|?]; (done || lia)|].
      intros _ _. exists rows. split; [done|]. split; [|split; [done|]].
      * intros n Hn. apply Hsub in Hn. by rewrite orderBy_Permutation in Hn.
      * by rewrite orderBy_Permutation in Hlen'.
    + apply skip_take_None in Hst.
      split; [done|]. split; [done|]. intros _ ?. lia.
  - split; [done|]. split; [done|]. done.
Qed.

(** X10. [findAll] never writes.  It fails, with the store's refusal,
    when the store does not sort by the requested field and direction,
    when it does not take [(page - 1) * limit] or [limit] as a number,
    and when [(page - 1) * limit] is negative; in every other case, so
    for a sortable field, a page of at least 1 and a limit of at least
    0, both within 32 bits, it returns a page.  The page holds at most
    [|limit|] notes and no more than the total; each is a stored note the
    requester may read, so a PRIVATE note on it is the requester's own;
    each has the visibility the query asked for, if it asked for one;
    and each comes with its grants and the number of its versions.  The
    total never exceeds the number of stored notes the requester may
    read, is that number for a query without filters, and is the same
    for any other page, limit and sorting of the same filters. *)
Theorem findAll_page (q : QueryNotesDto) (u : string) (db : Db) :
  let page_ := default 1 (q_page q) in
  let limit := default 10 (q_limit q) in
  let skip := (page_ - 1) * limit in
  let sorts := sortable (default "updatedAt" (q_sortBy q))
                 (NotesService.sortOrder_name (default desc (q_sortOrder q))) in
  let accepted := sorts && fits skip && fits limit in
  let readable := length (filter (λ n, canRead db n u) (tbl_note db)) in
  let r := NotesService.findAll sortable fits orderBy q u db in
  r.2 = db
  ∧ ((accepted = false ∨ skip < 0) → r.1 = Throw PrismaInvalidArgument)
  ∧ (sorts = true → 1 ≤ page_ → 0 ≤ limit → int32 skip → int32 limit → ∃ page, r.1 = Ok page)
  ∧ (accepted = true → 0 ≤ skip →
       ∃ page, r.1 = Ok page
         ∧ (length (NotesService.pg_data page) ≤ Z.to_nat (Z.abs limit))%nat
         ∧ (length (NotesService.pg_data page) ≤ NotesService.pg_total page)%nat
         ∧ (NotesService.pg_total page ≤ readable)%nat
         ∧ (no_filters q → NotesService.pg_total page = readable)
         ∧ (∀ q' page', same_filters q q' →
              (NotesService.findAll sortable fits orderBy q' u db).1 = Ok page' →
              NotesService.pg_total page' = NotesService.pg_total page)
         ∧ ∀ note, note ∈ NotesService.pg_data page →
             nr_note note ∈ tbl_note db
             ∧ canRead db (nr_note note) u
             ∧ (note_visibility (nr_note note) = PRIVATE → note_authorId (nr_note note) = u)
             ∧ (∀ v, q_visibility q = Some v → note_visibility (nr_note note) = v)
             ∧ nr_noteUsers note = noteUsers_where_noteId (note_id (nr_note note)) db
             ∧ nr_count_versions note
               = Some (length (versions_where_noteId (note_id (nr_note note)) db))).
Proof.
  intros page_ limit skip sorts accepted readable r.
  assert (∀ q0,
    NotesService.findAll sortable fits orderBy q0 u db
    = match (let* notes := NotesService.note_findMany sortable fits orderBy
                             (NotesService.findAll_where q0 u)
                             ((default 1 (q_page q0) - 1) * default 10 (q_limit q0))
                             (default 10 (q_limit q0))
                             (default "updatedAt" (q_sortBy q0))
                             (NotesService.sortOrder_name (default desc (q_sortOrder q0)))
                             include_count in
              let* total := NotesService.note_count (NotesService.findAll_where q0 u) in
              ret (notes, total)) db with
      | (Ok (notes, total), db') =>
          (Ok {| NotesService.pg_data := notes; NotesService.pg_total := total;
                 NotesService.pg_page := default 1 (q_page q0);
                 NotesService.pg_limit := default 10 (q_limit q0) |}, db')
      | (Throw e, db') => (Throw e, db')
      end) as Hshape.
  { intros q0. unfold NotesService.findAll, bind, ret. cbn zeta.
    destruct (NotesService.note_findMany _ _ _ _ _ _ _ _ _ db) as [[notes|e] db']; [|done].
    by destruct (NotesService.note_count _ db') as [[total|e] db'']. }
  pose proof (findMany_count_run (NotesService.findAll_where q u) skip limit
                (default "updatedAt" (q_sortBy q))
                (NotesService.sortOrder_name (default desc (q_sortOrder q)))
                include_count db) as (Hdb & Hfail & Hok).
  fold sorts accepted in Hfail, Hok.
  subst r. rewrite Hshape. fold page_ limit skip.
  match goal with
  | H : context [bind ?c ?k db] |- _ =>
      destruct (bind c k db) as [[[notes total]|e] db'] eqn:Hrun
  end; cbn [fst snd] in *.
  all: split; [done|].
  - split; [intros H; by specialize (Hfail H)|].
    match goal with |- _ ∧ ?G => assert G as Hmain; [|split; [|exact Hmain]] end.
    2: { intros Hs Hp Hl Hskip32 Hlimit32.
         destruct Hmain as (page & Hpage & _); [|subst skip; nia|by eexists].
         subst accepted. by rewrite Hs, !fits_int32. }
    intros Hacc Hskip. destruct (Hok Hacc Hskip) as (rows & Heq & Hsub & Hlen & Hlen').
    assert (notes = include_count db <$> rows) as -> by congruence.
    assert (total = length (filter (λ n, matches db (NotesService.findAll_where q u) n = true)
                              (tbl_note db))) as -> by congruence.
    clear Heq. eexists. split; [done|]. cbn [NotesService.pg_data NotesService.pg_total].
    rewrite length_fmap.
    assert (∀ n, matches db (NotesService.findAll_where q u) n = true
                 ↔ canRead db n u
                   ∧ matches db (W_AND (NotesService.findAll_filters q)) n = true) as Hwhere.
    { intros n. unfold NotesService.findAll_where.
      by rewrite matches_W_AND_cons, andb_true_iff, accessControl_canRead. }
    split; [done|]. split; [done|]. split; [|split; [|split]].
    + apply filter_length_mono. intros n _ Hn. by apply Hwhere in Hn as [? _].
    + intros (Hs & Ht & Hv & Ha). subst readable. f_equal. apply list_filter_iff. intros n.
      rewrite Hwhere. split; [tauto|]. intros Hread. split; [done|].
      unfold NotesService.findAll_filters. rewrite Hs, Hv, Ha.
      by destruct Ht as [-> | ->].
    + intros q' page' (Hs & Ht & Hv & Ha) Hrun'.
      rewrite Hshape in Hrun'.
      pose proof (findMany_count_run (NotesService.findAll_where q' u)
                    ((default 1 (q_page q') - 1) * default 10 (q_limit q'))
                    (default 10 (q_limit q'))
                    (default "updatedAt" (q_sortBy q'))
                    (NotesService.sortOrder_name (default desc (q_sortOrder q')))
                    include_count db) as (_ & Hfail' & Hok').
      cbn zeta in Hfail', Hok'.
      match type of Hfail' with
      | context [bind ?c ?k db] =>
          destruct (bind c k db) as [[[notes' total']|e'] db''] eqn:Hrun''; [|done]
      end.
      cbn [fst snd] in *. injection Hrun' as <-. cbn [NotesService.pg_total].
      match type of Hfail' with
      | ?acc = false ∨ _ → _ => destruct acc eqn:Hacc'
      end.
      2: { by specialize (Hfail' (or_introl eq_refl)). }
      destruct (decide ((default 1 (q_page q') - 1) * default 10 (q_limit q') < 0)) as [Hneg|Hpos].
      { by specialize (Hfail' (or_intror Hneg)). }
      destruct (Hok' eq_refl) as (rows' & Heq' & _); [lia|].
      assert (total' = length (filter (λ n, matches db (NotesService.findAll_where q' u) n = true)
                                 (tbl_note db))) as -> by congruence.
      f_equal. apply list_filter_iff. intros n.
      unfold NotesService.findAll_where, NotesService.findAll_filters.
      by rewrite Hs, Ht, Hv, Ha.
    + intros note (n & -> & Hn)%list_elem_of_fmap.
      cbn [include_count nr_note nr_noteUsers nr_count_versions].
      apply Hsub, list_elem_of_filter in Hn as [Hm Hn].
      apply Hwhere in Hm as [Hread Hfilters].
      repeat split; try done.
      * intros Hp. destruct Hread as [Ha|[Hv|[Hv _]]]; congruence.
      * intros v Hv. unfold NotesService.findAll_filters in Hfilters. rewrite Hv in Hfilters.
        cbn in Hfilters. rewrite !andb_true_iff in Hfilters.
        destruct Hfilters as (_ & _ & Hvis & _). by apply bool_decide_eq_true in Hvis.
  - split; [intros H; specialize (Hfail H); congruence|].
    assert (accepted = true → 0 ≤ skip → False) as Hno.
    { intros Hacc Hskip. by destruct (Hok Hacc Hskip) as (rows & ? & _). }
    split.
    + intros Hs Hp Hl Hskip32 Hlimit32. destruct Hno; [|subst skip; nia].
      subst accepted. by rewrite Hs, !fits_int32.
    + intros Hacc Hskip. by destruct Hno.
Qed.

(** What the options of [advancedSearch] must be for the store to take
    the query: numbers for [page] and [limit], and a [visibility] that
    is empty or names a value of the enum. *)
Lemma advancedSearch_run (query u : string) (options : NotesService.SearchOptions) (db : Db) :
  NotesService.advancedSearch sortable fits orderBy query u options db
  = match NotesService.advancedSearch_where query u options,
          default (NotesService.Num 1) (NotesService.o_page options),
          default (NotesService.Num 10) (NotesService.o_limit options) with
    | Some where_, NotesService.Num page_, NotesService.Num limit =>
        match (let* notes := NotesService.note_findMany sortable fits orderBy where_
                               ((page_ - 1) * limit) limit
                               (default "updatedAt" (NotesService.o_sortBy options))
                               (default "desc" (NotesService.o_sortOrder options))
                               NotesService.include_latest in
               let* total := NotesService.note_count where_ in
               ret (notes, total)) db with
        | (Ok (notes, total), db') =>
            (Ok {| NotesService.pg_data := notes; NotesService.pg_total := total;
                   NotesService.pg_page := page_; NotesService.pg_limit := limit |}, db')
        | (Throw e, db') => (Throw e, db')
        end
    | _, _, _ => (Throw PrismaInvalidArgument, db)
    end.
Proof.
  unfold NotesService.advancedSearch. cbn zeta.
  destruct (NotesService.advancedSearch_where query u options) as [where_|]; [|done].
  destruct (default (NotesService.Num 1) (NotesService.o_page options)) as [|page_]; [done|].
  destruct (default (NotesService.Num 10) (NotesService.o_limit options)) as [|limit]; [done|].
  cbn [NotesService.js_sub NotesService.js_mul]. unfold bind, ret.
  destruct (NotesService.note_findMany _ _ _ _ _ _ _ _ _ db) as [[notes|e] db']; [|done].
  by destruct (NotesService.note_count _ db') as [[total|e] db''].
Qed.

(** X11. [advancedSearch] never writes.  Its page and limit arrive as
    [parseInt] left them and its visibility and sorting as plain text:
    it fails, with the store's refusal, when page or limit is NaN, when
    [(page - 1) * limit] is negative (page 0 with a positive limit), when
    the visibility is a non-empty text that names no value of the enum,
    when the store does not sort by the field and direction, and when
    it does not take [(page - 1) * limit] or [limit] as a number; in
    every other case it returns a page.  Every note on the page is a
    stored note the requester may read, returned with its latest version
    (the row of the note with the largest number) and no other, with its
    grants and with the number of its versions; the page holds at most
    [|limit|] notes and no more than the total. *)
Theorem advancedSearch_only_readable (query u : string) (options : NotesService.SearchOptions)
    (db : Db) :
  let page_ := default (NotesService.Num 1) (NotesService.o_page options) in
  let limit := default (NotesService.Num 10) (NotesService.o_limit options) in
  let visibility := NotesService.o_visibility options in
  let sorts := sortable (default "updatedAt" (NotesService.o_sortBy options))
                 (default "desc" (NotesService.o_sortOrder options)) in
  let r := NotesService.advancedSearch sortable fits orderBy query u options db in
  r.2 = db
  ∧ (page_ = NotesService.NaN ∨ limit = NotesService.NaN
     ∨ (∃ p l, page_ = NotesService.Num p ∧ limit = NotesService.Num l
               ∧ ((p - 1) * l < 0 ∨ fits ((p - 1) * l) = false ∨ fits l = false))
     ∨ (truthy_string visibility = true
        ∧ NotesService.visibility_of_string (default EmptyString visibility) = None)
     ∨ sorts = false →
     r.1 = Throw PrismaInvalidArgument)
  ∧ (∀ p l, page_ = NotesService.Num p → limit = NotesService.Num l →
       0 ≤ (p - 1) * l → int32 ((p - 1) * l) → int32 l →
       (truthy_string visibility = true →
        is_Some (NotesService.visibility_of_string (default EmptyString visibility))) →
       sorts = true →
       ∃ page, r.1 = Ok page)
  ∧ (∀ page, r.1 = Ok page →
       (∃ l, limit = NotesService.Num l
             ∧ (length (NotesService.pg_data page) ≤ Z.to_nat (Z.abs l))%nat)
       ∧ (length (NotesService.pg_data page) ≤ NotesService.pg_total page)%nat
       ∧ ∀ note, note ∈ NotesService.pg_data page →
           nr_note note ∈ tbl_note db
           ∧ canRead db (nr_note note) u
           ∧ latest_version_attached db note
           ∧ nr_noteUsers note = noteUsers_where_noteId (note_id (nr_note note)) db
           ∧ nr_count_versions note
             = Some (length (versions_where_noteId (note_id (nr_note note)) db))).
Proof.
  intros page_ limit visibility sorts r. subst r. rewrite advancedSearch_run.
  fold page_ limit.
  assert (NotesService.advancedSearch_where query u options = None
          ↔ truthy_string visibility = true
            ∧ NotesService.visibility_of_string (default EmptyString visibility) = None)
    as Hrefused.
  { unfold NotesService.advancedSearch_where, NotesService.searchConditions. fold visibility.
    destruct (truthy_string visibility).
    - destruct (NotesService.visibility_of_string _); cbn.
      + split; [done|]. by intros [_ ?].
      + done.
    - cbn. split; [done|]. by intros []. }
  destruct (NotesService.advancedSearch_where query u options) as [where_|] eqn:Hw.
  2: { cbn [fst snd]. split; [done|]. split; [done|]. split; [|done].
       intros p l _ _ _ _ _ Hvis _. destruct (proj1 Hrefused eq_refl) as [Ht Hnone].
       destruct (Hvis Ht) as [? Hsome]. congruence. }
  destruct page_ as [|p] eqn:Hp.
  { cbn [fst snd]. split; [done|]. split; [done|]. split; [|done]. by intros p l [=]. }
  destruct limit as [|l] eqn:Hl.
  { cbn [fst snd]. split; [done|]. split; [done|]. split; [|done]. by intros p' l' _ [=]. }
  pose proof (findMany_count_run where_ ((p - 1) * l) l
                (default "updatedAt" (NotesService.o_sortBy options))
                (default "desc" (NotesService.o_sortOrder options))
                NotesService.include_latest db) as (Hdb & Hfail & Hok).
  cbn zeta in Hdb, Hfail, Hok. fold sorts in Hfail, Hok.
  match goal with
  | H : context [bind ?c ?k db] |- _ =>
      destruct (bind c k db) as [[[notes total]|e] db'] eqn:Hrun
  end; cbn [fst snd] in *.
  all: split; [done|].
  - assert ((sorts && fits ((p - 1) * l) && fits l) = true ∧ 0 ≤ (p - 1) * l) as [Hacc Hskip].
    { destruct (sorts && fits ((p - 1) * l) && fits l);
        [|by specialize (Hfail (or_introl eq_refl))].
      split; [done|]. destruct (decide ((p - 1) * l < 0)) as [Hneg|]; [|lia].
      by specialize (Hfail (or_intror Hneg)). }
    destruct (Hok Hacc Hskip) as (rows & Heq & Hsub & Hlen & Hlen').
    assert (notes = NotesService.include_latest db <$> rows) as -> by congruence.
    assert (total = length (filter (λ n, matches db where_ n = true) (tbl_note db)))
      as -> by congruence.
    clear Heq.
    rewrite !andb_true_iff in Hacc. destruct Hacc as [[Hsorts Hfs] Hfl].
    split; [|split; [by eexists|]].
    { intros [?|[?|[(p' & l' & [= <-] & [= <-] & Hbad)|[[Ht Hnone]|Hacc']]]]; try done.
      - destruct Hbad as [?|[?|?]]; [lia|congruence|congruence].
      - by pose proof (proj2 Hrefused (conj Ht Hnone)).
      - congruence. }
    intros page [= <-]. cbn [NotesService.pg_data NotesService.pg_total].
    rewrite length_fmap. split; [by eexists|]. split; [done|].
    intros note (n & -> & Hn)%list_elem_of_fmap.
    apply Hsub, list_elem_of_filter in Hn as [Hm Hn].
    split; [done|]. split.
    { unfold NotesService.advancedSearch_where in Hw.
      destruct (NotesService.searchConditions query options) as [conds|]; [|done].
      injection Hw as <-.
      rewrite matches_W_AND_cons, andb_true_iff, accessControl_canRead in Hm. tauto. }
    split; [apply include_latest_attached|done].
  - assert ((sorts && fits ((p - 1) * l) && fits l) = true → 0 ≤ (p - 1) * l → False) as Hno.
    { intros Hacc Hskip. by destruct (Hok Hacc Hskip) as (rows & ? & _). }
    split; [|split; [|done]].
    + intros _. destruct (sorts && fits ((p - 1) * l) && fits l) eqn:Hacc.
      * destruct (decide ((p - 1) * l < 0)) as [Hneg|Hpos].
        -- specialize (Hfail (or_intror Hneg)). congruence.
        -- destruct Hno; [done|lia].
      * specialize (Hfail (or_introl eq_refl)). congruence.
    + intros p' l' [= <-] [= <-] Hskip Hskip32 Hl32 _ Hs. destruct Hno; [|done].
      by rewrite Hs, !fits_int32.
Qed.
End PageProperties.

Lemma findAll_page_witness :
  ∃ page,
    (NotesService.findAll any_field any_number table_order
       (mkQueryNotesDto None None None None None None None None) "bob" db2).1 = Ok page
    ∧ NotesService.pg_total page = 1%nat
    ∧ ∀ note, note ∈ NotesService.pg_data page → canRead db2 (nr_note note) "bob".
Proof.
  pose proof (findAll_page any_field any_number table_order
                (λ _ _ l, Permutation_refl l) (λ _ _, eq_refl)
                (mkQueryNotesDto None None None None None None None None) "bob" db2)
    as (_ & _ & _ & H).
  destruct H as (page & Hrun & _ & _ & _ & Htotal & _ & Hall); [reflexivity|by vm_compute|].
  exists page. split; [exact Hrun|]. split.
  - rewrite Htotal by (repeat split; by left). vm_compute. reflexivity.
  - intros note Hin. by destruct (Hall note Hin) as (_ & H & _).
Defined.

Lemma advancedSearch_only_readable_witness :
  (NotesService.advancedSearch any_field any_number table_order "plan" "bob"
     (NotesService.mkSearchOptions (Some (NotesService.Num 0)) None None None None None None)
     db2).1 = Throw PrismaInvalidArgument
  ∧ ∃ page,
      (NotesService.advancedSearch any_field any_number table_order "plan" "bob"
         (NotesService.mkSearchOptions None None None None None None None) db2).1 = Ok page.
Proof.
  split.
  - pose proof (advancedSearch_only_readable any_field any_number table_order
                  (λ _ _ l, Permutation_refl l) (λ _ _, eq_refl) "plan" "bob"
                  (NotesService.mkSearchOptions (Some (NotesService.Num 0)) None None None None
                     None None) db2) as (_ & H & _).
    apply H. right. right. left. exists 0, 10. split; [done|]. split; [done|]. by left.
  - pose proof (advancedSearch_only_readable any_field any_number table_order
                  (λ _ _ l, Permutation_refl l) (λ _ _, eq_refl) "plan" "bob"
                  (NotesService.mkSearchOptions None None None None None None None) db2)
      as (_ & _ & H & _).
    apply (H 1 10); (reflexivity || (by vm_compute) || done).
Defined.

Lemma visibility_of_string_name (v : Visibility) :
  NotesService.visibility_of_string (NotesService.visibility_name v) = Some v.
Proof. by destruct v. Qed.

Lemma visibility_name_truthy (v : Visibility) :
  truthy_string (Some (NotesService.visibility_name v)) = true.
Proof. by destruct v. Qed.

(** X12. For the same search text, tags, visibility and author,
    [advancedSearch] filters by a condition the store accepts, and that
    condition matches exactly the notes [findAll]'s condition matches
    together with the notes the requester may read that carry the search
    text as one of their tags and pass the tag, visibility and author
    filters: the text condition of [advancedSearch] adds the tag match
    and nothing else. *)
Theorem advancedSearch_covers_findAll (db : Db) (u : string) (q : QueryNotesDto) :
  ∃ where_,
    NotesService.advancedSearch_where (default EmptyString (q_search q)) u (options_of_query q)
    = Some where_
    ∧ ∀ n, matches db where_ n = true
           ↔ matches db (NotesService.findAll_where q u) n = true
             ∨ (truthy_string (q_search q) = true
                ∧ default EmptyString (q_search q) ∈ note_tags n
                ∧ canRead db n u
                ∧ passes_tags q n ∧ passes_visibility q n ∧ passes_author q n).
Proof.
  assert (∀ n, matches db (match q_tags q with
                          | Some (t :: ts) => W_tags_hasSome (t :: ts)
                          | _ => W_any
                          end) n = true ↔ passes_tags q n) as Htags.
  { intros n. unfold passes_tags. destruct (q_tags q) as [[|t ts]|]; [done| |done].
    cbn [matches]. rewrite existsb_exists. split.
    - intros (tag & Hin%list_elem_of_In & Htag%bool_decide_eq_true). by exists tag.
    - intros (tag & Hin & Htag). exists tag. split; [by apply list_elem_of_In|].
      by apply bool_decide_eq_true. }
  assert (∀ n, matches db (match q_visibility q with
                          | Some v => W_visibility v
                          | None => W_any
                          end) n = true ↔ passes_visibility q n) as Hvis.
  { intros n. unfold passes_visibility. destruct (q_visibility q) as [v|]; cbn [matches].
    - rewrite bool_decide_eq_true. split; [by intros -> ? [= <-]|]. intros H. by apply H.
    - done. }
  assert (∀ n, matches db (if truthy_string (q_authorId q)
                          then W_authorId (default EmptyString (q_authorId q))
                          else W_any) n = true ↔ passes_author q n) as Hauthor.
  { intros n. unfold passes_author. destruct (q_authorId q) as [a|]; cbn.
    - destruct (bool_decide (a ≠ EmptyString)); cbn [matches].
      + rewrite bool_decide_eq_true. split; [by intros ->|]. intros H.
        by injection (H eq_refl).
      + done.
    - done. }
  unfold NotesService.advancedSearch_where, NotesService.searchConditions.
  cbn [options_of_query NotesService.o_tags NotesService.o_visibility NotesService.o_authorId].
  assert ((if truthy_string (NotesService.visibility_name <$> q_visibility q)
           then (λ v, [ W_visibility v ])
                  <$> NotesService.visibility_of_string
                        (default EmptyString (NotesService.visibility_name <$> q_visibility q))
           else Some [])
          = Some (match q_visibility q with Some v => [ W_visibility v ] | None => [] end))
    as ->.
  { destruct (q_visibility q) as [v|]; [|done]. cbn [fmap option_fmap option_map].
    rewrite visibility_name_truthy.
    change (default EmptyString (Some ?s)) with s.
    by rewrite visibility_of_string_name. }
  cbn [mbind option_bind fmap option_fmap option_map].
  eexists. split; [done|]. intros n.
  unfold NotesService.findAll_where, NotesService.findAll_filters.
  rewrite !matches_W_AND_cons, !matches_W_AND_app, !andb_true_iff.
  rewrite accessControl_canRead, Htags, Hvis, Hauthor.
  assert (matches db (W_AND (match q_tags q with
                             | Some (t :: ts) => [ W_tags_hasSome (t :: ts) ]
                             | _ => []
                             end)) n = true ↔ passes_tags q n) as ->.
  { rewrite <- Htags. destruct (q_tags q) as [[|t ts]|]; [done| |done].
    by rewrite matches_W_AND_cons, andb_true_r. }
  assert (matches db (W_AND (match q_visibility q with
                             | Some v => [ W_visibility v ]
                             | None => []
                             end)) n = true ↔ passes_visibility q n) as ->.
  { rewrite <- Hvis. destruct (q_visibility q); [|done].
    by rewrite matches_W_AND_cons, andb_true_r. }
  assert (matches db (W_AND (if truthy_string (q_authorId q)
                             then [ W_authorId (default EmptyString (q_authorId q)) ]
                             else [])) n = true ↔ passes_author q n) as ->.
  { rewrite <- Hauthor. destruct (truthy_string (q_authorId q)); [|done].
    by rewrite matches_W_AND_cons, andb_true_r. }
  destruct (q_search q) as [s|]; cbn [truthy_string].
  - change (default EmptyString (Some s)) with s.
    destruct (bool_decide (s ≠ EmptyString)).
    + rewrite matches_W_AND_cons, andb_true_r. cbn [matches existsb].
      rewrite !orb_false_r, !orb_true_iff, !bool_decide_eq_true. cbn [matches forallb].
      tauto.
    + cbn [matches forallb]. split; [tauto|]. intros [?|[? _]]; [tauto|done].
  - cbn [matches forallb]. change (bool_decide (default EmptyString None ≠ EmptyString)) with false.
    cbn [matches forallb]. split; [tauto|]. intros [?|[? _]]; [tauto|done].
Qed.

(** ** Search suggestions *)

Lemma ascii_toLower_idemp (c : ascii) : ascii_toLower (ascii_toLower c) = ascii_toLower c.
Proof. destruct c as [[] [] [] [] [] [] [] []]; reflexivity. Qed.

Lemma toLowerCase_idemp (s : string) : toLowerCase (toLowerCase s) = toLowerCase s.
Proof. induction s as [|c s IH]; [done|]. cbn. by rewrite ascii_toLower_idemp, IH. Qed.

Lemma toLowerCase_app (s1 s2 : string) :
  toLowerCase (s1 +:+ s2) = toLowerCase s1 +:+ toLowerCase s2.
Proof.
  induction s1 as [|c s1 IH]; [done|].
  change (String c s1 +:+ s2) with (String c (s1 +:+ s2)).
  cbn [toLowerCase]. by rewrite IH.
Qed.

(** The pieces of a lower-case string are lower-case. *)
Lemma split_whitespace_from_lower (word : string) (in_gap : bool) (s : string) :
  toLowerCase word = word →
  toLowerCase s = s →
  Forall (λ w, toLowerCase w = w) (split_whitespace_from word in_gap s).
Proof.
  revert word in_gap. induction s as [|c s IH]; intros word in_gap Hw Hs;
    cbn [split_whitespace_from].
  - by constructor.
  - cbn in Hs. injection Hs as Hc Hs.
    destruct (is_whitespace c).
    + destruct in_gap; [by apply IH|]. constructor; [done|]. by apply IH.
    + apply IH; [|done]. rewrite toLowerCase_app, Hw. cbn. by rewrite Hc.
Qed.

Lemma split_whitespace_lower (s : string) :
  Forall (λ w, toLowerCase w = w) (split_whitespace (toLowerCase s)).
Proof. apply split_whitespace_from_lower; [done|apply toLowerCase_idemp]. Qed.

Lemma set_add_NoDup (x : string) (set : list string) : NoDup set → NoDup (set_add x set).
Proof.
  intros Hnd. unfold set_add. case_decide; [done|].
  apply NoDup_app. split; [done|]. split; [|apply NoDup_singleton].
  intros y Hy ->%list_elem_of_singleton. done.
Qed.

(** A loop that adds the items passing a test keeps the set free of
    repeats and adds only items of the list that pass. *)
Lemma foldl_set_add (test : string → bool) (items acc : list string) :
  let out := foldl (λ a x, if test x then set_add x a else a) acc items in
  (NoDup acc → NoDup out)
  ∧ ∀ s, s ∈ out → s ∈ acc ∨ (s ∈ items ∧ test s = true).
Proof.
  revert acc. induction items as [|x items IH]; intros acc; cbn.
  - split; [done|]. by left.
  - destruct (IH (if test x then set_add x acc else acc)) as [Hnd Hin].
    split.
    + intros Hacc. apply Hnd. destruct (test x); [by apply set_add_NoDup|done].
    + intros s Hs. destruct (Hin s Hs) as [Hs'|[Hs' Ht]].
      * destruct (test x) eqn:Hx; [|by left].
        unfold set_add in Hs'. case_decide; [by left|].
        apply elem_of_app in Hs' as [?|Heq%list_elem_of_singleton]; [by left|subst s].
        right. split; [apply elem_of_cons; by left|done].
      * right. split; [apply elem_of_cons; by right|done].
Qed.

Lemma add_suggestions_spec (query : string) (acc : list string) (n : Note) :
  let out := NotesService.add_suggestions query acc n in
  (NoDup acc → NoDup out)
  ∧ ∀ s, s ∈ out →
      s ∈ acc
      ∨ (includes (toLowerCase s) (toLowerCase query) = true
         ∧ (s ∈ note_tags n
            ∨ (s ∈ split_whitespace (toLowerCase (note_title n))
               ∧ (2 < String.length s)%nat))).
Proof.
  unfold NotesService.add_suggestions. cbn zeta.
  set (word_test := λ word, includes word (toLowerCase query)
                            && bool_decide (2 < String.length word)%nat).
  set (tag_test := λ tag, includes (toLowerCase tag) (toLowerCase query)).
  destruct (foldl_set_add word_test (split_whitespace (toLowerCase (note_title n))) acc)
    as [Hnd1 Hin1].
  cbn zeta in Hnd1, Hin1.
  set (after_words := foldl _ acc (split_whitespace (toLowerCase (note_title n)))) in *.
  destruct (foldl_set_add tag_test (note_tags n) after_words) as [Hnd2 Hin2].
  cbn zeta in Hnd2, Hin2.
  split; [by auto|].
  intros s Hs. destruct (Hin2 s Hs) as [Hs'|[Htag Htest]].
  - destruct (Hin1 s Hs') as [?|[Hword Htest]]; [by left|]. right.
    unfold word_test in Htest. apply andb_true_iff in Htest as [Hinc Hlen].
    apply bool_decide_eq_true in Hlen.
    pose proof (split_whitespace_lower (note_title n)) as Hlow.
    rewrite Forall_forall in Hlow. rewrite (Hlow s Hword). auto.
  - right. auto.
Qed.

Lemma foldl_add_suggestions_spec (query : string) (notes : list Note) (acc : list string) :
  let out := foldl (NotesService.add_suggestions query) acc notes in
  (NoDup acc → NoDup out)
  ∧ ∀ s, s ∈ out →
      s ∈ acc
      ∨ (includes (toLowerCase s) (toLowerCase query) = true
         ∧ ∃ n, n ∈ notes
                ∧ (s ∈ note_tags n
                   ∨ (s ∈ split_whitespace (toLowerCase (note_title n))
                      ∧ (2 < String.length s)%nat))).
Proof.
  revert acc. induction notes as [|n notes IH]; intros acc; cbn.
  - split; [done|]. by left.
  - destruct (IH (NotesService.add_suggestions query acc n)) as [Hnd Hin].
    destruct (add_suggestions_spec query acc n) as [Hnd1 Hin1].
    split; [by auto|].
    intros s Hs. destruct (Hin s Hs) as [Hs'|(Hinc & m & Hm & Hfrom)].
    + destruct (Hin1 s Hs') as [?|[Hinc Hfrom]]; [by left|].
      right. split; [done|]. exists n. split; [apply elem_of_cons; by left|done].
    + right. split; [done|]. exists m. split; [apply elem_of_cons; by right|done].
Qed.

(** X13. [getSearchSuggestions] never fails and never writes.  It
    returns at most 8 suggestions, none twice, and none at all for a query
    shorter than two characters.  Every suggestion contains the query when
    both are put in lower case, and is either a tag, or a word of more
    than two characters of the lower-cased title, of a stored note that
    the requester may read. *)
Theorem getSearchSuggestions_bounds (u query : string) (db : Db) :
  ∃ suggestions,
    NotesService.getSearchSuggestions u query db = (Ok suggestions, db)
    ∧ (length suggestions ≤ 8)%nat
    ∧ NoDup suggestions
    ∧ ((String.length query < 2)%nat → suggestions = [])
    ∧ ∀ s, s ∈ suggestions →
        includes (toLowerCase s) (toLowerCase query) = true
        ∧ ∃ n, n ∈ tbl_note db
               ∧ canRead db n u
               ∧ (s ∈ note_tags n
                  ∨ (s ∈ split_whitespace (toLowerCase (note_title n))
                     ∧ (2 < String.length s)%nat)).
Proof.
  unfold NotesService.getSearchSuggestions.
  destruct (bool_decide (query = EmptyString) || bool_decide (String.length query < 2)%nat)
    eqn:Hguard.
  { exists []. split; [done|]. split; [cbn; lia|]. split; [constructor|].
    split; [done|]. by intros s ?%elem_of_nil. }
  apply orb_false_iff in Hguard as [_ Hlen]. apply bool_decide_eq_false in Hlen.
  unfold bind, get_db, ret. cbn zeta. eexists. split; [done|].
  set (notes := take 10 (filter _ (tbl_note db))).
  destruct (foldl_add_suggestions_spec query notes []) as [Hnd Hin]. cbn zeta in Hnd, Hin.
  split; [rewrite length_take; lia|].
  split; [eapply sublist_NoDup; [apply Hnd; constructor|apply sublist_take]|].
  split; [done|].
  intros s Hs%subseteq_take. destruct (Hin s Hs) as [?%elem_of_nil|(Hinc & n & Hn & Hfrom)];
    [done|].
  split; [done|]. exists n.
  apply subseteq_take, list_elem_of_filter in Hn as [Hm Hn].
  unfold NotesService.suggestions_where in Hm.
  rewrite matches_W_AND_cons, andb_true_iff, accessControl_canRead in Hm.
  split; [done|]. split; [tauto|done].
Qed.

(** ** Candidates for sharing *)

(** X14. The candidates [getUsersToShareNote] offers are active plain
    users other than the requester.  With user ids as the primary key,
    the author can share a note with any repeat-free choice of them: the
    share goes through and no grant of the note names the author. *)
Theorem candidates_can_be_shared (id u : string) (name : option string) (db : Db) (n : Note)
    (candidates : list User) (S : list string) :
  user_ids_unique db →
  note_where_id id db = Some n →
  note_authorId n = u →
  (NotesService.getUsersToShareNote u name db).1 = Ok candidates →
  NoDup S →
  (∀ s, s ∈ S → s ∈ user_id <$> candidates) →
  (∀ c, c ∈ candidates →
        c ∈ tbl_user db ∧ user_isActive c = true ∧ user_role c = USER ∧ user_id c ≠ u)
  ∧ (∃ result, (NotesService.shareNote id S u db).1 = Ok result)
  ∧ ∀ g, g ∈ noteUsers_where_noteId id (NotesService.shareNote id S u db).2 → nu_userId g ≠ u.
Proof.
  intros Hkey Hn Hu Hc HS Hpick.
  assert (∀ c, c ∈ candidates →
            c ∈ tbl_user db ∧ user_isActive c = true ∧ user_role c = USER ∧ user_id c ≠ u)
    as Hcand.
  { revert Hc. unfold NotesService.getUsersToShareNote, bind, get_db, ret. cbn.
    intros [= <-] c [Hc Hin]%list_elem_of_filter.
    rewrite !andb_true_iff, !bool_decide_eq_true in Hc. tauto. }
  split; [done|].
  assert (all_users_exist S db) as Hall.
  { intros s Hs. apply Hpick, list_elem_of_fmap in Hs as (c & -> & Hcin).
    apply list_elem_of_fmap. exists c. split; [done|]. by apply Hcand. }
  assert (NotesService.shareNote id S u db
          = (Ok (include_noteUsers (shared_db id S n db) <$> note_where_id id (shared_db id S n db)),
             shared_db id S n db)) as Hrun.
  { rewrite shareNote_unfold, Hn.
    rewrite (decide_True (P := canRead db n u)) by (by left).
    rewrite (decide_True (P := note_authorId n = u)) by done.
    by rewrite decide_True by (by apply users_found_iff). }
  rewrite Hrun. cbn [fst snd]. split; [by eexists|].
  intros g Hg. unfold noteUsers_where_noteId in Hg. rewrite shared_db_noteUser in Hg.
  fold (noteUsers_where_noteId id (with_grants id S db)) in Hg.
  rewrite grants_after_share in Hg. unfold NotesService.share_rows in Hg.
  apply list_elem_of_fmap in Hg as (s & -> & Hs). cbn.
  apply Hpick, list_elem_of_fmap in Hs as (c & -> & Hcin). by apply Hcand.
Qed.

Lemma candidates_can_be_shared_witness :
  ∃ result, (NotesService.shareNote "n1" ["carol"; "bob"] "alice" db1).1 = Ok result.
Proof.
  assert (user_ids_unique db1) as Hkey.
  { unfold user_ids_unique. apply (bool_decide_unpack _). vm_compute. exact I. }
  assert (NoDup ["carol"; "bob"]) as Hnd.
  { apply (bool_decide_unpack _). vm_compute. exact I. }
  destruct (candidates_can_be_shared "n1" "alice" None db1 note1 [bob; carol] ["carol"; "bob"]
              Hkey eq_refl eq_refl eq_refl Hnd) as (_ & H & _).
  - intros s Hs. revert s Hs. apply Forall_forall.
    apply (bool_decide_unpack _). vm_compute. exact I.
  - exact H.
Defined.

(** ** Notifications *)

Lemma unread_after_markRead (u w : string) (l : list Notification) :
  filter (unread_of w)
    ((λ n, if decide (unread_of u n) then notification_markRead n else n) <$> l)
  = if decide (w = u) then [] else filter (unread_of w) l.
Proof.
  induction l as [|n l IH]; [by case_decide|].
  rewrite fmap_cons, !filter_cons, IH.
  destruct (decide (unread_of u n)) as [[Hu Hr]|Hn].
  - rewrite decide_False by (unfold unread_of; cbn; intros [_ ?]; done).
    destruct (decide (w = u)) as [->|Hne]; [done|].
    by rewrite decide_False by (unfold unread_of; intros [? _]; congruence).
  - destruct (decide (w = u)) as [->|Hne]; [by rewrite decide_False|done].
Qed.

Lemma markRead_content (u : string) (l : list Notification) :
  ntf_content <$> ((λ n, if decide (unread_of u n) then notification_markRead n else n) <$> l)
  = ntf_content <$> l.
Proof.
  induction l as [|n l IH]; [done|]. rewrite !fmap_cons, IH. f_equal. by case_decide.
Qed.

(** X15. [markAllAsRead] returns the number of the user's unread
    notifications and leaves that user with none unread.  It changes no
    row in anything but the read flag, removes none, leaves the unread
    count of every other user as it was, and a second call returns 0 and
    changes nothing. *)
Theorem markAllAsRead_zeroes (u : string) (db : Db) :
  let r := NotificationsService.markAllAsRead u db in
  r.1 = Ok (unread_count u db)
  ∧ NotificationsService.getUnreadCount u r.2 = (Ok 0%nat, r.2)
  ∧ (∀ w, w ≠ u → NotificationsService.getUnreadCount w r.2 = (Ok (unread_count w db), r.2))
  ∧ ntf_content <$> tbl_notification r.2 = ntf_content <$> tbl_notification db
  ∧ NotificationsService.markAllAsRead u r.2 = (Ok 0%nat, r.2).
Proof.
  cbn zeta.
  unfold NotificationsService.markAllAsRead, NotificationsService.getUnreadCount,
    notification_updateMany_read, notification_count_unread, bind, get_db, modify_db, ret.
  cbn [fst snd set_tbl_notification tbl_notification].
  split; [done|]. split; [by rewrite unread_after_markRead, decide_True|].
  split.
  { intros w Hw. by rewrite unread_after_markRead, decide_False. }
  split; [apply markRead_content|].
  rewrite unread_after_markRead, decide_True by done. cbn [length]. f_equal.
  unfold set_tbl_notification. cbn. f_equal.
  rewrite <- list_fmap_compose. apply list_fmap_ext. intros i n _. cbn.
  destruct (decide (unread_of u n)) as [[Hu Hr]|Hn].
  - by rewrite decide_False by (unfold unread_of; cbn; intros [_ ?]; done).
  - by rewrite decide_False.
Qed.

Lemma unread_count_app (w : string) (db : Db) (rows : list Notification) :
  unread_count w (set_tbl_notification (λ t, t ++ rows) db)
  = (unread_count w db + length (filter (unread_of w) rows))%nat.
Proof. unfold unread_count. cbn. by rewrite filter_app, length_app. Qed.

(** X16. [createNoteUpdatedNotification] appends one unread NOTE_UPDATED
    row per entry of the list it is given, in order and with repeats, and
    touches nothing else; with the empty list it writes nothing.  The
    unread count of a user grows by the number of times the list names
    them, so an author who is in the list is notified of their own
    update. *)
Theorem createNoteUpdatedNotification_rows (noteId noteTitle authorId : string)
    (sharedUserIds : list string) (db : Db) :
  let r := NotificationsService.createNoteUpdatedNotification
             noteId noteTitle authorId sharedUserIds db in
  r.1 = Ok tt
  ∧ (∃ rows, r.2 = set_tbl_notification (λ t, t ++ rows) db
             ∧ ntf_userId <$> rows = sharedUserIds
             ∧ Forall (λ row, ntf_type row = NOTE_UPDATED
                              ∧ ntf_read row = false
                              ∧ ntf_title row = "Note Updated"
                              ∧ ntf_data row = (noteId, authorId)) rows)
  ∧ (sharedUserIds = [] → r.2 = db)
  ∧ ∀ w, unread_count w r.2
         = (unread_count w db + length (filter (λ x, x = w) sharedUserIds))%nat.
Proof.
  cbn zeta.
  unfold NotificationsService.createNoteUpdatedNotification,
    NotificationsService.user_findUnique_name, bind, get_db, ret. cbn zeta.
  set (mk := λ userId : string, mkNotification userId NOTE_UPDATED "Note Updated" _ _ false).
  assert ((if bool_decide (0 < length (mk <$> sharedUserIds))%nat
           then notification_createMany (mk <$> sharedUserIds) else λ d, (Ok tt, d)) db
          = (Ok tt, set_tbl_notification (λ t, t ++ (mk <$> sharedUserIds)) db)) as ->.
  { destruct sharedUserIds as [|x l]; cbn; [|done].
    unfold set_tbl_notification. rewrite app_nil_r. by destruct db. }
  cbn [fst snd]. split; [done|]. split; [|split].
  - exists (mk <$> sharedUserIds). split; [done|]. split.
    + rewrite <- list_fmap_compose. induction sharedUserIds as [|x l IH]; [done|].
      by rewrite fmap_cons, IH.
    + apply Forall_fmap, Forall_forall. by intros x _.
  - intros ->. cbn. unfold set_tbl_notification. rewrite app_nil_r. by destruct db.
  - intros w. rewrite unread_count_app. f_equal.
    induction sharedUserIds as [|x l IH]; [done|].
    rewrite fmap_cons, !filter_cons.
    destruct (decide (x = w)) as [->|Hne].
    + rewrite decide_True by done. cbn. by rewrite IH.
    + rewrite decide_False; [done|]. unfold unread_of. cbn. intros [? _]. done.
Qed.

(** X17. [createNoteSharedNotification] appends one unread NOTE_SHARED
    row for the user it is given and returns it: that user's unread count
    grows by one and nobody else's changes.  The message names the sharer
    by their name, or as "Someone" when no user has the sharer's id or
    the name is empty. *)
Theorem createNoteSharedNotification_row (noteId noteTitle target sharer : string) (db : Db) :
  let r := NotificationsService.createNoteSharedNotification noteId noteTitle target sharer db in
  ∃ row, r = (Ok row, set_tbl_notification (λ t, t ++ [row]) db)
         ∧ ntf_userId row = target
         ∧ ntf_type row = NOTE_SHARED
         ∧ ntf_read row = false
         ∧ ntf_data row = (noteId, sharer)
         ∧ ntf_message row
           = display_name sharer db +:+ " shared a note "
             +:+ NotificationsService.dquote +:+ noteTitle +:+ NotificationsService.dquote
             +:+ " with you"
         ∧ unread_count target r.2 = S (unread_count target db)
         ∧ ∀ w, w ≠ target → unread_count w r.2 = unread_count w db.
Proof.
  cbn zeta.
  unfold NotificationsService.createNoteSharedNotification,
    NotificationsService.user_findUnique_name, NotificationsService.create,
    notification_create, bind, get_db, modify_db, ret. cbn zeta.
  eexists. split; [reflexivity|]. cbn [ntf_userId ntf_type ntf_read ntf_data ntf_message snd].
  repeat (split; [done|]).
  split; [|split].
  - f_equal. unfold display_name.
    destruct (head (filter _ (tbl_user db))) as [user|]; cbn; [|done].
    by destruct (decide (user_name user = EmptyString)) as [->|Hne];
      [|rewrite bool_decide_eq_true_2 by done].
  - rewrite unread_count_app, filter_cons. rewrite decide_True by (by split). cbn. lia.
  - intros w Hw. rewrite unread_count_app, filter_cons. rewrite decide_False; [cbn; lia|].
    unfold unread_of. cbn. intros [? _]. congruence.
Qed.

(** ** Connecting *)

Section ConnectionProperties.
Import WebSocketGateway.
Variable verify : string → option string.

Lemma handleConnection_authenticate (db : Db) (g : Gateway) (client : string) (h : Handshake) :
  handleConnection verify db g client h =
  match authenticate verify db h with
  | Some user =>
      mkGateway (<[user_id user := client]> (connectedUsers g))
                (<[client := user_id user]> (socket_userId g))
                (live g)
  | None => client_disconnect g client
  end.
Proof.
  unfold handleConnection, authenticate. cbn zeta.
  destruct (negb (truthy_string (handshake_token h))); [done|].
  destruct (verify (default EmptyString (handshake_token h))); [|done].
  by destruct (head (filter _ (tbl_user db))).
Qed.

Lemma authenticate_user (db : Db) (h : Handshake) (user : User) :
  authenticate verify db h = Some user → user ∈ tbl_user db.
Proof.
  unfold authenticate. cbn zeta.
  destruct (negb (truthy_string (handshake_token h))); [done|].
  destruct (verify (default EmptyString (handshake_token h))); [|done].
  intros H%head_Some_elem_of%list_elem_of_filter. tauto.
Qed.


End ConnectionProperties.

Lemma substring_whole (t : string) : String.substring 0 (String.length t) t = t.
Proof. induction t as [|c t IH]; [done|]. cbn. by rewrite IH. Qed.

Lemma replace_Bearer (t : string) :
  WebSocketGateway.replace "Bearer " EmptyString ("Bearer " +:+ t) = t.
Proof.
  change ("Bearer " +:+ t)
    with (String "B" (String "e" (String "a" (String "r" (String "e" (String "r"
            (String " " t))))))).
  cbn. destruct t as [|c t]; [done|]. cbn. by rewrite substring_whole.
Qed.

(** X19. Where the token of a handshake comes from.  A non-empty
    [auth.token] is the token, whatever the header says.  Without one (or
    with an empty one) the token is the authorization header with its
    leading "Bearer " taken off.  With neither there is no token, and a
    header that is just "Bearer " gives the empty token; both are refused
    before any verification. *)
Theorem handshake_token_sources (t : string) (header : option string)
    (verify : string → option string) (db : Db) (g : WebSocketGateway.Gateway) (client : string) :
  (t ≠ EmptyString →
     WebSocketGateway.handshake_token (WebSocketGateway.mkHandshake (Some t) header) = Some t)
  ∧ WebSocketGateway.handshake_token
      (WebSocketGateway.mkHandshake None (Some ("Bearer " +:+ t))) = Some t
  ∧ WebSocketGateway.handshake_token
      (WebSocketGateway.mkHandshake (Some EmptyString) (Some ("Bearer " +:+ t))) = Some t
  ∧ WebSocketGateway.authenticate verify db (WebSocketGateway.mkHandshake None None) = None
  ∧ WebSocketGateway.authenticate verify db
      (WebSocketGateway.mkHandshake None (Some "Bearer ")) = None
  ∧ WebSocketGateway.handleConnection verify db g client
      (WebSocketGateway.mkHandshake None (Some "Bearer "))
    = WebSocketGateway.client_disconnect g client.
Proof.
  split.
  { intros Ht. unfold WebSocketGateway.handshake_token. cbn.
    by rewrite bool_decide_eq_true_2. }
  unfold WebSocketGateway.handshake_token. cbn [truthy_string WebSocketGateway.auth_token
    WebSocketGateway.headers_authorization].
  rewrite bool_decide_eq_false_2 by (intros H; by apply H).
  cbn [fmap option_fmap option_map]. rewrite replace_Bearer.
  repeat split; reflexivity.
Qed.

(** ** The registry and the await *)

Section RegistryInvariant.
Import WebSocketGateway.
Variable verify : string → option string.
Variable db : Db.

(** With nothing in between, the two halves of the handler are [step]. *)
Lemma turn_Opened_Answered (p : Pending) (client : string) (h : Handshake) :
  awaiting p !! client = None →
  turns verify db p [Opened client h; Answered client]
  = mkPending (step verify db (gateway p) (Connect client h)) (awaiting p).
Proof.
  intros Hfree. unfold turns. cbn [foldl turn step].
  unfold handleConnection_begin, handleConnection, handleConnection_resume.
  cbn [gateway awaiting].
  destruct (negb (truthy_string (handshake_token h))).
  { cbn [gateway awaiting]. by rewrite Hfree. }
  destruct (verify (default EmptyString (handshake_token h))) as [sub|].
  2: { cbn [gateway awaiting]. by rewrite Hfree. }
  cbn [gateway awaiting]. rewrite lookup_insert_eq, delete_insert_id by done.
  destruct (head (filter _ (tbl_user db))); [done|].
  cbn [live]. rewrite decide_True; [done|].
  apply elem_of_union. left. by apply elem_of_singleton.
Qed.

Hypothesis ids_nonempty : user_ids_nonempty db.

Lemma handleDisconnect_sound (g : Gateway) (client : string) :
  carries_nonempty g →
  (∀ u s, connectedUsers g !! u = Some s →
          (s ∈ live g ∨ s = client) ∧ socket_userId g !! s = Some u) →
  client ∉ live g →
  registry_sound (handleDisconnect g client).
Proof.
  intros Hne Hsound Hclosed u s. unfold handleDisconnect.
  destruct (socket_userId g !! client) as [uid|] eqn:Hc; cbn [truthy_string].
  - rewrite bool_decide_eq_true_2 by (by eapply Hne). cbn [connectedUsers live socket_userId].
    intros [Hu Hus]%lookup_delete_Some. destruct (Hsound u s Hus) as [[Hl|Heq] Hs].
    + done.
    + subst s. congruence.
  - intros Hus. destruct (Hsound u s Hus) as [[Hl|Heq] Hs]; [done|subst s; congruence].
Qed.

(** Closing a socket keeps the registry sound and touches no other socket. *)
Lemma client_disconnect_sound (g : Gateway) (client : string) :
  carries_nonempty g →
  registry_sound g →
  carries_nonempty (client_disconnect g client)
  ∧ registry_sound (client_disconnect g client)
  ∧ socket_userId (client_disconnect g client) = socket_userId g
  ∧ live (client_disconnect g client) = live g ∖ {[client]}.
Proof.
  intros Hne Hsound.
  assert (socket_userId (client_disconnect g client) = socket_userId g
          ∧ live (client_disconnect g client) = live g ∖ {[client]}) as [Hsock Hlive].
  { unfold client_disconnect, handleDisconnect. cbn [socket_userId live].
    destruct (truthy_string (socket_userId g !! client)); [|done].
    by destruct (socket_userId g !! client). }
  split; [|split; [|done]].
  - intros s u. rewrite Hsock. apply Hne.
  - unfold client_disconnect. apply handleDisconnect_sound.
    + done.
    + cbn [connectedUsers live socket_userId]. intros u s Hus.
      destruct (Hsound u s Hus) as [Hl Hs]. split; [|done].
      destruct (decide (s = client)) as [->|Hne']; [by right|left].
      apply elem_of_difference. split; [done|]. by intros ?%elem_of_singleton.
    + cbn [live]. rewrite elem_of_difference. intros [_ Hc]. by apply Hc, elem_of_singleton.
Qed.

(** Registering an open socket that carries no user id yet. *)
Lemma register_sound (g : Gateway) (user : User) (client : string) :
  user ∈ tbl_user db →
  carries_nonempty g →
  registry_sound g →
  client ∈ live g →
  socket_userId g !! client = None →
  let g' := mkGateway (<[user_id user := client]> (connectedUsers g))
                      (<[client := user_id user]> (socket_userId g)) (live g) in
  carries_nonempty g' ∧ registry_sound g'.
Proof.
  intros Huser Hne Hsound Hlive Hfresh g'. subst g'. split.
  - intros s u. cbn [socket_userId].
    destruct (decide (s = client)) as [->|Hs].
    + rewrite lookup_insert_eq. intros [= <-]. by apply ids_nonempty.
    + rewrite lookup_insert_ne by done. apply Hne.
  - intros u s. cbn [connectedUsers socket_userId live].
    destruct (decide (u = user_id user)) as [->|Hu].
    + rewrite lookup_insert_eq. intros [= <-]. by rewrite lookup_insert_eq.
    + rewrite lookup_insert_ne by done. intros Hus.
      destruct (Hsound u s Hus) as [Hl Hs].
      assert (s ≠ client) by congruence.
      by rewrite lookup_insert_ne.
Qed.

(** What a timely run keeps: the registry is sound, and a socket whose
    handler waits is open and carries no user id yet. *)
Lemma turn_sound (p : Pending) (t : Turn) :
  carries_nonempty (gateway p) →
  registry_sound (gateway p) →
  (∀ c sub, awaiting p !! c = Some sub →
            c ∈ live (gateway p) ∧ socket_userId (gateway p) !! c = None) →
  match t with
  | Opened client _ => socket_userId (gateway p) !! client = None ∧ awaiting p !! client = None
  | Answered _ => True
  | Closed client => awaiting p !! client = None
  end →
  let p' := turn verify db p t in
  carries_nonempty (gateway p')
  ∧ registry_sound (gateway p')
  ∧ ∀ c sub, awaiting p' !! c = Some sub →
             c ∈ live (gateway p') ∧ socket_userId (gateway p') !! c = None.
Proof.
  intros Hne Hsound Hwait Ht. destruct t as [client h|client|client]; cbn [turn]; cbn zeta.
  - destruct Ht as [Hfresh Hfree].
    set (g0 := mkGateway (connectedUsers (gateway p)) (socket_userId (gateway p))
                         ({[client]} ∪ live (gateway p))).
    assert (carries_nonempty g0) as Hne0 by done.
    assert (registry_sound g0) as Hsound0.
    { intros u s Hus. destruct (Hsound u s Hus) as [Hl Hs]. split; [|done].
      apply elem_of_union. by right. }
    assert (∀ c sub, awaiting p !! c = Some sub →
                     c ∈ live (client_disconnect g0 client)
                     ∧ socket_userId (client_disconnect g0 client) !! c = None) as Hclosed.
    { intros c sub Hc. destruct (Hwait c sub Hc) as [Hl Hs].
      destruct (client_disconnect_sound g0 client Hne0 Hsound0) as (_ & _ & -> & ->).
      split; [|done]. apply elem_of_difference. split.
      - apply elem_of_union. by right.
      - intros ->%elem_of_singleton. congruence. }
    unfold handleConnection_begin. cbn [gateway awaiting].
    destruct (negb (truthy_string (handshake_token h))).
    { cbn [gateway awaiting].
      destruct (client_disconnect_sound g0 client Hne0 Hsound0) as (? & ? & _). done. }
    destruct (verify (default EmptyString (handshake_token h))) as [sub|].
    2: { cbn [gateway awaiting].
         destruct (client_disconnect_sound g0 client Hne0 Hsound0) as (? & ? & _). done. }
    cbn [gateway awaiting]. split; [done|]. split; [done|].
    intros c sub' Hc. destruct (decide (c = client)) as [->|Hcne].
    + split; [|done]. apply elem_of_union. left. by apply elem_of_singleton.
    + rewrite lookup_insert_ne in Hc by done. destruct (Hwait c sub' Hc) as [Hl Hs].
      split; [|done]. apply elem_of_union. by right.
  - unfold handleConnection_resume.
    destruct (awaiting p !! client) as [sub|] eqn:Hsub; [|done].
    destruct (Hwait client sub Hsub) as [Hlive Hfresh].
    cbn [gateway awaiting].
    destruct (head (filter _ (tbl_user db))) as [user|] eqn:Huser.
    + apply head_Some_elem_of, list_elem_of_filter in Huser as [_ Huser].
      destruct (register_sound (gateway p) user client Huser Hne Hsound Hlive Hfresh)
        as [Hne' Hsound'].
      split; [done|]. split; [done|].
      intros c sub' [Hcne Hc]%lookup_delete_Some. cbn [live socket_userId].
      destruct (Hwait c sub' Hc) as [Hl Hs]. split; [done|].
      by rewrite lookup_insert_ne.
    + rewrite decide_True by done.
      destruct (client_disconnect_sound (gateway p) client Hne Hsound) as (? & ? & Hs' & Hl').
      split; [done|]. split; [done|].
      intros c sub' [Hcne Hc]%lookup_delete_Some. rewrite Hs', Hl'.
      destruct (Hwait c sub' Hc) as [Hl Hs]. split; [|done].
      apply elem_of_difference. split; [done|]. by intros ?%elem_of_singleton.
  - cbn [gateway awaiting].
    destruct (client_disconnect_sound (gateway p) client Hne Hsound) as (? & ? & Hs' & Hl').
    split; [done|]. split; [done|].
    intros c sub Hc. rewrite Hs', Hl'. destruct (Hwait c sub Hc) as [Hl Hs]. split; [|done].
    apply elem_of_difference. split; [done|]. intros ->%elem_of_singleton. congruence.
Qed.

Lemma turns_sound (ts : list Turn) (p : Pending) :
  carries_nonempty (gateway p) →
  registry_sound (gateway p) →
  (∀ c sub, awaiting p !! c = Some sub →
            c ∈ live (gateway p) ∧ socket_userId (gateway p) !! c = None) →
  timely verify db p ts →
  registry_sound (gateway (turns verify db p ts)).
Proof.
  revert p. induction ts as [|t ts IH]; intros p Hne Hsound Hwait Htimely; [done|].
  destruct Htimely as [Ht Hrest].
  destruct (turn_sound p t Hne Hsound Hwait Ht) as (Hne' & Hsound' & Hwait').
  change (turns verify db p (t :: ts)) with (turns verify db (turn verify db p t) ts).
  by apply IH.
Qed.

(** A socket that closes while its handler waits is registered all the
    same once the lookup answers. *)
Lemma closed_while_awaiting (p : Pending) (client : string) (h : Handshake) (user : User) :
  authenticate verify db h = Some user →
  let p' := turns verify db p [Opened client h; Closed client; Answered client] in
  connectedUsers (gateway p') !! user_id user = Some client
  ∧ socket_userId (gateway p') !! client = Some (user_id user)
  ∧ (client ∉ live (gateway p'))
  ∧ awaiting p' !! client = None.
Proof.
  unfold authenticate. cbn zeta. intros Hauth.
  unfold turns. cbn [foldl turn]. unfold handleConnection_begin. cbn [gateway awaiting].
  destruct (negb (truthy_string (handshake_token h))); [done|].
  destruct (verify (default EmptyString (handshake_token h))) as [sub|]; [|done].
  cbn [gateway awaiting]. unfold handleConnection_resume. cbn [gateway awaiting].
  rewrite lookup_insert_eq, Hauth. cbn [gateway awaiting connectedUsers socket_userId live].
  rewrite !lookup_insert_eq, lookup_delete_eq. split; [done|]. split; [done|]. split; [|done].
  set (g0 := mkGateway _ _ _).
  assert (live (client_disconnect g0 client) = live g0 ∖ {[client]}) as ->.
  { unfold client_disconnect, handleDisconnect. cbn [socket_userId live].
    destruct (truthy_string (socket_userId g0 !! client)); [|done].
    by destruct (socket_userId g0 !! client). }
  rewrite elem_of_difference. intros [_ Hc]. by apply Hc, elem_of_singleton.
Qed.
End RegistryInvariant.

(** X20. The registry and the handler's await.  Take a run of the
    gateway from the empty registry in which every opening socket has a
    fresh id, over users none of whom has the empty id.  If no socket
    closes while its own [handleConnection] is still waiting for the
    user lookup, every registry entry names a socket that is open and
    carries that user's id, so a user reported online has an open
    socket.  The condition is needed: from any state, a socket whose
    handshake authenticates and which closes before the lookup answers
    is registered when the lookup answers, and the registry then names a
    closed socket and reports its user online. *)
Theorem registry_points_to_open_sockets (verify : string → option string) (db : Db)
    (ts : list WebSocketGateway.Turn) :
  user_ids_nonempty db →
  (timely verify db WebSocketGateway.empty_pending ts →
   let g := WebSocketGateway.gateway
              (WebSocketGateway.turns verify db WebSocketGateway.empty_pending ts) in
   registry_sound g
   ∧ ∀ u, WebSocketGateway.isUserOnline g u = true → ∃ s, live_socket_of g s u)
  ∧ (∀ p client h user,
       WebSocketGateway.authenticate verify db h = Some user →
       let g := WebSocketGateway.gateway
                  (WebSocketGateway.turns verify db p
                     [WebSocketGateway.Opened client h; WebSocketGateway.Closed client;
                      WebSocketGateway.Answered client]) in
       WebSocketGateway.connectedUsers g !! user_id user = Some client
       ∧ (client ∉ WebSocketGateway.live g)
       ∧ WebSocketGateway.isUserOnline g (user_id user) = true
       ∧ ¬ registry_sound g).
Proof.
  intros Hne. split.
  - intros Htimely g.
    assert (registry_sound g) as Hsound.
    { apply (turns_sound verify db Hne); [| | |done].
      - intros s u. cbn. by rewrite lookup_empty.
      - intros u s. cbn. by rewrite lookup_empty.
      - intros c sub. cbn. by rewrite lookup_empty. }
    split; [done|].
    intros u Hon. unfold WebSocketGateway.isUserOnline in Hon.
    apply bool_decide_eq_true in Hon as [s Hs].
    exists s. by apply Hsound.
  - intros p client h user Hauth g.
    destruct (closed_while_awaiting verify db p client h user Hauth) as (Hreg & _ & Hclosed & _).
    fold g in Hreg, Hclosed.
    split; [done|]. split; [done|]. split.
    + unfold WebSocketGateway.isUserOnline. apply bool_decide_eq_true. by eexists.
    + intros Hsound. by destruct (Hsound _ _ Hreg).
Qed.

Lemma registry_points_to_open_sockets_witness :
  registry_sound
    (WebSocketGateway.gateway
       (WebSocketGateway.turns sample_verify db1 WebSocketGateway.empty_pending
          [WebSocketGateway.Opened "s1" (with_token "alice");
           WebSocketGateway.Opened "s2" (with_token "bob");
           WebSocketGateway.Answered "s2";
           WebSocketGateway.Answered "s1";
           WebSocketGateway.Closed "s1"]))
  ∧ ¬ registry_sound
        (WebSocketGateway.gateway
           (WebSocketGateway.turns sample_verify db1 WebSocketGateway.empty_pending
              [WebSocketGateway.Opened "s1" (with_token "alice");
               WebSocketGateway.Closed "s1";
               WebSocketGateway.Answered "s1"])).
Proof.
  assert (user_ids_nonempty db1) as Hne.
  { unfold user_ids_nonempty. apply Forall_forall.
    apply (bool_decide_unpack _). vm_compute. exact I. }
  destruct (registry_points_to_open_sockets sample_verify db1
              [WebSocketGateway.Opened "s1" (with_token "alice");
               WebSocketGateway.Opened "s2" (with_token "bob");
               WebSocketGateway.Answered "s2";
               WebSocketGateway.Answered "s1";
               WebSocketGateway.Closed "s1"] Hne) as [Htimely Hstale].
  split.
  - apply Htimely. vm_compute. repeat split.
  - assert (WebSocketGateway.authenticate sample_verify db1 (with_token "alice") = Some alice)
      as Hauth by (vm_compute; reflexivity).
    by destruct (Hstale WebSocketGateway.empty_pending "s1" (with_token "alice") alice Hauth)
      as (_ & _ & _ & H).
Defined.

(** ** Rooms and delivery *)

Section Delivery.
Import WebSocketGateway.
Variable verify : string → option string.

Lemma elem_of_members (room : string) (hub : Hub) (s : string) :
  s ∈ members room hub ↔ room ∈ rooms_of hub s.
Proof.
  unfold members, rooms_of. rewrite elem_of_elements, elem_of_dom. split.
  - intros [rs Hrs]. apply map_lookup_filter_Some in Hrs as [Hl Hin]. by rewrite Hl.
  - destruct (hub_rooms hub !! s) as [rs|] eqn:Hl; cbn.
    + intros Hin. exists rs. by apply map_lookup_filter_Some.
    + by intros ?%elem_of_empty.
Qed.

Lemma sent_since_emit_to (room event payload : string) (hub : Hub) :
  sent_since hub (emit_to room event payload hub)
  = (λ client, mkEmitted client event payload) <$> members room hub.
Proof. unfold sent_since, emit_to. cbn. by rewrite drop_app_length. Qed.

(** X21. Delivery goes by rooms, not by the registry.  Once a socket has
    authenticated as a user, a notification sent to that user reaches it
    even after any other socket has closed; and if that other socket
    carried the same user's id, the notification is delivered although
    the registry then reports the user offline. *)
Theorem delivery_survives_other_disconnect (db : Db) (hub : Hub) (client other : string)
    (h : Handshake) (user : User) (notification : string) :
  authenticate verify db h = Some user →
  other ≠ client →
  let connected := hub_connect verify db hub client h in
  let closed := hub_disconnect verify db connected other in
  let sent := sendNotificationToUser closed (user_id user) notification in
  mkEmitted client "notification" notification ∈ sent_since closed sent
  ∧ (socket_userId (hub_gateway hub) !! other = Some (user_id user) →
     user_id user ≠ EmptyString →
     isUserOnline (hub_gateway sent) (user_id user) = false).
Proof.
  intros Hauth Hne connected closed sent. split.
  - subst sent. unfold sendNotificationToUser. rewrite sent_since_emit_to.
    apply list_elem_of_fmap. exists client. split; [done|].
    apply elem_of_members. subst closed connected.
    unfold hub_disconnect, hub_connect, rooms_of. rewrite Hauth.
    cbn [hub_rooms client_emit client_join].
    rewrite lookup_delete_ne by done. rewrite lookup_insert_eq. cbn.
    apply elem_of_union. left. by apply elem_of_singleton.
  - intros Hother Hnonempty. subst sent closed connected.
    unfold sendNotificationToUser, emit_to, hub_disconnect, hub_connect. rewrite Hauth.
    cbn [hub_gateway client_emit client_join].
    unfold step at 1. unfold client_disconnect.
    unfold step. rewrite handleConnection_authenticate, Hauth.
    unfold handleDisconnect. cbn [socket_userId connectedUsers live].
    rewrite lookup_insert_ne by done. rewrite Hother. cbn [truthy_string].
    rewrite bool_decide_eq_true_2 by done.
    unfold isUserOnline. cbn [connectedUsers]. rewrite lookup_delete_eq.
    apply bool_decide_eq_false_2. by intros [? ?].
Qed.

(** X22. [handleJoinRoom] does not look at the room name.  A socket that
    carries any user id may join the personal room of any other user, is
    told it joined, and from then on receives what is sent to that user.
    A socket that carries no user id is ignored: nothing changes and
    nothing is sent. *)
Theorem join_room_is_unchecked (hub : Hub) (client userId victim notification : string) :
  (socket_userId (hub_gateway hub) !! client = Some userId →
   userId ≠ EmptyString →
   let joined := handleJoinRoom hub client (user_room victim) in
   sent_since hub joined = [mkEmitted client "joined-room" (user_room victim)]
   ∧ mkEmitted client "notification" notification
     ∈ sent_since joined (sendNotificationToUser joined victim notification))
  ∧ (socket_userId (hub_gateway hub) !! client = None →
     ∀ room, handleJoinRoom hub client room = hub
             ∧ handleLeaveRoom hub client room = hub).
Proof.
  split.
  - intros Hs Hne joined. subst joined. unfold handleJoinRoom. rewrite Hs.
    cbn [truthy_string]. rewrite bool_decide_eq_true_2 by done. cbn [negb]. split.
    + unfold sent_since, client_emit, client_join. cbn. by rewrite drop_app_length.
    + unfold sendNotificationToUser. rewrite sent_since_emit_to.
      apply list_elem_of_fmap. exists client. split; [done|].
      apply elem_of_members. unfold rooms_of, client_emit, client_join. cbn [hub_rooms].
      rewrite lookup_insert_eq. cbn. apply elem_of_union. left. by apply elem_of_singleton.
  - intros Hs room. unfold handleJoinRoom, handleLeaveRoom. by rewrite Hs.
Qed.

Lemma sendNoteUpdate_emitted (userIds : list string) (noteUpdate : string) (hub : Hub) :
  sendNoteUpdate hub userIds noteUpdate
  = mkHub (hub_gateway hub) (hub_rooms hub)
      (hub_emitted hub
       ++ (userIds ≫= λ userId,
             (λ client, mkEmitted client "note-updated" noteUpdate)
               <$> members (user_room userId) hub)).
Proof.
  unfold sendNoteUpdate. revert hub. induction userIds as [|x l IH]; intros hub.
  - cbn. rewrite app_nil_r. by destruct hub.
  - cbn [foldl]. rewrite IH. unfold emit_to. cbn [hub_gateway hub_rooms hub_emitted].
    rewrite bind_cons, app_assoc. done.
Qed.

(** X23. [sendNoteUpdate] sends "note-updated" once for every entry of
    the list to every socket in that user's room, in list order, so a
    user named twice is sent it twice; it changes neither rooms nor
    registry.  A socket is sent the update exactly when it is in the
    room of some listed user, and nothing is sent for the empty list. *)
Theorem sendNoteUpdate_reach (hub : Hub) (userIds : list string) (noteUpdate : string) :
  let sent := sendNoteUpdate hub userIds noteUpdate in
  hub_gateway sent = hub_gateway hub
  ∧ hub_rooms sent = hub_rooms hub
  ∧ sent_since hub sent
    = (userIds ≫= λ userId,
         (λ client, mkEmitted client "note-updated" noteUpdate)
           <$> members (user_room userId) hub)
  ∧ (∀ client, mkEmitted client "note-updated" noteUpdate ∈ sent_since hub sent
               ↔ ∃ userId, userId ∈ userIds ∧ user_room userId ∈ rooms_of hub client)
  ∧ (userIds = [] → sent = hub).
Proof.
  cbn zeta. rewrite sendNoteUpdate_emitted. cbn [hub_gateway hub_rooms].
  assert (sent_since hub
            (mkHub (hub_gateway hub) (hub_rooms hub)
               (hub_emitted hub
                ++ (userIds ≫= λ userId,
                      (λ client, mkEmitted client "note-updated" noteUpdate)
                        <$> members (user_room userId) hub)))
          = (userIds ≫= λ userId,
               (λ client, mkEmitted client "note-updated" noteUpdate)
                 <$> members (user_room userId) hub)) as ->.
  { unfold sent_since. cbn. by rewrite drop_app_length. }
  repeat split; try done.
  - intros (userId & Hin & Huid)%list_elem_of_bind.
    apply list_elem_of_fmap in Hin as (c & [= ->] & Hc).
    exists userId. split; [done|]. by apply elem_of_members.
  - intros (userId & Huid & Hroom). apply list_elem_of_bind. exists userId. split; [|done].
    apply list_elem_of_fmap. exists client. split; [done|]. by apply elem_of_members.
  - intros ->. cbn. rewrite app_nil_r. by destruct hub.
Qed.
End Delivery.

Lemma delivery_survives_other_disconnect_witness :
  let connected :=
    WebSocketGateway.hub_connect sample_verify db1
      (WebSocketGateway.hub_connect sample_verify db1 WebSocketGateway.empty_hub
         "s1" (with_token "alice"))
      "s2" (with_token "alice") in
  let closed := WebSocketGateway.hub_disconnect sample_verify db1 connected "s1" in
  let sent := WebSocketGateway.sendNotificationToUser closed "alice" "hello" in
  WebSocketGateway.mkEmitted "s2" "notification" "hello" ∈ sent_since closed sent
  ∧ WebSocketGateway.isUserOnline (WebSocketGateway.hub_gateway sent) "alice" = false.
Proof.
  assert ("s1" ≠ "s2") as Hne by (by intros [=]).
  assert ("alice" ≠ EmptyString) as Hnonempty by (by intros [=]).
  destruct (delivery_survives_other_disconnect sample_verify db1
              (WebSocketGateway.hub_connect sample_verify db1 WebSocketGateway.empty_hub
                 "s1" (with_token "alice"))
              "s2" "s1" (with_token "alice") alice "hello" eq_refl Hne) as [Hsent Hoff].
  split; [exact Hsent|]. apply Hoff; [|exact Hnonempty].
  vm_compute. reflexivity.
Defined.

Lemma join_room_is_unchecked_witness :
  let hub := WebSocketGateway.hub_connect sample_verify db1 WebSocketGateway.empty_hub
               "s1" (with_token "alice") in
  let joined := WebSocketGateway.handleJoinRoom hub "s1" (WebSocketGateway.user_room "bob") in
  WebSocketGateway.mkEmitted "s1" "notification" "for bob"
  ∈ sent_since joined (WebSocketGateway.sendNotificationToUser joined "bob" "for bob").
Proof.
  assert ("alice" ≠ EmptyString) as Hnonempty by (by intros [=]).
  destruct (join_room_is_unchecked
              (WebSocketGateway.hub_connect sample_verify db1 WebSocketGateway.empty_hub
                 "s1" (with_token "alice"))
              "s1" "alice" "bob" "for bob") as [H _].
  destruct (H eq_refl Hnonempty) as [_ Hsent]. exact Hsent.
Defined.
